(** * Volunteer matching: the matching API, the seed script and the
      event-management form, embedded from the TypeScript/JavaScript sources.

    Layout:
    - [JS]: the fragment of the JavaScript runtime the sources lean on
      (numbers, JSON values, truthiness, [Number], [trim], [slice],
      [sort], [Date.prototype.toISOString]);
    - [Prisma]: the store, as explicit state with a small state-and-exception
      monad;
    - [Matching]: the routes of the matching router;
    - [Seed]: the seed script;
    - [EventManage]: the form validation of the event-management page;
    - the vocabulary of the properties and sample data;
    - then the properties: of the JavaScript fragment, of the store, of
      the ranking, of the frame of the router, of the assignment, of the
      seed script and of the form. *)

From Stdlib Require Import List String Ascii ZArith QArith Bool Lia Arith.
From Stdlib Require Import Permutation Sorted.
Import ListNotations.

Local Open Scope string_scope.
Local Open Scope Z_scope.

#[local] Set Warnings "-register-all".

(* ===================================================================== *)
(** ** The JavaScript fragment                                            *)
(* ===================================================================== *)

Module JS.

(** A JavaScript number: NaN, the two infinities, or a finite value, held
    as the rational it denotes (signed zeros are not told apart; nothing
    below depends on the sign of zero). *)
Inductive number : Type :=
  | NaN
  | NegInf
  | Fin (q : Q)
  | PosInf.

Definition ofZ (z : Z) : number := Fin (inject_Z z).

Definition Qltb (a b : Q) : bool := negb (Qle_bool b a).

(** [x > y] on numbers: false as soon as one side is NaN. *)
Definition gt (x y : number) : bool :=
  match x, y with
  | NaN, _ | _, NaN => false
  | NegInf, _ => false
  | _, PosInf => false
  | PosInf, _ => true
  | Fin _, NegInf => true
  | Fin a, Fin b => Qltb b a
  end.

(** [x >= y] *)
Definition ge (x y : number) : bool :=
  match x, y with
  | NaN, _ | _, NaN => false
  | PosInf, _ => true
  | _, NegInf => true
  | NegInf, _ => false
  | Fin _, PosInf => false
  | Fin a, Fin b => Qle_bool b a
  end.

(** [x - y].  On finite values the difference of two doubles has the sign
    of the exact difference (gradual underflow), and the callers only look
    at the sign. *)
Definition sub (x y : number) : number :=
  match x, y with
  | NaN, _ | _, NaN => NaN
  | PosInf, PosInf => NaN
  | NegInf, NegInf => NaN
  | PosInf, _ => PosInf
  | NegInf, _ => NegInf
  | Fin _, PosInf => NegInf
  | Fin _, NegInf => PosInf
  | Fin a, Fin b => Fin (a - b)
  end.

(** JSON values, as a parsed request body or a Json column holds them; a
    number is the value of the double it was parsed to. *)
Inductive value : Type :=
  | JNull
  | JBool (b : bool)
  | JNum (q : Q)
  | JStr (s : string)
  | JArr (items : list value)
  | JObj (fields : list (string * value)).

(** ToBoolean.  [None] stands for [undefined]. *)
Definition truthy (v : option value) : bool :=
  match v with
  | None => false
  | Some JNull => false
  | Some (JBool b) => b
  | Some (JNum q) => negb (Qeq_bool q 0)
  | Some (JStr s) => negb (String.eqb s "")
  | Some (JArr _) => true
  | Some (JObj _) => true
  end.

(** [Array.isArray(v) ? v : []] *)
Definition arrayOrEmpty (v : value) : list value :=
  match v with
  | JArr items => items
  | _ => []
  end.

(** Property read [o.k] on a parsed body; a missing key, or a body that is
    not an object, reads as [undefined]. *)
Fixpoint assoc {A : Type} (k : string) (l : list (string * A)) : option A :=
  match l with
  | [] => None
  | (k', v) :: l' => if String.eqb k k' then Some v else assoc k l'
  end.

Definition getField (o : value) (k : string) : option value :=
  match o with
  | JObj fields => assoc k fields
  | _ => None
  end.

(** *** Strings

    A string is held as the bytes of its UTF-8 form, so every text of
    well-formed characters has one representation.  The operations below
    read characters and UTF-16 code units off the bytes. *)

Definition bytes (l : list nat) : list ascii := map ascii_of_nat l.

(** The characters that [trim] and [Number] strip: WhiteSpace and
    LineTerminator, that is U+0009 to U+000D, U+0020, U+00A0, U+1680,
    U+2000 to U+200A, U+2028, U+2029, U+202F, U+205F, U+3000 and U+FEFF,
    each as its bytes. *)
Definition whiteSpace : list (list ascii) :=
  map bytes
    [ [9]; [10]; [11]; [12]; [13]; [32];
      [194; 160];
      [225; 154; 128];
      [226; 128; 128]; [226; 128; 129]; [226; 128; 130]; [226; 128; 131];
      [226; 128; 132]; [226; 128; 133]; [226; 128; 134]; [226; 128; 135];
      [226; 128; 136]; [226; 128; 137]; [226; 128; 138];
      [226; 128; 168]; [226; 128; 169];
      [226; 128; 175];
      [226; 129; 159];
      [227; 128; 128];
      [239; 187; 191] ]%nat.

(** The rest of [l] after [p], when [l] starts with [p]. *)
Fixpoint startsWith (p l : list ascii) : option (list ascii) :=
  match p with
  | [] => Some l
  | c :: p' =>
      match l with
      | d :: l' => if Ascii.eqb c d then startsWith p' l' else None
      | [] => None
      end
  end.

(** The rest of [l] after its first character, when this is one of
    [chars]. *)
Fixpoint afterOneOf (chars : list (list ascii)) (l : list ascii)
  : option (list ascii) :=
  match chars with
  | [] => None
  | p :: chars' =>
      match startsWith p l with
      | Some r => Some r
      | None => afterOneOf chars' l
      end
  end.

Fixpoint dropFuel (fuel : nat) (chars : list (list ascii)) (l : list ascii)
  : list ascii :=
  match fuel with
  | O => l
  | S f =>
      match afterOneOf chars l with
      | Some r => dropFuel f chars r
      | None => l
      end
  end.

(** [l] without its leading characters among [chars]; a character takes
    at least one byte, so the length of [l] bounds the steps. *)
Definition dropLeading (chars : list (list ascii)) (l : list ascii) : list ascii :=
  dropFuel (List.length l) chars l.

(** Both ends are stripped: the front, then the back read backwards. *)
Definition trimChars (l : list ascii) : list ascii :=
  rev (dropLeading (map (@rev ascii) whiteSpace) (rev (dropLeading whiteSpace l))).

(** [s.trim()] *)
Definition trim (s : string) : string :=
  string_of_list_ascii (trimChars (list_ascii_of_string s)).

(** The UTF-16 code units a byte stands for: the lead byte of a character
    below U+10000 stands for one, the lead byte of a character from
    U+10000 (0xF0 and above) for two, a continuation byte (0x80 to 0xBF)
    for none. *)
Definition codeUnits (c : ascii) : nat :=
  let n := nat_of_ascii c in
  if (Nat.leb 128 n && Nat.ltb n 192)%bool then 0%nat
  else if Nat.leb 240 n then 2%nat
  else 1%nat.

(** [s.length] *)
Definition lengthOf (s : string) : nat :=
  list_sum (map codeUnits (list_ascii_of_string s)).

(** *** ToIntegerOrInfinity and [slice] *)

Inductive integerOrInfinity : Type :=
  | MinusInfinity
  | Integer (z : Z)
  | PlusInfinity.

(** Truncation towards zero. *)
Definition truncate (q : Q) : Z := Z.quot (Qnum q) (Zpos (Qden q)).

Definition toIntegerOrInfinity (n : number) : integerOrInfinity :=
  match n with
  | NaN => Integer 0
  | PosInf => PlusInfinity
  | NegInf => MinusInfinity
  | Fin q => Integer (truncate q)
  end.

(** The clamping of a relative index of [slice] into [0 .. len]. *)
Definition relativeIndex (len : Z) (n : number) : Z :=
  match toIntegerOrInfinity n with
  | MinusInfinity => 0
  | Integer z => if z <? 0 then Z.max (len + z) 0 else Z.min z len
  | PlusInfinity => len
  end.

(** [l.slice(start, end)] *)
Definition slice {A : Type} (l : list A) (start stop : number) : list A :=
  let len := Z.of_nat (List.length l) in
  let k := relativeIndex len start in
  let final := relativeIndex len stop in
  firstn (Z.to_nat (Z.max (final - k) 0)) (skipn (Z.to_nat k) l).

(** [s.slice(start, end)] on a string. *)
Definition sliceString (s : string) (start stop : number) : string :=
  string_of_list_ascii (slice (list_ascii_of_string s) start stop).

(** *** [Array.prototype.sort] with a comparator

    The comparator's result is read through its sign, NaN counting as 0.
    With a consistent comparator the result of [sort] is fixed by the
    language: the stable sorted arrangement.  Insertion from the right
    computes it: an element moves past those the comparator puts strictly
    before it and stays in front of its equals. *)
Definition gt0 (n : number) : bool := gt n (ofZ 0).

Fixpoint insert {A : Type} (cmp : A -> A -> number) (x : A) (l : list A) : list A :=
  match l with
  | [] => [x]
  | y :: l' => if gt0 (cmp x y) then y :: insert cmp x l' else x :: l
  end.

Fixpoint sort {A : Type} (cmp : A -> A -> number) (l : list A) : list A :=
  match l with
  | [] => []
  | x :: l' => insert cmp x (sort cmp l')
  end.

(** *** [Number(...)]: StringToNumber

    The StringNumericLiteral grammar: optional white space around either
    nothing (0), a signed decimal literal ([Infinity], digits with an
    optional fraction and exponent), or an unsigned [0x], [0o], [0b]
    literal.  Anything else is NaN.  The mathematical value is rounded to
    the nearest double, ties to even. *)

Definition digitValue (c : ascii) : option Z :=
  let n := Z.of_nat (nat_of_ascii c) in
  if (48 <=? n) && (n <=? 57) then Some (n - 48)
  else if (97 <=? n) && (n <=? 102) then Some (n - 87)
  else if (65 <=? n) && (n <=? 70) then Some (n - 55)
  else None.

(** The longest prefix of digits: its value, its length, and the rest. *)
Fixpoint digitsFrom (radix : Z) (acc : Z) (n : Z) (l : list ascii)
  : Z * Z * list ascii :=
  match l with
  | c :: l' =>
      match digitValue c with
      | Some d => if d <? radix then digitsFrom radix (acc * radix + d) (n + 1) l'
                  else (acc, n, l)
      | None => (acc, n, l)
      end
  | [] => (acc, n, l)
  end.

Definition digits (radix : Z) (l : list ascii) : Z * Z * list ascii :=
  digitsFrom radix 0 0 l.

(** Round a positive rational [n / d] to the nearest double. *)
Definition roundPositive (n d : positive) : number :=
  let e0 := Z.log2 (Zpos n) - Z.log2 (Zpos d) in
  let below :=
    if 0 <=? e0 then Zpos n <? Zpos d * 2 ^ e0
    else Zpos n * 2 ^ (- e0) <? Zpos d in
  let e := if below then e0 - 1 else e0 in
  let s := Z.max (e - 52) (-1074) in
  let num := if 0 <=? s then Zpos n else Zpos n * 2 ^ (- s) in
  let den := if 0 <=? s then Zpos d * 2 ^ s else Zpos d in
  let fl := num / den in
  let r := num mod den in
  let m := if 2 * r <? den then fl
           else if den <? 2 * r then fl + 1
           else if Z.even fl then fl else fl + 1 in
  if m =? 0 then Fin 0
  else if 1024 <=? Z.log2 m + s then PosInf
  else if 0 <=? s then Fin (inject_Z (m * 2 ^ s))
  else Fin (Qred (Qmake m (Z.to_pos (2 ^ (- s))))).

Definition neg (x : number) : number :=
  match x with
  | NaN => NaN
  | NegInf => PosInf
  | PosInf => NegInf
  | Fin q => Fin (- q)
  end.

Definition roundToDouble (q : Q) : number :=
  match Qnum q with
  | Z0 => Fin 0
  | Zpos n => roundPositive n (Qden q)
  | Zneg n => neg (roundPositive n (Qden q))
  end.

(** [m * 10 ^ e] as a rational. *)
Definition scale10 (m e : Z) : Q :=
  if 0 <=? e then inject_Z (m * 10 ^ e)
  else Qmake m (Z.to_pos (10 ^ (- e))).

Definition isChar (c : ascii) (a b : string) : bool :=
  (String.eqb (String c "") a || String.eqb (String c "") b)%bool.

(** ExponentPart, when there is one; [None] when the rest is not one. *)
Definition exponentPart (l : list ascii) : option Z :=
  match l with
  | [] => Some 0
  | c :: l1 =>
      if isChar c "e" "E" then
        let '(sign, l2) :=
          match l1 with
          | c' :: l'' => if isChar c' "+" "+" then (1, l'')
                         else if isChar c' "-" "-" then (-1, l'')
                         else (1, l1)
          | [] => (1, l1)
          end in
        let '(v, n, rest) := digits 10 l2 in
        match rest with
        | [] => if 0 <? n then Some (sign * v) else None
        | _ :: _ => None
        end
      else None
  end.

(** StrUnsignedDecimalLiteral. *)
Definition unsignedDecimal (l : list ascii) : number :=
  if String.eqb (string_of_list_ascii l) "Infinity" then PosInf
  else
    let '(iv, ilen, r1) := digits 10 l in
    let '(fv, flen, r2, dot) :=
      match r1 with
      | c :: r1' => if isChar c "." "." then
                      let '(fv, flen, r2) := digits 10 r1' in (fv, flen, r2, true)
                    else (0, 0, r1, false)
      | [] => (0, 0, r1, false)
      end in
    if (0 <? ilen) || (dot && (0 <? flen)) then
      match exponentPart r2 with
      | Some e => roundToDouble (scale10 (iv * 10 ^ flen + fv) (e - flen))
      | None => NaN
      end
    else NaN.

(** NonDecimalIntegerLiteral, when the prefix announces one. *)
Definition nonDecimal (l : list ascii) : option number :=
  match l with
  | z :: x :: l' =>
      if isChar z "0" "0" then
        let radix :=
          if isChar x "x" "X" then Some 16
          else if isChar x "o" "O" then Some 8
          else if isChar x "b" "B" then Some 2
          else None in
        match radix with
        | Some r =>
            let '(v, n, rest) := digits r l' in
            match rest with
            | [] => if 0 <? n then Some (roundToDouble (inject_Z v)) else Some NaN
            | _ :: _ => Some NaN
            end
        | None => None
        end
      else None
  | _ => None
  end.

Definition stringToNumber (s : string) : number :=
  match trimChars (list_ascii_of_string s) with
  | [] => Fin 0
  | (c :: l') as l =>
      match nonDecimal l with
      | Some n => n
      | None =>
          if isChar c "+" "+" then unsignedDecimal l'
          else if isChar c "-" "-" then neg (unsignedDecimal l')
          else unsignedDecimal l
      end
  end.

(** *** Dates

    A valid [Date] is its time value: milliseconds since the epoch. *)
Definition Date : Type := Z.

Definition digitChar (d : Z) : ascii := ascii_of_nat (Z.to_nat (48 + d mod 10)).

(** [z], non-negative, in decimal on at least [width] digits. *)
Fixpoint padded (width : nat) (z : Z) : list ascii :=
  match width with
  | O => []
  | S w => padded w (z / 10) ++ [digitChar z]
  end.

(** Year, month and day of a day count since the epoch (proleptic
    Gregorian calendar). *)
Definition civilFromDays (days : Z) : Z * Z * Z :=
  let z := days + 719468 in
  let era := z / 146097 in
  let doe := z - era * 146097 in
  let yoe := (doe - doe / 1460 + doe / 36524 - doe / 146096) / 365 in
  let doy := doe - (365 * yoe + yoe / 4 - yoe / 100) in
  let mp := (5 * doy + 2) / 153 in
  let d := doy - (153 * mp + 2) / 5 + 1 in
  let m := if mp <? 10 then mp + 3 else mp - 9 in
  let y := yoe + era * 400 + (if m <=? 2 then 1 else 0) in
  (y, m, d).

(** [d.getUTCFullYear()] *)
Definition getUTCFullYear (t : Date) : Z :=
  let '(y, _, _) := civilFromDays (t / 86400000) in y.

(** [d.toISOString()] *)
Definition toISOString (t : Date) : string :=
  let day := t / 86400000 in
  let ms := t mod 86400000 in
  let '(y, m, d) := civilFromDays day in
  let year :=
    if (0 <=? y) && (y <=? 9999) then padded 4 y
    else (if y <? 0 then "-"%char else "+"%char) :: padded 6 (Z.abs y) in
  string_of_list_ascii
    (year ++ "-"%char :: padded 2 m ++ "-"%char :: padded 2 d
       ++ "T"%char :: padded 2 (ms / 3600000)
       ++ ":"%char :: padded 2 (ms / 60000 mod 60)
       ++ ":"%char :: padded 2 (ms / 1000 mod 60)
       ++ "."%char :: padded 3 (ms mod 1000) ++ ["Z"%char]).

(** *** Query-string values and [Number]

    What the query parser hands over for a key that is present: a string,
    or an array when the key is repeated ([?k=a&k=b]).  The objects that
    the extended parser builds for [?k[x]=a] are left out. *)
Inductive query : Type :=
  | QString (s : string)
  | QArray (items : list query).

Fixpoint join (sep : string) (l : list string) : string :=
  match l with
  | [] => ""
  | [s] => s
  | s :: l' => s ++ sep ++ join sep l'
  end.

(** ToString, through ToPrimitive for an array. *)
Fixpoint queryToString (q : query) : string :=
  match q with
  | QString s => s
  | QArray items => join "," (map queryToString items)
  end.

(** [Number(v)] for a query value. *)
Definition Number (q : query) : number := stringToNumber (queryToString q).

(** [Number(b)] for a BigInt. *)
Definition NumberOfBigInt (b : Z) : number := roundToDouble (inject_Z b).

(** Decimal digits of a non-negative integer. *)
Fixpoint decimalFuel (fuel : nat) (z : Z) (acc : list ascii) : list ascii :=
  match fuel with
  | O => acc
  | S f => if z <? 10 then digitChar z :: acc
           else decimalFuel f (z / 10) (digitChar z :: acc)
  end.

Definition decimal (z : Z) : string :=
  string_of_list_ascii (decimalFuel (S (Z.to_nat (Z.log2 z))) z []).

(** ToString on a value that may be [undefined], as a template literal
    applies it.  A number is printed when it is an integer below 10^21;
    the printing of the other numbers is not modelled (they read as their
    truncation): the routes only reach a template with a string. *)
Definition numberToString (q : Q) : string :=
  let z := truncate q in
  if z <? 0 then "-" ++ decimal (- z) else decimal z.

Fixpoint toString (v : value) : string :=
  match v with
  | JNull => "null"
  | JBool true => "true"
  | JBool false => "false"
  | JNum q => numberToString q
  | JStr s => s
  | JArr items =>
      join "," (map (fun x => match x with JNull => "" | _ => toString x end) items)
  | JObj _ => "[object Object]"
  end.

Definition templateString (v : option value) : string :=
  match v with
  | None => "undefined"
  | Some x => toString x
  end.

End JS.

Import JS.

(* ===================================================================== *)
(** ** The store                                                          *)
(* ===================================================================== *)

(** The rows carry the columns the sources read or write.  The schema file
    is not among the sources: the keys ([userId], the event [id]) are
    strings, as the routes and the form type them; a row created without an
    [id] or a creation time gets them from the store. *)

Module UserCredentials.
Record t : Type := { userId : string; password : string }.
End UserCredentials.

Module UserProfile.
Record t : Type := {
  userId : string;
  fullName : string;
  address1 : string;
  city : string;
  state : string;
  zipCode : string;
  skills : value;
  preferences : value;
  availability : value;
  createdAt : Date
}.
End UserProfile.

Module EventDetails.
Record t : Type := {
  id : string;
  eventName : string;
  description : string;
  location : string;
  requiredSkills : value;
  urgency : string;
  eventDate : Date
}.
End EventDetails.

Module Assignment.
Record t : Type := {
  id : nat;
  volunteerId : string;
  eventId : string;
  createdAtMs : option Z
}.
End Assignment.

Module Notice.
Record t : Type := {
  id : nat;
  volunteerId : string;
  title : string;
  body : string;
  type : string;
  createdAtMs : option Z
}.
End Notice.

Module States.
Record t : Type := { stateCode : string; stateName : string }.
End States.

(** The payload a notice is published with. *)
Module NoticeEvent.
Record t : Type := {
  id : nat;
  volunteerId : string;
  title : string;
  body : string;
  type : string;
  createdAtMs : number
}.
End NoticeEvent.

Module Prisma.

(** The tables, each in the store's row order. *)
Record Tables : Type := {
  userCredentials : list UserCredentials.t;
  userProfile : list UserProfile.t;
  eventDetails : list EventDetails.t;
  assignment : list Assignment.t;
  notice : list Notice.t;
  states : list States.t
}.

(** The process and its surroundings: the database, what the bus has been
    asked to publish (oldest first), and what the code does not control:
    whether the coming store calls fail ([true]: the call throws; past the
    end of the list no call fails), the store's clock, the value it gives a
    [createdAtMs] column left out of a [create], and its next generated
    key. *)
Record World : Type := {
  db : Tables;
  emitted : list (string * NoticeEvent.t);
  faults : list bool;
  now : Date;
  nowMs : option Z;
  nextId : nat
}.

Definition setDb (w : World) (d : Tables) : World :=
  {| db := d; emitted := emitted w; faults := faults w; now := now w;
     nowMs := nowMs w; nextId := nextId w |}.

Definition setFaults (w : World) (f : list bool) : World :=
  {| db := db w; emitted := emitted w; faults := f; now := now w;
     nowMs := nowMs w; nextId := nextId w |}.

Definition setNextId (w : World) (n : nat) : World :=
  {| db := db w; emitted := emitted w; faults := faults w; now := now w;
     nowMs := nowMs w; nextId := n |}.

Definition setEmitted (w : World) (e : list (string * NoticeEvent.t)) : World :=
  {| db := db w; emitted := e; faults := faults w; now := now w;
     nowMs := nowMs w; nextId := nextId w |}.

Definition setUserCredentials (d : Tables) (l : list UserCredentials.t) : Tables :=
  {| userCredentials := l; userProfile := userProfile d;
     eventDetails := eventDetails d; assignment := assignment d;
     notice := notice d; states := states d |}.

Definition setUserProfile (d : Tables) (l : list UserProfile.t) : Tables :=
  {| userCredentials := userCredentials d; userProfile := l;
     eventDetails := eventDetails d; assignment := assignment d;
     notice := notice d; states := states d |}.

Definition setEventDetails (d : Tables) (l : list EventDetails.t) : Tables :=
  {| userCredentials := userCredentials d; userProfile := userProfile d;
     eventDetails := l; assignment := assignment d;
     notice := notice d; states := states d |}.

Definition setAssignment (d : Tables) (l : list Assignment.t) : Tables :=
  {| userCredentials := userCredentials d; userProfile := userProfile d;
     eventDetails := eventDetails d; assignment := l;
     notice := notice d; states := states d |}.

Definition setNotice (d : Tables) (l : list Notice.t) : Tables :=
  {| userCredentials := userCredentials d; userProfile := userProfile d;
     eventDetails := eventDetails d; assignment := assignment d;
     notice := l; states := states d |}.

Definition setStates (d : Tables) (l : list States.t) : Tables :=
  {| userCredentials := userCredentials d; userProfile := userProfile d;
     eventDetails := eventDetails d; assignment := assignment d;
     notice := notice d; states := l |}.

(** *** Computations that read and write the world and may throw *)

Inductive exn : Type :=
  | StoreFailure        (* the store, or the connection to it, failed *)
  | InvalidArgument.    (* the client refused an argument *)

Inductive result (A : Type) : Type :=
  | Ok (a : A)
  | Thrown (e : exn).
Arguments Ok {A} a.
Arguments Thrown {A} e.

Definition M (A : Type) : Type := World -> result A * World.

Definition ret {A : Type} (a : A) : M A := fun w => (Ok a, w).

Definition throw {A : Type} (e : exn) : M A := fun w => (Thrown e, w).

Definition bind {A B : Type} (m : M A) (k : A -> M B) : M B :=
  fun w =>
    match m w with
    | (Ok a, w') => k a w'
    | (Thrown e, w') => (Thrown e, w')
    end.

Declare Scope store_scope.
Delimit Scope store_scope with store.
Notation "x <- m ;; k" := (bind m (fun x => k))
  (at level 61, m at next level, right associativity) : store_scope.
Notation "m ;;; k" := (bind m (fun _ => k))
  (at level 61, right associativity) : store_scope.
Local Open Scope store_scope.

(** [try { m } catch { h }] *)
Definition tryCatch {A : Type} (m : M A) (h : M A) : M A :=
  fun w =>
    match m w with
    | (Ok a, w') => (Ok a, w')
    | (Thrown _, w') => h w'
    end.

(** [await Promise.all([m1, m2])]: both are started; the first rejection,
    if any, is thrown. *)
Definition promiseAll {A B : Type} (m1 : M A) (m2 : M B) : M (A * B) :=
  fun w =>
    let (r1, w1) := m1 w in
    let (r2, w2) := m2 w1 in
    match r1, r2 with
    | Ok a, Ok b => (Ok (a, b), w2)
    | Thrown e, _ => (Thrown e, w2)
    | _, Thrown e => (Thrown e, w2)
    end.

(** One round trip to the store: it fails when the world says so. *)
Definition roundTrip : M unit :=
  fun w =>
    match faults w with
    | true :: f => (Thrown StoreFailure, setFaults w f)
    | false :: f => (Ok tt, setFaults w f)
    | [] => (Ok tt, setFaults w [])
    end.

(** The world after a round trip that went through. *)
Definition tick (w : World) : World := setFaults w (tl (faults w)).

(** No store call fails from here on. *)
Definition reliable (f : list bool) : bool := forallb negb f.

Definition read {A : Type} (f : Tables -> A) : M A := fun w => (Ok (f (db w)), w).

Definition write (f : Tables -> Tables) : M unit :=
  fun w => (Ok tt, setDb w (f (db w))).

Definition freshId : M nat :=
  fun w => (Ok (nextId w), setNextId w (S (nextId w))).

Definition clock : M Date := fun w => (Ok (now w), w).

Definition clockMs : M (option Z) := fun w => (Ok (nowMs w), w).

(** An id argument: the client takes a string and refuses anything else. *)
Definition stringArg (v : option value) : M string :=
  match v with
  | Some (JStr s) => ret s
  | _ => throw InvalidArgument
  end.

(** A DateTime argument: the client refuses an invalid date, and a date
    whose year does not fit the four digits of the format it sends dates
    in. *)
Definition dateArg (d : option Date) : M Date :=
  match d with
  | Some t =>
      if (0 <=? getUTCFullYear t) && (getUTCFullYear t <=? 9999) then ret t
      else throw InvalidArgument
  | None => throw InvalidArgument
  end.

(** [prisma.$transaction(async (tx) => m)]: what [m] wrote is kept when [m]
    returns and the commit goes through, and undone otherwise. *)
Definition transaction {A : Type} (m : M A) : M A :=
  fun w =>
    match m w with
    | (Ok a, w') =>
        match roundTrip w' with
        | (Ok _, w'') => (Ok a, w'')
        | (Thrown e, w'') => (Thrown e, setDb w'' (db w))
        end
    | (Thrown e, w') => (Thrown e, setDb w' (db w))
    end.

(** [orderBy]: rows in the order [before] asks for; rows it does not tell
    apart keep the table's order. *)
Fixpoint insertBy {A : Type} (before : A -> A -> bool) (x : A) (l : list A) : list A :=
  match l with
  | [] => [x]
  | y :: l' => if before y x then y :: insertBy before x l' else x :: l
  end.

Fixpoint orderBy {A : Type} (before : A -> A -> bool) (l : list A) : list A :=
  match l with
  | [] => []
  | x :: l' => insertBy before x (orderBy before l')
  end.

(** [upsert] on a table: the first row with the key is updated, and a row
    is created at the end when there is none. *)
Fixpoint upsertRow {A : Type} (hasKey : A -> bool) (update : A -> A) (create : A)
  (l : list A) : list A :=
  match l with
  | [] => [create]
  | r :: l' => if hasKey r then update r :: l'
               else r :: upsertRow hasKey update create l'
  end.

End Prisma.

Import Prisma.
Local Open Scope store_scope.

(* ===================================================================== *)
(** ** The matching router                                                *)
(* ===================================================================== *)

Module VolunteerDTO.
Record t : Type := {
  id : string;
  name : string;
  location : string;
  skills : list value
}.
End VolunteerDTO.

Module EventDTO.
Record t : Type := {
  id : string;
  name : string;
  location : string;
  requiredSkills : list value;
  date : string;
  urgency : string
}.
End EventDTO.

(** An entry of a ranking: [{ event, score }]. *)
Module Ranked.
Record t : Type := { event : EventDTO.t; score : number }.
End Ranked.

(** The [assignment] object of the answer to an assignment. *)
Module AssignmentDTO.
Record t : Type := {
  id : nat;
  volunteerId : option value;
  eventId : option value;
  createdAtMs : number
}.
End AssignmentDTO.

Module Matching.

(** What a route answers with: a status and a JSON body. *)
Inductive json : Type :=
  | Error (error : string)
  | Volunteers (rows : list VolunteerDTO.t)
  | Events (rows : list EventDTO.t)
  | Ranking (ranked : list Ranked.t)
  | Assigned (ok : bool) (assignment : AssignmentDTO.t)
  | Health (ok : bool).

Record response : Type := { status : Z; body : json }.

(** [res.json(b)] and [res.status(s).json(b)] *)
Definition send (b : json) : M response := ret {| status := 200; body := b |}.
Definition sendStatus (s : Z) (b : json) : M response := ret {| status := s; body := b |}.

Definition toVolunteerDTO (p : UserProfile.t) : VolunteerDTO.t :=
  {| VolunteerDTO.id := UserProfile.userId p;
     VolunteerDTO.name := UserProfile.fullName p;
     VolunteerDTO.location := UserProfile.city p;
     VolunteerDTO.skills := arrayOrEmpty (UserProfile.skills p) |}.

Definition toEventDTO (e : EventDetails.t) : EventDTO.t :=
  {| EventDTO.id := EventDetails.id e;
     EventDTO.name := EventDetails.eventName e;
     EventDTO.location := EventDetails.location e;
     EventDTO.requiredSkills := arrayOrEmpty (EventDetails.requiredSkills e);
     EventDTO.date := sliceString (toISOString (EventDetails.eventDate e)) (ofZ 0) (ofZ 10);
     EventDTO.urgency := EventDetails.urgency e |}.

(** *** The store calls of the router *)

(** [prisma.userProfile.findMany({ orderBy: { createdAt: "desc" }, ... })] *)
Definition userProfile_findMany_newestFirst : M (list UserProfile.t) :=
  roundTrip ;;;
  read (fun d =>
    orderBy (fun y x => UserProfile.createdAt x <? UserProfile.createdAt y)
            (userProfile d)).

(** [prisma.eventDetails.findMany({ orderBy: { eventDate: "asc" }, ... })] *)
Definition eventDetails_findMany_soonestFirst : M (list EventDetails.t) :=
  roundTrip ;;;
  read (fun d =>
    orderBy (fun y x => EventDetails.eventDate y <? EventDetails.eventDate x)
            (eventDetails d)).

(** [prisma.eventDetails.findMany()] *)
Definition eventDetails_findMany : M (list EventDetails.t) :=
  roundTrip ;;; read eventDetails.

(** [prisma.userProfile.findUnique({ where: { userId } })] *)
Definition userProfile_findUnique (userId : option value) : M (option UserProfile.t) :=
  k <- stringArg userId ;;
  roundTrip ;;;
  read (fun d => find (fun p => String.eqb (UserProfile.userId p) k) (userProfile d)).

(** [prisma.eventDetails.findUnique({ where: { id } })] *)
Definition eventDetails_findUnique (id : option value) : M (option EventDetails.t) :=
  k <- stringArg id ;;
  roundTrip ;;;
  read (fun d => find (fun e => String.eqb (EventDetails.id e) k) (eventDetails d)).

(** [prisma.assignment.create({ data: { volunteerId, eventId } })] *)
Definition assignment_create (volunteerId eventId : option value) : M Assignment.t :=
  v <- stringArg volunteerId ;;
  e <- stringArg eventId ;;
  roundTrip ;;;
  i <- freshId ;;
  ms <- clockMs ;;
  let row := {| Assignment.id := i; Assignment.volunteerId := v;
                Assignment.eventId := e; Assignment.createdAtMs := ms |} in
  write (fun d => setAssignment d (assignment d ++ [row])) ;;;
  ret row.

(** [prisma.notice.create({ data: { volunteerId, title, body, type } })] *)
Definition notice_create (volunteerId : option value) (title body type : string)
  : M Notice.t :=
  v <- stringArg volunteerId ;;
  roundTrip ;;;
  i <- freshId ;;
  ms <- clockMs ;;
  let row := {| Notice.id := i; Notice.volunteerId := v; Notice.title := title;
                Notice.body := body; Notice.type := type;
                Notice.createdAtMs := ms |} in
  write (fun d => setNotice d (notice d ++ [row])) ;;;
  ret row.

(** [bus.emit(channel, payload)] *)
Definition emit (channel : string) (payload : NoticeEvent.t) : M unit :=
  fun w => (Ok tt, setEmitted w (emitted w ++ [(channel, payload)])).

(** [Number(x ?? 0n)] on a nullable BigInt column. *)
Definition msNumber (ms : option Z) : number :=
  NumberOfBigInt (match ms with Some b => b | None => 0 end).

(** *** The routes *)

(** [GET /volunteers] *)
Definition listVolunteers : M response :=
  tryCatch
    (rows <- userProfile_findMany_newestFirst ;;
     send (Volunteers (map toVolunteerDTO rows)))
    (sendStatus 500 (Error "list_volunteers_failed")).

(** [GET /events] *)
Definition listEvents : M response :=
  tryCatch
    (rows <- eventDetails_findMany_soonestFirst ;;
     send (Events (map toEventDTO rows)))
    (sendStatus 500 (Error "list_events_failed")).

Section Ranking.

(** The scoring function of the matching service, an import of the
    router. *)
Variable score : VolunteerDTO.t -> EventDTO.t -> number.

(** [Number(req.query.topN ?? 9999)] *)
Definition topNOf (topN : option query) : number :=
  match topN with
  | None => ofZ 9999
  | Some q => Number q
  end.

(** The comparator of the ranking: [(a, b) => b.score - a.score]. *)
Definition byScoreDesc (a b : Ranked.t) : number :=
  sub (Ranked.score b) (Ranked.score a).

(** The function mapped over the events:
    [(e) => { const eDTO = toEventDTO(e); return { event: eDTO, score: score(vDTO, eDTO) } }] *)
Definition scoreEvent (vDTO : VolunteerDTO.t) (e : EventDetails.t) : Ranked.t :=
  let eDTO := toEventDTO e in
  {| Ranked.event := eDTO; Ranked.score := score vDTO eDTO |}.

(** The filter of the ranking: [(x) => x.score > 0]. *)
Definition matches (x : Ranked.t) : bool := gt (Ranked.score x) (ofZ 0).

(** The chain [events.map(...).filter(...).sort(...).slice(0, topN)]. *)
Definition rank (vDTO : VolunteerDTO.t) (events : list EventDetails.t) (topN : number)
  : list Ranked.t :=
  slice (sort byScoreDesc (filter matches (map (scoreEvent vDTO) events)))
        (ofZ 0) topN.

(** [GET /volunteer/:id?topN=N] *)
Definition rankForVolunteer (id : string) (topNQuery : option query) : M response :=
  let topN := topNOf topNQuery in
  tryCatch
    (v <- userProfile_findUnique (Some (JStr id)) ;;
     match v with
     | None => sendStatus 404 (Error "volunteer not found")
     | Some v =>
         let vDTO := toVolunteerDTO v in
         events <- eventDetails_findMany ;;
         send (Ranking (rank vDTO events topN))
     end)
    (sendStatus 500 (Error "rank_failed")).

End Ranking.

(** [req.body || {}] *)
Definition orEmptyObject (reqBody : option value) : value :=
  match reqBody with
  | Some o => if truthy reqBody then o else JObj []
  | None => JObj []
  end.

(** [POST /assign]; [reqBody] is [req.body], [None] when there is none. *)
Definition assign (reqBody : option value) : M response :=
  let b := orEmptyObject reqBody in
  let volunteerId := getField b "volunteerId" in
  let eventId := getField b "eventId" in
  if negb (truthy volunteerId) || negb (truthy eventId) then
    sendStatus 400 (Error "volunteerId and eventId required")
  else
    tryCatch
      (ve <- promiseAll (userProfile_findUnique volunteerId)
                        (eventDetails_findUnique eventId) ;;
       match ve with
       | (Some v, Some e) =>
           assignment <- assignment_create volunteerId eventId ;;
           let title := "Assigned: " ++ EventDetails.eventName e in
           let body := EventDetails.location e ++ " • "
                       ++ toISOString (EventDetails.eventDate e) in
           notice <- notice_create volunteerId title body "success" ;;
           emit ("notice:" ++ templateString volunteerId)
                {| NoticeEvent.id := Notice.id notice;
                   NoticeEvent.volunteerId := Notice.volunteerId notice;
                   NoticeEvent.title := Notice.title notice;
                   NoticeEvent.body := Notice.body notice;
                   NoticeEvent.type := Notice.type notice;
                   NoticeEvent.createdAtMs := msNumber (Notice.createdAtMs notice) |} ;;;
           send (Assigned true
                   {| AssignmentDTO.id := Assignment.id assignment;
                      AssignmentDTO.volunteerId := volunteerId;
                      AssignmentDTO.eventId := eventId;
                      AssignmentDTO.createdAtMs := msNumber (Assignment.createdAtMs assignment) |})
       | _ => sendStatus 404 (Error "not found")
       end)
      (sendStatus 500 (Error "assign_failed")).

(** [GET /health] *)
Definition health : M response := send (Health true).

End Matching.

(* ===================================================================== *)
(** ** The seed script                                                    *)
(* ===================================================================== *)

(** The entries of the demo data file, with the fields the script reads. *)
Module DemoVol.
Record t : Type := {
  id : string;
  name : string;
  location : string;
  skills : value
}.
End DemoVol.

Module DemoEvent.
Record t : Type := {
  id : string;
  name : string;
  location : string;
  requiredSkills : value;
  urgency : string;
  date : string
}.
End DemoEvent.

Module Seed.

(** [for (const x of l) { await f(x) }] *)
Fixpoint forEach {A : Type} (l : list A) (f : A -> M unit) : M unit :=
  match l with
  | [] => ret tt
  | x :: l' => f x ;;; forEach l' f
  end.

Definition usStates : list States.t :=
  [
    {| States.stateCode := "AL"; States.stateName := "Alabama" |};
    {| States.stateCode := "AK"; States.stateName := "Alaska" |};
    {| States.stateCode := "AZ"; States.stateName := "Arizona" |};
    {| States.stateCode := "AR"; States.stateName := "Arkansas" |};
    {| States.stateCode := "CA"; States.stateName := "California" |};
    {| States.stateCode := "CO"; States.stateName := "Colorado" |};
    {| States.stateCode := "CT"; States.stateName := "Connecticut" |};
    {| States.stateCode := "DE"; States.stateName := "Delaware" |};
    {| States.stateCode := "FL"; States.stateName := "Florida" |};
    {| States.stateCode := "GA"; States.stateName := "Georgia" |};
    {| States.stateCode := "HI"; States.stateName := "Hawaii" |};
    {| States.stateCode := "ID"; States.stateName := "Idaho" |};
    {| States.stateCode := "IL"; States.stateName := "Illinois" |};
    {| States.stateCode := "IN"; States.stateName := "Indiana" |};
    {| States.stateCode := "IA"; States.stateName := "Iowa" |};
    {| States.stateCode := "KS"; States.stateName := "Kansas" |};
    {| States.stateCode := "KY"; States.stateName := "Kentucky" |};
    {| States.stateCode := "LA"; States.stateName := "Louisiana" |};
    {| States.stateCode := "ME"; States.stateName := "Maine" |};
    {| States.stateCode := "MD"; States.stateName := "Maryland" |};
    {| States.stateCode := "MA"; States.stateName := "Massachusetts" |};
    {| States.stateCode := "MI"; States.stateName := "Michigan" |};
    {| States.stateCode := "MN"; States.stateName := "Minnesota" |};
    {| States.stateCode := "MS"; States.stateName := "Mississippi" |};
    {| States.stateCode := "MO"; States.stateName := "Missouri" |};
    {| States.stateCode := "MT"; States.stateName := "Montana" |};
    {| States.stateCode := "NE"; States.stateName := "Nebraska" |};
    {| States.stateCode := "NV"; States.stateName := "Nevada" |};
    {| States.stateCode := "NH"; States.stateName := "New Hampshire" |};
    {| States.stateCode := "NJ"; States.stateName := "New Jersey" |};
    {| States.stateCode := "NM"; States.stateName := "New Mexico" |};
    {| States.stateCode := "NY"; States.stateName := "New York" |};
    {| States.stateCode := "NC"; States.stateName := "North Carolina" |};
    {| States.stateCode := "ND"; States.stateName := "North Dakota" |};
    {| States.stateCode := "OH"; States.stateName := "Ohio" |};
    {| States.stateCode := "OK"; States.stateName := "Oklahoma" |};
    {| States.stateCode := "OR"; States.stateName := "Oregon" |};
    {| States.stateCode := "PA"; States.stateName := "Pennsylvania" |};
    {| States.stateCode := "RI"; States.stateName := "Rhode Island" |};
    {| States.stateCode := "SC"; States.stateName := "South Carolina" |};
    {| States.stateCode := "SD"; States.stateName := "South Dakota" |};
    {| States.stateCode := "TN"; States.stateName := "Tennessee" |};
    {| States.stateCode := "TX"; States.stateName := "Texas" |};
    {| States.stateCode := "UT"; States.stateName := "Utah" |};
    {| States.stateCode := "VT"; States.stateName := "Vermont" |};
    {| States.stateCode := "VA"; States.stateName := "Virginia" |};
    {| States.stateCode := "WA"; States.stateName := "Washington" |};
    {| States.stateCode := "WV"; States.stateName := "West Virginia" |};
    {| States.stateCode := "WI"; States.stateName := "Wisconsin" |};
    {| States.stateCode := "WY"; States.stateName := "Wyoming" |}
  ].

(** [prisma.states.upsert({ where: { stateCode }, update: {}, create: state })] *)
Definition states_upsert (state : States.t) : M unit :=
  roundTrip ;;;
  write (fun d =>
    setStates d
      (upsertRow (fun r => String.eqb (States.stateCode r) (States.stateCode state))
                 (fun r => r) state (states d))).

Definition seedStates : M unit := forEach usStates states_upsert.

Section Demo.

(** The demo data, and [new Date(s)] on its date strings ([None]: an
    invalid date); both come from outside the script. *)
Variable demoVols : list DemoVol.t.
Variable demoEvents : list DemoEvent.t.
Variable parseDate : string -> option Date.

(** [tx.userCredentials.upsert(...)]: nothing changes on a row that is
    there. *)
Definition userCredentials_upsert (v : DemoVol.t) : M unit :=
  roundTrip ;;;
  write (fun d =>
    setUserCredentials d
      (upsertRow (fun r => String.eqb (UserCredentials.userId r) (DemoVol.id v))
                 (fun r => r)
                 {| UserCredentials.userId := DemoVol.id v;
                    UserCredentials.password := "demo" |}
                 (userCredentials d))).

(** The profile columns the script sets, on update as on create. *)
Definition profileOf (v : DemoVol.t) (userId : string) (createdAt : Date) : UserProfile.t :=
  {| UserProfile.userId := userId;
     UserProfile.fullName := DemoVol.name v;
     UserProfile.address1 := DemoVol.location v;
     UserProfile.city := DemoVol.location v;
     UserProfile.state := "TX";
     UserProfile.zipCode := "00000";
     UserProfile.skills := DemoVol.skills v;
     UserProfile.preferences := JNull;
     UserProfile.availability := JArr [];
     UserProfile.createdAt := createdAt |}.

(** [tx.userProfile.upsert(...)] *)
Definition userProfile_upsert (v : DemoVol.t) : M unit :=
  roundTrip ;;;
  t <- clock ;;
  write (fun d =>
    setUserProfile d
      (upsertRow (fun r => String.eqb (UserProfile.userId r) (DemoVol.id v))
                 (fun r => profileOf v (UserProfile.userId r) (UserProfile.createdAt r))
                 (profileOf v (DemoVol.id v) t)
                 (userProfile d))).

(** The event columns the script sets, on update as on create. *)
Definition eventOf (e : DemoEvent.t) (id : string) (eventDate : Date) : EventDetails.t :=
  {| EventDetails.id := id;
     EventDetails.eventName := DemoEvent.name e;
     EventDetails.description := DemoEvent.name e;
     EventDetails.location := DemoEvent.location e;
     EventDetails.requiredSkills := DemoEvent.requiredSkills e;
     EventDetails.urgency := DemoEvent.urgency e;
     EventDetails.eventDate := eventDate |}.

(** [prisma.eventDetails.upsert(...)] *)
Definition eventDetails_upsert (e : DemoEvent.t) : M unit :=
  t <- dateArg (parseDate (DemoEvent.date e)) ;;
  roundTrip ;;;
  write (fun d =>
    setEventDetails d
      (upsertRow (fun r => String.eqb (EventDetails.id r) (DemoEvent.id e))
                 (fun r => eventOf e (EventDetails.id r) t)
                 (eventOf e (DemoEvent.id e) t)
                 (eventDetails d))).

Definition seedDemo : M unit :=
  forEach demoVols (fun v =>
    transaction (userCredentials_upsert v ;;; userProfile_upsert v)) ;;;
  forEach demoEvents eventDetails_upsert.

(** [main]: the exit code of the script.  The [finally] block only closes
    the connection, which leaves the world as it is. *)
Definition main : M Z :=
  tryCatch (seedStates ;;; seedDemo ;;; ret 0) (ret 1).

End Demo.

End Seed.

(* ===================================================================== *)
(** ** The event-management form                                          *)
(* ===================================================================== *)

Module EventManage.

(** The form state.  [urgency] is one of the four options in the page's
    types; it is a string when the page runs. *)
Record Form : Type := {
  name : string;
  description : string;
  location : string;
  requiredSkills : list string;
  urgency : string;
  eventDate : string
}.

Definition URGENCY_OPTIONS : list string := ["Low"; "Medium"; "High"; "Critical"].

Definition emptyForm : Form :=
  {| name := ""; description := ""; location := ""; requiredSkills := [];
     urgency := "Low"; eventDate := "" |}.

(** [!s] on a string *)
Definition isEmpty (s : string) : bool := String.eqb s "".

(** [validate]: the message of the first check that fails, [None] (the
    source's [null]) when none does. *)
Definition validate (form : Form) : option string :=
  if isEmpty (trim (name form)) then Some "Event Name is required."
  else if (100 <? lengthOf (trim (name form)))%nat
    then Some "Event Name must be ≤ 100 characters."
  else if isEmpty (trim (description form)) then Some "Event Description is required."
  else if isEmpty (trim (location form)) then Some "Location is required."
  else if (List.length (requiredSkills form) =? 0)%nat
    then Some "Select at least one Required Skill."
  else if isEmpty (urgency form) then Some "Urgency is required."
  else if isEmpty (eventDate form) then Some "Event Date is required."
  else None.

Inductive mode : Type := create | edit.

(** What [handleSave] does first: show an error, or send a request. *)
Inductive action : Type :=
  | SetError (message : string)
  | CreateEvent (payload : Form)
  | UpdateEvent (id : string) (payload : Form)
  | Nothing.

(** [{ ...form, name: form.name.trim(), ... }] *)
Definition trimmed (form : Form) : Form :=
  {| name := trim (name form);
     description := trim (description form);
     location := trim (location form);
     requiredSkills := requiredSkills form;
     urgency := urgency form;
     eventDate := eventDate form |}.

Definition handleSave (m : mode) (selectedId : option string) (form : Form) : action :=
  match validate form with
  | Some v => SetError v
  | None =>
      match m, selectedId with
      | create, _ => CreateEvent (trimmed form)
      | edit, Some id => if isEmpty id then Nothing else UpdateEvent id (trimmed form)
      | edit, None => Nothing
      end
  end.

End EventManage.

(* ===================================================================== *)
(** ** The event-management page: its helpers and its state              *)
(* ===================================================================== *)

(** An event as the events resource hands it over. *)
Module EventItem.
Record t : Type := {
  id : string;
  name : string;
  description : string;
  location : string;
  requiredSkills : list string;
  urgency : string;
  eventDate : string
}.
End EventItem.

Module EventsApi.

(** What the helpers read of a [Response]: [res.ok] and [await res.text()]. *)
Record Response : Type := { ok : bool; text : string }.

(** What a helper throws. *)
Inductive failure : Type :=
  | Error (message : string)   (* [new Error(message)] *)
  | SyntaxError                (* [JSON.parse] on a text that is no JSON *)
  | TypeError.                 (* [in] on a primitive, a property of [null],
                                  a [fetch] that fails *)

Inductive outcome (A : Type) : Type :=
  | Returned (a : A)
  | Threw (e : failure).
Arguments Returned {A} a.
Arguments Threw {A} e.

(** [k in v], for the two keys the helpers ask for ([error], [data]): an
    object has the key or not, an array has neither, and anything else
    makes [in] throw a TypeError ([None]). *)
Definition inOperator (k : string) (v : value) : option bool :=
  match v with
  | JObj fields => Some (match assoc k fields with Some _ => true | None => false end)
  | JArr _ => Some false
  | _ => None
  end.

Section Helpers.

(** [JSON.parse]; [None] when it throws. *)
Variable parse : string -> option value.

(** [readJson]: [text ? JSON.parse(text) : {}] *)
Definition readJson (res : Response) : outcome value :=
  if String.eqb (text res) "" then Returned (JObj [])
  else match parse (text res) with
       | Some v => Returned v
       | None => Threw SyntaxError
       end.

(** [handleResponse]; a returned [None] is [undefined]. *)
Definition handleResponse (res : Response) : outcome (option value) :=
  match readJson res with
  | Threw e => Threw e
  | Returned body =>
      if negb (ok res) then
        match inOperator "error" body with
        | None => Threw TypeError
        | Some present =>
            let message :=
              if present && truthy (getField body "error")
              then templateString (getField body "error")
              else "Request failed." in
            Threw (Error message)
        end
      else
        match inOperator "data" body with
        | None => Threw TypeError
        | Some true => Returned (getField body "data")
        | Some false => Returned None
        end
  end.

(** [fetchEvents], [createEvent] and [updateEvent] hand the response of
    their request to [handleResponse]; [None] is a [fetch] that fails. *)
Definition afterFetch (reply : option Response) : outcome (option value) :=
  match reply with
  | None => Threw TypeError
  | Some res => handleResponse res
  end.

(** [body.error ?? "Failed to delete event."] on what [readJson] gave. *)
Definition deleteMessage (body : value) : outcome string :=
  match body with
  | JNull => Threw TypeError
  | _ =>
      match getField body "error" with
      | None | Some JNull => Returned "Failed to delete event."
      | Some v => Returned (JS.toString v)
      end
  end.

(** [deleteEvent], from the response of its request on. *)
Definition deleteEvent (reply : option Response) : outcome unit :=
  match reply with
  | None => Threw TypeError
  | Some res =>
      if negb (ok res) then
        match readJson res with
        | Threw e => Threw e
        | Returned body =>
            match deleteMessage body with
            | Threw e => Threw e
            | Returned message => Threw (Error message)
            end
        end
      else Returned tt
  end.

End Helpers.

End EventsApi.

Module EventPage.

Definition ALL_SKILLS : list string :=
  ["Teamwork"; "Lifting"; "Organization"; "Customer Service"; "First Aid";
   "Event Coordination"; "Logistics"].

(** The state of the component. *)
Record State : Type := {
  events : list EventItem.t;
  selectedId : option string;
  form : EventManage.Form;
  mode : EventManage.mode;
  loading : bool;
  saving : bool;
  error : option string
}.

Definition initial : State :=
  {| events := []; selectedId := None; form := EventManage.emptyForm;
     mode := EventManage.create; loading := false; saving := false;
     error := None |}.

Definition setEvents (s : State) (l : list EventItem.t) : State :=
  {| events := l; selectedId := selectedId s; form := form s; mode := mode s;
     loading := loading s; saving := saving s; error := error s |}.

Definition setSelectedId (s : State) (i : option string) : State :=
  {| events := events s; selectedId := i; form := form s; mode := mode s;
     loading := loading s; saving := saving s; error := error s |}.

Definition setForm (s : State) (f : EventManage.Form) : State :=
  {| events := events s; selectedId := selectedId s; form := f; mode := mode s;
     loading := loading s; saving := saving s; error := error s |}.

Definition setMode (s : State) (m : EventManage.mode) : State :=
  {| events := events s; selectedId := selectedId s; form := form s; mode := m;
     loading := loading s; saving := saving s; error := error s |}.

Definition setLoading (s : State) (b : bool) : State :=
  {| events := events s; selectedId := selectedId s; form := form s; mode := mode s;
     loading := b; saving := saving s; error := error s |}.

Definition setSaving (s : State) (b : bool) : State :=
  {| events := events s; selectedId := selectedId s; form := form s; mode := mode s;
     loading := loading s; saving := b; error := error s |}.

Definition setError (s : State) (e : option string) : State :=
  {| events := events s; selectedId := selectedId s; form := form s; mode := mode s;
     loading := loading s; saving := saving s; error := e |}.

(** The effect run on mount, once [fetchEvents] has settled: [reply] is the
    list it resolved to, [None] when it rejected.  The list is taken to be
    what the page types it as, a list of events with all their fields;
    what the page does with any other value is not modelled. *)
Definition loadEvents (reply : option (list EventItem.t)) (s : State) : State :=
  let s1 := match reply with
            | Some l => setEvents s l
            | None => setError s (Some "Failed to load events.")
            end in
  setLoading s1 false.

(** [set(k, v)], one constructor per key of the form. *)
Inductive change : Type :=
  | Name (v : string)
  | Description (v : string)
  | Location (v : string)
  | RequiredSkills (v : list string)
  | Urgency (v : string)
  | EventDate (v : string).

Definition withField (f : EventManage.Form) (c : change) : EventManage.Form :=
  {| EventManage.name := match c with Name v => v | _ => EventManage.name f end;
     EventManage.description :=
       match c with Description v => v | _ => EventManage.description f end;
     EventManage.location :=
       match c with Location v => v | _ => EventManage.location f end;
     EventManage.requiredSkills :=
       match c with RequiredSkills v => v | _ => EventManage.requiredSkills f end;
     EventManage.urgency := match c with Urgency v => v | _ => EventManage.urgency f end;
     EventManage.eventDate :=
       match c with EventDate v => v | _ => EventManage.eventDate f end |}.

Definition set (c : change) (s : State) : State := setForm s (withField (form s) c).

Definition resetForm (s : State) : State :=
  setError (setMode (setSelectedId (setForm s EventManage.emptyForm) None)
                    EventManage.create)
           None.

(** [const { id, ...rest } = e] *)
Definition rest (e : EventItem.t) : EventManage.Form :=
  {| EventManage.name := EventItem.name e;
     EventManage.description := EventItem.description e;
     EventManage.location := EventItem.location e;
     EventManage.requiredSkills := EventItem.requiredSkills e;
     EventManage.urgency := EventItem.urgency e;
     EventManage.eventDate := EventItem.eventDate e |}.

Definition hydrateFormForEdit (e : EventItem.t) (s : State) : State :=
  setSelectedId (setMode (setForm s (rest e)) EventManage.edit) (Some (EventItem.id e)).

Definition handleSelectEvent (id : string) (s : State) : State :=
  match find (fun x => String.eqb (EventItem.id x) id) (events s) with
  | Some e => hydrateFormForEdit e s
  | None => s
  end.

(** [l.includes(s)] *)
Definition includes (s : string) (l : list string) : bool := existsb (String.eqb s) l.

(** The new selection of [toggleSkill]. *)
Definition toggled (s : string) (l : list string) : list string :=
  if includes s l then filter (fun x => negb (String.eqb x s)) l
  else (l ++ [s])%list.

Definition toggleSkill (s : string) (st : State) : State :=
  setForm st
    (withField (form st) (RequiredSkills (toggled s (EventManage.requiredSkills (form st))))).

(** [handleSave], from the click to the end of its [finally]: [reply] is
    the event the request resolved to, [None] when it failed.  As for the
    load, the event is taken to be what the page types it as, with all its
    fields (its [id] may be any string, the empty one too). *)
Definition handleSave (reply : option EventItem.t) (s : State) : State :=
  match EventManage.handleSave (mode s) (selectedId s) (form s) with
  | EventManage.SetError v => setError s (Some v)
  | EventManage.CreateEvent _ =>
      match reply with
      | Some created =>
          setSaving (hydrateFormForEdit created (setEvents s (created :: events s))) false
      | None => setSaving (setError s (Some "Failed to save event.")) false
      end
  | EventManage.UpdateEvent id _ =>
      match reply with
      | Some updated =>
          setSaving
            (hydrateFormForEdit updated
               (setEvents s
                  (map (fun e => if String.eqb (EventItem.id e) id then updated else e)
                       (events s))))
            false
      | None => setSaving (setError s (Some "Failed to save event.")) false
      end
  | EventManage.Nothing => setSaving s false
  end.

(** [handleDelete], likewise: [deleted] tells whether the request went
    through. *)
Definition handleDelete (deleted : bool) (s : State) : State :=
  match selectedId s with
  | None => s
  | Some id =>
      if String.eqb id "" then s
      else if deleted then
        setSaving
          (resetForm
             (setEvents s
                (filter (fun e => negb (String.eqb (EventItem.id e) id)) (events s))))
          false
      else setSaving (setError s (Some "Failed to delete event.")) false
  end.

End EventPage.

(* ===================================================================== *)
(** ** The vocabulary of the properties                                   *)
(* ===================================================================== *)

Import Matching.
Import EventManage.

(** *** Ranking *)

(** [a] is ranked no lower than [b]. *)
Definition scoreGe (a b : Ranked.t) : Prop :=
  ge (Ranked.score a) (Ranked.score b) = true.

(** The profile the store holds for a user id. *)
Definition storedVolunteer (w : World) (id : string) : option UserProfile.t :=
  find (fun p => String.eqb (UserProfile.userId p) id) (userProfile (db w)).

(** The event the store holds for an id. *)
Definition storedEvent (w : World) (id : string) : option EventDetails.t :=
  find (fun e => String.eqb (EventDetails.id e) id) (eventDetails (db w)).

(** The ranking before truncation. *)
Definition fullRanking (score : VolunteerDTO.t -> EventDTO.t -> number)
  (vDTO : VolunteerDTO.t) (events : list EventDetails.t) : list Ranked.t :=
  sort byScoreDesc (filter matches (map (scoreEvent score vDTO) events)).

(** What the answers show of a stored profile and of a stored event,
    field by field: [{id, name, location, skills[]}] and
    [{id, name, location, requiredSkills[], date, urgency}], the date being
    the first ten characters of the instant in ISO form. *)
Definition volunteerView (p : UserProfile.t) (d : VolunteerDTO.t) : Prop :=
  VolunteerDTO.id d = UserProfile.userId p
  /\ VolunteerDTO.name d = UserProfile.fullName p
  /\ VolunteerDTO.location d = UserProfile.city p
  /\ (forall items, UserProfile.skills p = JArr items -> VolunteerDTO.skills d = items)
  /\ ((forall items, UserProfile.skills p <> JArr items) -> VolunteerDTO.skills d = []).

Definition eventView (e : EventDetails.t) (d : EventDTO.t) : Prop :=
  EventDTO.id d = EventDetails.id e
  /\ EventDTO.name d = EventDetails.eventName e
  /\ EventDTO.location d = EventDetails.location e
  /\ (forall items, EventDetails.requiredSkills e = JArr items ->
                    EventDTO.requiredSkills d = items)
  /\ ((forall items, EventDetails.requiredSkills e <> JArr items) ->
      EventDTO.requiredSkills d = [])
  /\ EventDTO.date d = substring 0 10 (toISOString (EventDetails.eventDate e))
  /\ EventDTO.urgency d = EventDetails.urgency e.

(** [x] is the entry of the event [e] in a ranking for [vDTO]: the view
    of [e] with its score. *)
Definition entryOf (score : VolunteerDTO.t -> EventDTO.t -> number)
  (vDTO : VolunteerDTO.t) (e : EventDetails.t) (x : Ranked.t) : Prop :=
  eventView e (Ranked.event x)
  /\ Ranked.score x = score vDTO (Ranked.event x).

(** The event [e] scores above 0 for [vDTO], or does not. *)
Definition scoresAboveZero (score : VolunteerDTO.t -> EventDTO.t -> number)
  (vDTO : VolunteerDTO.t) (e : EventDetails.t) : Prop :=
  forall d, eventView e d -> gt (score vDTO d) (ofZ 0) = true.

Definition scoresNoMore (score : VolunteerDTO.t -> EventDTO.t -> number)
  (vDTO : VolunteerDTO.t) (e : EventDetails.t) : Prop :=
  forall d, eventView e d -> gt (score vDTO d) (ofZ 0) = false.

(** *** The frame of the matching router *)

(** From [w] to [w'] the stored rows are left as they are, and the
    assignment and notice tables only grow at the end. *)
Definition readsAndInserts (w w' : World) : Prop :=
  userProfile (db w') = userProfile (db w)
  /\ eventDetails (db w') = eventDetails (db w)
  /\ userCredentials (db w') = userCredentials (db w)
  /\ states (db w') = states (db w)
  /\ (exists rows, assignment (db w') = (assignment (db w) ++ rows)%list)
  /\ (exists rows, notice (db w') = (notice (db w) ++ rows)%list).

(** A computation that only reads and inserts, whatever it returns. *)
Definition framed {A : Type} (m : M A) : Prop :=
  forall w : World, readsAndInserts w (snd (m w)).

(** *** Assignment *)

(** The [volunteerId] and [eventId] the route reads from a request body. *)
Definition bodyVolunteerId (reqBody : option value) : option value :=
  getField (orEmptyObject reqBody) "volunteerId".

Definition bodyEventId (reqBody : option value) : option value :=
  getField (orEmptyObject reqBody) "eventId".

(** The rows and the notice event of a successful assignment. *)
Definition newAssignment (w : World) (vid eid : string) : Assignment.t :=
  {| Assignment.id := nextId w; Assignment.volunteerId := vid;
     Assignment.eventId := eid; Assignment.createdAtMs := nowMs w |}.

Definition newNotice (w : World) (vid : string) (e : EventDetails.t) : Notice.t :=
  {| Notice.id := S (nextId w); Notice.volunteerId := vid;
     Notice.title := "Assigned: " ++ EventDetails.eventName e;
     Notice.body := EventDetails.location e ++ " • "
                    ++ toISOString (EventDetails.eventDate e);
     Notice.type := "success"; Notice.createdAtMs := nowMs w |}.

Definition noticeEventOf (n : Notice.t) : NoticeEvent.t :=
  {| NoticeEvent.id := Notice.id n;
     NoticeEvent.volunteerId := Notice.volunteerId n;
     NoticeEvent.title := Notice.title n;
     NoticeEvent.body := Notice.body n;
     NoticeEvent.type := Notice.type n;
     NoticeEvent.createdAtMs := msNumber (Notice.createdAtMs n) |}.

(** The falsy values a body field can have: absent, [null], [false], [0]
    and the empty string. *)
Inductive falsy : option value -> Prop :=
  | falsy_absent : falsy None
  | falsy_null : falsy (Some JNull)
  | falsy_false : falsy (Some (JBool false))
  | falsy_zero (q : Q) : (q == 0)%Q -> falsy (Some (JNum q))
  | falsy_empty : falsy (Some (JStr "")).

(** *** Upserts over a keyed table *)

Section UpsertDefinitions.

(** Rows [R] with a string key, entries [D] to upsert; [upd d] is what an
    upsert of [d] does to a row that is there, [mk d] the row it creates. *)
Context {R D : Type}.
Variable key : R -> string.
Variable ident : D -> string.
Variable upd : D -> R -> R.

Definition upsert1 (mk : D -> R) (d : D) (t : list R) : list R :=
  upsertRow (fun r => String.eqb (key r) (ident d)) (upd d) (mk d) t.

(** One upsert per entry, in order. *)
Definition seedRows (mk : D -> R) (ds : list D) (t : list R) : list R :=
  fold_left (fun t d => upsert1 mk d t) ds t.

(** The last entry with a given key. *)
Fixpoint lastWith (k : string) (ds : list D) : option D :=
  match ds with
  | [] => None
  | d :: ds' =>
      match lastWith k ds' with
      | Some x => Some x
      | None => if String.eqb k (ident d) then Some d else None
      end
  end.

(** What the upsert of [d] does, row by row, when the key is there. *)
Definition step (d : D) (r : R) : R :=
  if String.eqb (key r) (ident d) then upd d r else r.

Definition steps (ds : list D) (r : R) : R := fold_left (fun r d => step d r) ds r.

End UpsertDefinitions.

(** *** The seed script *)

(** [m], started with a store that answers, returns [a] and leaves the
    database [g] of what it was; [a] and [g] may depend on the store's
    clock, which [m] leaves alone, as it leaves the store answering. *)
Definition runs {A : Type} (m : M A) (a : Date -> A) (g : Date -> Tables -> Tables) : Prop :=
  forall w : World,
    reliable (faults w) = true ->
    exists w' : World,
      m w = (Ok (a (now w)), w')
      /\ db w' = g (now w) (db w)
      /\ now w' = now w
      /\ reliable (faults w') = true.

(** The keys of the tables are unique, as the store keeps them. *)
Definition uniqueKeys (d : Tables) : Prop :=
  NoDup (map UserCredentials.userId (userCredentials d))
  /\ NoDup (map UserProfile.userId (userProfile d))
  /\ NoDup (map EventDetails.id (eventDetails d))
  /\ NoDup (map States.stateCode (states d)).

(** The seed script on the tables. *)
Section SeedOnTables.

Variable demoVols : list DemoVol.t.
Variable demoEvents : list DemoEvent.t.
Variable parseDate : string -> option Date.

Definition dateOf (e : DemoEvent.t) : Date :=
  match parseDate (DemoEvent.date e) with
  | Some t => t
  | None => 0
  end.

Definition seededStates (t : list States.t) : list States.t :=
  seedRows States.stateCode States.stateCode (fun _ r => r) (fun s => s) Seed.usStates t.

Definition seededCredentials (t : list UserCredentials.t) : list UserCredentials.t :=
  seedRows UserCredentials.userId DemoVol.id (fun _ r => r)
    (fun v => {| UserCredentials.userId := DemoVol.id v;
                 UserCredentials.password := "demo" |})
    demoVols t.

Definition seededProfiles (clock : Date) (t : list UserProfile.t) : list UserProfile.t :=
  seedRows UserProfile.userId DemoVol.id
    (fun v r => Seed.profileOf v (UserProfile.userId r) (UserProfile.createdAt r))
    (fun v => Seed.profileOf v (DemoVol.id v) clock)
    demoVols t.

Definition seededEvents (t : list EventDetails.t) : list EventDetails.t :=
  seedRows EventDetails.id DemoEvent.id
    (fun e r => Seed.eventOf e (EventDetails.id r) (dateOf e))
    (fun e => Seed.eventOf e (DemoEvent.id e) (dateOf e))
    demoEvents t.

Definition seeded (clock : Date) (d : Tables) : Tables :=
  {| userCredentials := seededCredentials (userCredentials d);
     userProfile := seededProfiles clock (userProfile d);
     eventDetails := seededEvents (eventDetails d);
     assignment := assignment d;
     notice := notice d;
     states := seededStates (states d) |}.

(** The two upserts of a demo volunteer, on the tables. *)
Definition volunteerUpserts (v : DemoVol.t) (t : Date) (d : Tables) : Tables :=
  setUserProfile
    (setUserCredentials d
       (upsert1 UserCredentials.userId DemoVol.id (fun _ r => r)
          (fun v => {| UserCredentials.userId := DemoVol.id v;
                       UserCredentials.password := "demo" |})
          v (userCredentials d)))
    (upsert1 UserProfile.userId DemoVol.id
       (fun v r => Seed.profileOf v (UserProfile.userId r) (UserProfile.createdAt r))
       (fun v => Seed.profileOf v (DemoVol.id v) t)
       v (userProfile d)).

(** The upsert of a demo event, on the tables. *)
Definition eventUpsert (e : DemoEvent.t) (d : Tables) : Tables :=
  setEventDetails d
    (upsert1 EventDetails.id DemoEvent.id
       (fun e r => Seed.eventOf e (EventDetails.id r) (dateOf e))
       (fun e => Seed.eventOf e (DemoEvent.id e) (dateOf e))
       e (eventDetails d)).

(** A date the store takes: a valid date of a year from 0000 to 9999. *)
Definition taken (d : option Date) : Prop :=
  exists t, d = Some t /\ 0 <= getUTCFullYear t <= 9999.

(** Every date of the demo events is one the store takes. *)
Definition datesParse : Prop :=
  Forall (fun e => taken (parseDate (DemoEvent.date e))) demoEvents.

End SeedOnTables.

(** *** Words about strings *)

(** A run of characters among [chars]. *)
Inductive runOf (chars : list (list ascii)) : list ascii -> Prop :=
  | run_nil : runOf chars []
  | run_cons (c l : list ascii) :
      In c chars -> runOf chars l -> runOf chars (c ++ l)%list.

Definition beginsWithOneOf (chars : list (list ascii)) (l : list ascii) : Prop :=
  exists c r, In c chars /\ l = (c ++ r)%list.

Definition endsWithOneOf (chars : list (list ascii)) (l : list ascii) : Prop :=
  exists c r, In c chars /\ l = (r ++ c)%list.

(** [s] is made of white space only. *)
Definition blank (s : string) : Prop := runOf whiteSpace (list_ascii_of_string s).

(** [t] is [s] without the white space at its two ends: white space only
    was taken off, and none is left at either end. *)
Definition strippedOf (s t : string) : Prop :=
  (exists pre post,
      list_ascii_of_string s = (pre ++ list_ascii_of_string t ++ post)%list
      /\ runOf whiteSpace pre /\ runOf whiteSpace post)
  /\ ~ beginsWithOneOf whiteSpace (list_ascii_of_string t)
  /\ ~ endsWithOneOf whiteSpace (list_ascii_of_string t).

(** Checks on a table of characters: no character is empty, none is the
    start of another, and no proper end of one starts like another. *)
Definition nonEmptyb (chars : list (list ascii)) : bool :=
  forallb (fun c => match c with [] => false | _ :: _ => true end) chars.

Definition prefixFreeb (chars : list (list ascii)) : bool :=
  forallb (fun c =>
    forallb (fun c' => match startsWith c c' with
                       | Some (_ :: _) => false
                       | _ => true
                       end) chars) chars.

Fixpoint tails {A : Type} (l : list A) : list (list A) :=
  match l with
  | [] => []
  | _ :: l' => l' :: tails l'
  end.

Definition headsDiffer (u c : list ascii) : bool :=
  match u, c with
  | x :: _, y :: _ => negb (Ascii.eqb x y)
  | _, _ => true
  end.

Definition sealedb (chars : list (list ascii)) : bool :=
  forallb (fun c => forallb (fun u => forallb (headsDiffer u) chars) (tails c)) chars.

(** *** The event-management form *)

(** The constraints [validate] checks, in words of the form's fields: a
    name, a description and a location that are not white space only, a
    name of at most 100 UTF-16 code units once the white space at its ends
    is off, a skill, an urgency and a date that are not empty. *)
Definition acceptable (form : Form) : Prop :=
  ~ blank (name form)
  /\ (forall t, strippedOf (name form) t -> (lengthOf t <= 100)%nat)
  /\ ~ blank (description form)
  /\ ~ blank (location form)
  /\ requiredSkills form <> []
  /\ urgency form <> ""
  /\ eventDate form <> "".

(** [payload] is [form] with the white space at the two ends of the
    name, the description and the location taken off, and nothing else
    changed. *)
Definition submitted (form payload : Form) : Prop :=
  strippedOf (name form) (name payload)
  /\ strippedOf (description form) (description payload)
  /\ strippedOf (location form) (location payload)
  /\ requiredSkills payload = requiredSkills form
  /\ urgency payload = urgency form
  /\ eventDate payload = eventDate form.

(** *** Sample data *)

Module Sample.

Definition volunteer : UserProfile.t :=
  {| UserProfile.userId := "v1"; UserProfile.fullName := "Ada Young";
     UserProfile.address1 := "1 Main St"; UserProfile.city := "Houston";
     UserProfile.state := "TX"; UserProfile.zipCode := "77001";
     UserProfile.skills := JArr [JStr "Teamwork"; JStr "Lifting"];
     UserProfile.preferences := JNull; UserProfile.availability := JArr [];
     UserProfile.createdAt := 1700000000000 |}.

Definition event (id name : string) (date : Date) : EventDetails.t :=
  {| EventDetails.id := id; EventDetails.eventName := name;
     EventDetails.description := name; EventDetails.location := "Houston";
     EventDetails.requiredSkills := JArr [JStr "Teamwork"];
     EventDetails.urgency := "High"; EventDetails.eventDate := date |}.

Definition events : list EventDetails.t :=
  [ event "e1" "Food drive" 1709251200000;
    event "e2" "Shelter shift" 1709337600000;
    event "e3" "Park cleanup" 1709424000000 ].

Definition tables (es : list EventDetails.t) : Tables :=
  {| userCredentials := [ {| UserCredentials.userId := "v1";
                             UserCredentials.password := "demo" |} ];
     userProfile := [volunteer];
     eventDetails := es;
     assignment := [];
     notice := [];
     states := [] |}.

Definition worldWith (es : list EventDetails.t) (f : list bool) : World :=
  {| db := tables es; emitted := []; faults := f; now := 1709000000000;
     nowMs := Some 1709000000000; nextId := 1%nat |}.

Definition world : World := worldWith events [].

(** Scores 5, 9 and 1 for the three events, 0 for any other. *)
Definition score (_ : VolunteerDTO.t) (e : EventDTO.t) : number :=
  if String.eqb (EventDTO.id e) "e1" then ofZ 5
  else if String.eqb (EventDTO.id e) "e2" then ofZ 9
  else if String.eqb (EventDTO.id e) "e3" then ofZ 1
  else ofZ 0.

(** Demo data: the first volunteer is listed twice. *)
Definition demoVols : list DemoVol.t :=
  [ {| DemoVol.id := "v1"; DemoVol.name := "Ada Young"; DemoVol.location := "Houston";
       DemoVol.skills := JArr [JStr "Teamwork"] |};
    {| DemoVol.id := "v2"; DemoVol.name := "Ben Ortiz"; DemoVol.location := "Austin";
       DemoVol.skills := JArr [JStr "First Aid"] |};
    {| DemoVol.id := "v1"; DemoVol.name := "Ada Y."; DemoVol.location := "Dallas";
       DemoVol.skills := JArr [JStr "Logistics"] |} ].

Definition demoEvents : list DemoEvent.t :=
  [ {| DemoEvent.id := "e1"; DemoEvent.name := "Food drive";
       DemoEvent.location := "Houston";
       DemoEvent.requiredSkills := JArr [JStr "Lifting"];
       DemoEvent.urgency := "High"; DemoEvent.date := "2024-03-01" |};
    {| DemoEvent.id := "e7"; DemoEvent.name := "Blood drive";
       DemoEvent.location := "Austin";
       DemoEvent.requiredSkills := JArr [JStr "First Aid"];
       DemoEvent.urgency := "Medium"; DemoEvent.date := "2024-03-02" |} ].

(** [new Date(s)] on the two dates of the demo events. *)
Definition parseDate (s : string) : option Date :=
  if String.eqb s "2024-03-01" then Some 1709251200000
  else if String.eqb s "2024-03-02" then Some 1709337600000
  else None.

(** [len] consecutive integers from [start]. *)
Fixpoint zseq (start : Z) (len : nat) : list Z :=
  match len with
  | O => []
  | S len' => start :: zseq (start + 1) len'
  end.

(** A store with 10000 events, [c1] to [c10000], and a score of 1 for
    every event. *)
Definition crowdId (i : Z) : string := "c" ++ decimal i.

Definition crowd : list EventDetails.t :=
  map (fun i => event (crowdId i) "Food drive" 1709251200000)
      (zseq 1 (Z.to_nat 10000)).

Definition crowded : World := worldWith crowd [].

(** The number in the id of an event of the crowd. *)
Definition numberOf (id : string) : Z :=
  match list_ascii_of_string id with
  | _ :: l => fst (fst (digits 10 l))
  | [] => 0
  end.

Definition score1 (_ : VolunteerDTO.t) (_ : EventDTO.t) : number := ofZ 1.

(** A form filled in but for its date. *)
Definition form (date : string) : Form :=
  {| name := "  Food drive "; description := "Sort and pack cans";
     location := "Houston"; requiredSkills := ["Lifting"]; urgency := "Low";
     eventDate := date |}.

(** The same form under another name. *)
Definition formNamed (n : string) : Form :=
  {| name := n; description := "Sort and pack cans";
     location := "Houston"; requiredSkills := ["Lifting"]; urgency := "Low";
     eventDate := "2024-03-01" |}.

(** A name between a no-break space (U+00A0) with a blank and an
    ideographic space (U+3000). *)
Definition spacedName : string :=
  string_of_list_ascii
    (bytes [194; 160; 32]%nat ++ list_ascii_of_string "Food drive"
       ++ bytes [227; 128; 128]%nat)%list.

(** A no-break space alone. *)
Definition noBreakSpace : string := string_of_list_ascii (bytes [194; 160])%nat.

(** [n] times the letter e with an acute accent (U+00E9: two bytes, one
    code unit). *)
Definition accented (n : nat) : string :=
  string_of_list_ascii (List.concat (repeat (bytes [195; 169]%nat) n)).

End Sample.

(* ===================================================================== *)
(** ** Further vocabulary                                                 *)
(* ===================================================================== *)

(** *** The calendar

    The proleptic Gregorian calendar, counted from 1 January 1970. *)

Definition leapYear (y : Z) : bool :=
  (y mod 4 =? 0) && (negb (y mod 100 =? 0) || (y mod 400 =? 0)).

Definition daysInMonth (y m : Z) : Z :=
  if m =? 2 then (if leapYear y then 29 else 28)
  else if (m =? 4) || (m =? 6) || (m =? 9) || (m =? 11) then 30
  else 31.

(** Days from 1 January 1970 to 1 January of the year [y]: 365 a year and
    one more for each leap year in between (477 leap years lie between
    the year 1 and 1970). *)
Definition daysToYear (y : Z) : Z :=
  365 * (y - 1970) + ((y - 1) / 4 - (y - 1) / 100 + (y - 1) / 400 - 477).

(** Days from 1 January of [y] to the first of its month [m]. *)
Definition daysToMonth (y m : Z) : Z :=
  fold_right Z.add 0
    (map (fun k => daysInMonth y (Z.of_nat k)) (seq 1 (Z.to_nat (m - 1)))).

(** The day count of the date [y]-[m]-[d]. *)
Definition dayNumber (y m d : Z) : Z := daysToYear y + daysToMonth y m + (d - 1).

Definition calendarDate (y m d : Z) : Prop :=
  1 <= m <= 12 /\ 1 <= d <= daysInMonth y m.

(** [s] writes [z] in decimal on [width] digits. *)
Definition isDigit (c : ascii) : Prop := (48 <= nat_of_ascii c <= 57)%nat.

Definition decimalValue (l : list ascii) : Z :=
  fold_left (fun acc c => 10 * acc + (Z.of_nat (nat_of_ascii c) - 48)) l 0.

Definition numeral (width : nat) (z : Z) (s : string) : Prop :=
  String.length s = width
  /\ Forall isDigit (list_ascii_of_string s)
  /\ decimalValue (list_ascii_of_string s) = z.

(** The steps of [civilFromDays] on a day [doe] of an era (400 years from
    a first of March), by name: the scaled day whose quotient by 365 is
    the year of the era, the days before a year of the era, the days
    before a month of a year that starts in March. *)
Definition scaledDay (doe : Z) : Z := doe - doe / 1460 + doe / 36524 - doe / 146096.

Definition daysToEraYear (yoe : Z) : Z := 365 * yoe + yoe / 4 - yoe / 100.

(** The first day after the year [yoe] of the era; the era ends with its
    year 399. *)
Definition eraYearEnd (yoe : Z) : Z :=
  if yoe =? 399 then 146097 else daysToEraYear (yoe + 1).

Definition daysToMarchMonth (mp : Z) : Z := (153 * mp + 2) / 5.

(** [p] on the [n] integers from [z] on. *)
Fixpoint allFrom (z : Z) (n : nat) (p : Z -> bool) : bool :=
  match n with
  | O => true
  | S k => p z && allFrom (z + 1) k p
  end.

(** The checks of the steps against the calendar: on the first and the
    last day of a year of the era, on a day of the year, on a month of a
    year of the era. *)
Definition eraYearAgrees (k : Z) : bool :=
  (365 * k <=? scaledDay (daysToEraYear k))
  && (scaledDay (eraYearEnd k - 1) <? 365 * (k + 1)).

Definition yearDayAgrees (doy : Z) : bool :=
  let mp := (5 * doy + 2) / 153 in
  (0 <=? mp) && (mp <=? 11) && (daysToMarchMonth mp <=? doy)
  && ((mp =? 11) || (doy <? daysToMarchMonth (mp + 1))).

Definition eraMonthAgrees (yoe mp : Z) : bool :=
  let m := if mp <? 10 then mp + 3 else mp - 9 in
  let y := yoe + (if m <=? 2 then 1 else 0) in
  (1 <=? m) && (m <=? 12)
  && (daysToYear y + daysToMonth y m
      =? daysToEraYear yoe + daysToMarchMonth mp - 719468)
  && (daysInMonth y m
      =? (if mp =? 11
          then eraYearEnd yoe - daysToEraYear yoe - daysToMarchMonth 11
          else daysToMarchMonth (mp + 1) - daysToMarchMonth mp)).

(** *** The lists of the router *)

(** [a] was created no earlier than [b]. *)
Definition newerOrSame (a b : UserProfile.t) : Prop :=
  UserProfile.createdAt b <= UserProfile.createdAt a.

(** [a] takes place no later than [b]. *)
Definition soonerOrSame (a b : EventDetails.t) : Prop :=
  EventDetails.eventDate a <= EventDetails.eventDate b.

(** [y] has the score of [c]: neither is above the other. *)
Definition tied (c y : Ranked.t) : bool :=
  negb (gt (Ranked.score y) (Ranked.score c))
  && negb (gt (Ranked.score c) (Ranked.score y)).

(** *** Assignment *)

(** The world after an assignment that went through. *)
Definition assigned (w : World) (vid eid : string) (e : EventDetails.t) : World :=
  {| db := setNotice (setAssignment (db w)
                        (assignment (db w) ++ [newAssignment w vid eid])%list)
             (notice (db w) ++ [newNotice w vid e])%list;
     emitted := (emitted w
                 ++ [(("notice:" ++ vid)%string, noticeEventOf (newNotice w vid e))])%list;
     faults := tl (tl (tl (tl (faults w))));
     now := now w;
     nowMs := nowMs w;
     nextId := S (S (nextId w)) |}.

(** *** The seed script *)

(** [m] takes the database from [d] to some [d'] with [Rel d d'], whatever
    the store does. *)
Definition keeps {A : Type} (Rel : Tables -> Tables -> Prop) (m : M A) : Prop :=
  forall w : World, Rel (db w) (db (snd (m w))).

(** [l'] is [l] with rows added at the end. *)
Definition extends {A : Type} (l l' : list A) : Prop := exists rows, l' = (l ++ rows)%list.

(** What a run of the seed script may do to the database: add credential
    and state rows at the end, add profiles and events at the end and
    rewrite the others in place, under the key they have. *)
Definition seedExtends (d d' : Tables) : Prop :=
  extends (userCredentials d) (userCredentials d')
  /\ extends (states d) (states d')
  /\ extends (map UserProfile.userId (userProfile d)) (map UserProfile.userId (userProfile d'))
  /\ extends (map EventDetails.id (eventDetails d)) (map EventDetails.id (eventDetails d'))
  /\ assignment d' = assignment d
  /\ notice d' = notice d.

(** The user ids with credentials are those with a profile. *)
Definition paired (d : Tables) : Prop :=
  forall id : string,
    In id (map UserCredentials.userId (userCredentials d))
    <-> In id (map UserProfile.userId (userProfile d)).

(** *** The page *)

(** An event has an id when its id is not the empty string, which
    [handleSave] and [handleDelete] take for no selection. *)
Definition identified (e : EventItem.t) : Prop := EventItem.id e <> "".

(** The page lists events that have an id, and is in edit mode exactly
    when one is selected. *)
Definition coherent (s : EventPage.State) : Prop :=
  Forall identified (EventPage.events s)
  /\ ((EventPage.mode s = EventManage.create /\ EventPage.selectedId s = None)
      \/ (EventPage.mode s = EventManage.edit
          /\ exists id, EventPage.selectedId s = Some id /\ id <> "")).

(** *** More sample data *)

Module SamplePage.

Definition item (id name : string) : EventItem.t :=
  {| EventItem.id := id; EventItem.name := name;
     EventItem.description := "Sort and pack cans"; EventItem.location := "Houston";
     EventItem.requiredSkills := ["Lifting"]; EventItem.urgency := "Low";
     EventItem.eventDate := "2024-03-01" |}.

(** A page with two events, the first of them selected. *)
Definition editing : EventPage.State :=
  EventPage.hydrateFormForEdit (item "e1" "Food drive")
    (EventPage.setEvents EventPage.initial
       [item "e1" "Food drive"; item "e2" "Shelter shift"]).

(** [JSON.parse] on the few texts of the examples. *)
Definition parse (s : string) : option value :=
  if String.eqb s "{}" then Some (JObj [])
  else if String.eqb s "null" then Some JNull
  else if String.eqb s "5" then Some (JNum 5)
  else None.

End SamplePage.

(* ===================================================================== *)
(** ** Properties of the JavaScript fragment                              *)
(* ===================================================================== *)

Section NumberOrder.

Lemma ge_trans (a b c : number) :
  ge a b = true -> ge b c = true -> ge a c = true.
Proof.
  destruct a, b, c; simpl; try congruence.
  rewrite !Qle_bool_iff. intros H1 H2. now apply Qle_trans with q0.
Qed.

Lemma gt_ge (a b : number) : gt a b = true -> ge a b = true.
Proof.
  destruct a, b; simpl; try congruence.
  unfold Qltb. rewrite negb_true_iff, Qle_bool_iff.
  intros H. destruct (Qlt_le_dec q0 q) as [L | L].
  - now apply Qlt_le_weak.
  - apply Qle_bool_iff in L. congruence.
Qed.

(** A positive difference: the minuend is the larger one. *)
Lemma gt0_sub_gt (a b : number) : gt0 (sub a b) = gt a b.
Proof.
  destruct a, b; simpl; try reflexivity.
  unfold gt0, gt, ofZ, Qltb. f_equal.
  apply eq_true_iff_eq. rewrite !Qle_bool_iff.
  split; intros H.
  - apply Qle_minus_iff in H. apply Qle_minus_iff.
    setoid_replace (q0 + - q)%Q with (inject_Z 0 + - (q - q0))%Q by ring. exact H.
  - apply Qle_minus_iff in H. apply Qle_minus_iff.
    setoid_replace (inject_Z 0 + - (q - q0))%Q with (q0 + - q)%Q by ring. exact H.
Qed.

(** Between two numbers above 0, either one is above the other or the
    other is at least as large: no NaN is left to break the order. *)
Lemma not_gt_ge (a b : number) :
  gt0 a = true -> gt0 b = true -> gt b a = false -> ge a b = true.
Proof.
  destruct a, b; simpl; try congruence.
  unfold Qltb. intros _ _. now rewrite negb_false_iff.
Qed.

End NumberOrder.

Section Sorting.

Context {A : Type}.
Variable cmp : A -> A -> number.

Lemma insert_perm (x : A) (l : list A) : Permutation (x :: l) (JS.insert cmp x l).
Proof.
  induction l as [| y l IH]; simpl.
  - apply Permutation_refl.
  - destruct (gt0 (cmp x y)).
    + eapply perm_trans; [apply perm_swap |]. now apply perm_skip.
    + apply Permutation_refl.
Qed.

Lemma sort_perm (l : list A) : Permutation l (JS.sort cmp l).
Proof.
  induction l as [| x l IH]; simpl.
  - constructor.
  - eapply perm_trans; [apply perm_skip, IH | apply insert_perm].
Qed.

Lemma sort_length (l : list A) : List.length (JS.sort cmp l) = List.length l.
Proof. symmetry. apply Permutation_length, sort_perm. Qed.

(** The order [R] the comparator stands for, on the elements that satisfy
    [ok] (those the comparator is consistent on). *)
Variable R : A -> A -> Prop.
Variable ok : A -> Prop.
Hypothesis R_trans : forall a b c, R a b -> R b c -> R a c.
Hypothesis cmp_before : forall x y, gt0 (cmp x y) = true -> R y x.
Hypothesis cmp_stay : forall x y, ok x -> ok y -> gt0 (cmp x y) = false -> R x y.

Lemma insert_sorted (x : A) (l : list A) :
  ok x -> Forall ok l -> StronglySorted R l -> StronglySorted R (JS.insert cmp x l).
Proof.
  intros Hx Hl Hs. induction Hs as [| y l Hs IH Hy]; simpl.
  - constructor; constructor.
  - inversion Hl as [| ? ? Hoky Hokl]; subst.
    destruct (gt0 (cmp x y)) eqn:E.
    + constructor; [now apply IH |].
      apply (Permutation_Forall (insert_perm x l)).
      constructor; [now apply cmp_before | exact Hy].
    + assert (Rxy : R x y) by now apply cmp_stay.
      constructor; [now constructor |].
      constructor; [exact Rxy |].
      eapply Forall_impl; [| exact Hy]. intros z Hz. now apply R_trans with y.
Qed.

Lemma sort_sorted (l : list A) : Forall ok l -> StronglySorted R (JS.sort cmp l).
Proof.
  induction l as [| x l IH]; simpl; intros H.
  - constructor.
  - inversion H; subst. apply insert_sorted; auto.
    now apply (Permutation_Forall (sort_perm l)).
Qed.

End Sorting.

Section Slice.

Context {A : Type}.

Lemma relativeIndex_range (len : Z) (n : number) :
  0 <= len -> 0 <= relativeIndex len n <= len.
Proof.
  intros H. unfold relativeIndex.
  destruct (toIntegerOrInfinity n) as [| z |]; try lia.
  destruct (Z.ltb_spec z 0); lia.
Qed.

Lemma truncate_inject (z : Z) : truncate (inject_Z z) = z.
Proof. unfold truncate, inject_Z. simpl. apply Z.quot_1_r. Qed.

(** [l.slice(0, n)] keeps a prefix. *)
Lemma slice0 (l : list A) (n : number) :
  slice l (ofZ 0) n
  = firstn (Z.to_nat (relativeIndex (Z.of_nat (List.length l)) n)) l.
Proof.
  unfold slice.
  assert (K : relativeIndex (Z.of_nat (List.length l)) (ofZ 0) = 0).
  { unfold relativeIndex, ofZ, toIntegerOrInfinity. rewrite truncate_inject.
    change (0 <? 0) with false. cbv iota. lia. }
  rewrite K. simpl skipn. f_equal.
  pose proof (relativeIndex_range (Z.of_nat (List.length l)) n). lia.
Qed.

(** With a count [n], [slice(0, n)] is the first [n] elements. *)
Lemma slice0_count (l : list A) (n : nat) :
  slice l (ofZ 0) (ofZ (Z.of_nat n)) = firstn n l.
Proof.
  rewrite slice0. unfold relativeIndex, ofZ, toIntegerOrInfinity.
  rewrite truncate_inject.
  destruct (Z.ltb_spec (Z.of_nat n) 0); [lia |].
  destruct (Nat.le_gt_cases n (List.length l)) as [L | L].
  - f_equal. lia.
  - rewrite (firstn_all2 (n := n)) by lia.
    apply firstn_all2. lia.
Qed.

Lemma slice0_NaN (l : list A) : slice l (ofZ 0) NaN = [].
Proof.
  rewrite slice0. unfold relativeIndex. simpl.
  replace (Z.to_nat (Z.min 0 (Z.of_nat (List.length l)))) with O by lia.
  reflexivity.
Qed.

End Slice.


(* ===================================================================== *)
(** ** Properties of the store                                            *)
(* ===================================================================== *)

Section Store.

Lemma roundTrip_ok (w : World) :
  reliable (faults w) = true -> roundTrip w = (Ok tt, tick w).
Proof.
  unfold roundTrip, tick, reliable.
  destruct (faults w) as [| [|] f]; simpl; intros H; try discriminate; reflexivity.
Qed.



Lemma reliable_tick (w : World) :
  reliable (faults w) = true -> reliable (faults (tick w)) = true.
Proof.
  unfold tick, reliable. simpl.
  destruct (faults w) as [| b f]; simpl; [trivial |].
  now intros [_ H]%andb_true_iff.
Qed.

Lemma db_tick (w : World) : db (tick w) = db w.
Proof. reflexivity. Qed.

(** A round trip, whatever its outcome, only uses up the head of the
    faults. *)
Lemma roundTrip_world (w : World) : snd (roundTrip w) = tick w.
Proof. unfold roundTrip, tick. now destruct (faults w) as [| [|] f]. Qed.

Lemma reliable_tl (f : list bool) : reliable f = true -> reliable (tl f) = true.
Proof.
  destruct f as [| b f]; simpl; [trivial |]. now intros [_ H]%andb_true_iff.
Qed.

End Store.

Ltac store_answers :=
  repeat match goal with
  | |- context [roundTrip ?w] =>
      rewrite (roundTrip_ok w) by (simpl; repeat apply reliable_tl; assumption)
  end.

(* ===================================================================== *)
(** ** Ranking                                                            *)
(* ===================================================================== *)


Section RankingProperties.

Variable score : VolunteerDTO.t -> EventDTO.t -> number.


Lemma fullRanking_perm vDTO events :
  Permutation (fullRanking score vDTO events)
              (filter matches (map (scoreEvent score vDTO) events)).
Proof. apply Permutation_sym, sort_perm. Qed.

Lemma fullRanking_sorted vDTO events :
  StronglySorted scoreGe (fullRanking score vDTO events).
Proof.
  unfold fullRanking.
  apply sort_sorted with (ok := fun x => matches x = true).
  - intros a b c. apply ge_trans.
  - intros x y H. unfold byScoreDesc in H. rewrite gt0_sub_gt in H.
    now apply gt_ge.
  - intros x y Hx Hy H. unfold byScoreDesc in H. rewrite gt0_sub_gt in H.
    now apply not_gt_ge.
  - apply Forall_forall. intros x Hx. now apply filter_In in Hx.
Qed.

Lemma substring_prefix (n : nat) : forall s : string,
  substring 0 n s = string_of_list_ascii (firstn n (list_ascii_of_string s)).
Proof.
  induction n as [| n IH]; intros [| c s]; simpl; try reflexivity.
  now rewrite IH.
Qed.

Lemma sliceString_prefix (n : nat) (s : string) :
  sliceString s (ofZ 0) (ofZ (Z.of_nat n)) = substring 0 n s.
Proof. unfold sliceString. now rewrite slice0_count, substring_prefix. Qed.

Lemma toVolunteerDTO_view (p : UserProfile.t) : volunteerView p (toVolunteerDTO p).
Proof.
  unfold volunteerView, toVolunteerDTO. simpl. repeat split.
  - now intros items ->.
  - intros H. destruct (UserProfile.skills p); try reflexivity. now destruct (H items).
Qed.

Lemma toEventDTO_view (e : EventDetails.t) : eventView e (toEventDTO e).
Proof.
  unfold eventView, toEventDTO. simpl. repeat split.
  - now intros items ->.
  - intros H. destruct (EventDetails.requiredSkills e); try reflexivity.
    now destruct (H items).
  - apply (sliceString_prefix 10).
Qed.

(** The view fixes every field. *)
Lemma eventView_unique (e : EventDetails.t) (d : EventDTO.t) :
  eventView e d -> d = toEventDTO e.
Proof.
  intros (H1 & H2 & H3 & H4 & H5 & H6 & H7).
  destruct (toEventDTO_view e) as (_ & _ & _ & _ & _ & K6 & _).
  destruct d as [i n l r da u]. unfold toEventDTO. simpl in *.
  rewrite H1, H2, H3, H6, H7, K6.
  f_equal.
  destruct (EventDetails.requiredSkills e) eqn:E; simpl;
    try (apply H5; intros items; discriminate).
  now apply H4.
Qed.

Lemma insert_map {A B : Type} (f : A -> B) (cmp : B -> B -> number) (x : A) (l : list A) :
  map f (JS.insert (fun a b => cmp (f a) (f b)) x l) = JS.insert cmp (f x) (map f l).
Proof.
  induction l as [| y l IH]; simpl; [reflexivity |].
  destruct (gt0 (cmp (f x) (f y))); simpl; [now rewrite IH | reflexivity].
Qed.

Lemma sort_map {A B : Type} (f : A -> B) (cmp : B -> B -> number) (l : list A) :
  map f (JS.sort (fun a b => cmp (f a) (f b)) l) = JS.sort cmp (map f l).
Proof.
  induction l as [| x l IH]; simpl; [reflexivity |].
  now rewrite insert_map, IH.
Qed.

Lemma filter_map_swap {A B : Type} (f : A -> B) (p : B -> bool) (l : list A) :
  filter p (map f l) = map f (filter (fun x => p (f x)) l).
Proof.
  induction l as [| x l IH]; simpl; [reflexivity |].
  destruct (p (f x)); simpl; now rewrite IH.
Qed.

Lemma filter_split {A : Type} (p : A -> bool) (l : list A) :
  Permutation (filter p l ++ filter (fun x => negb (p x)) l) l.
Proof.
  induction l as [| x l IH]; simpl; [constructor |].
  destruct (p x); simpl.
  - now constructor.
  - apply Permutation_sym. eapply perm_trans; [| apply Permutation_middle].
    constructor. now apply Permutation_sym.
Qed.

(** The ranking before truncation, event by event: the stored events split
    into those that score above 0 and the others, and the ranking lists
    the former, each with its view and its score. *)
Lemma fullRanking_content vDTO events :
  exists matching others : list EventDetails.t,
    Permutation (matching ++ others) events
    /\ Forall (scoresAboveZero score vDTO) matching
    /\ Forall (scoresNoMore score vDTO) others
    /\ Forall2 (entryOf score vDTO) matching (fullRanking score vDTO events).
Proof.
  set (above := fun e => matches (scoreEvent score vDTO e)).
  exists (JS.sort (fun a b => byScoreDesc (scoreEvent score vDTO a) (scoreEvent score vDTO b))
            (filter above events)),
         (filter (fun e => negb (above e)) events).
  split; [| split; [| split]].
  - eapply perm_trans; [| apply (filter_split above)].
    apply Permutation_app_tail, Permutation_sym, sort_perm.
  - apply (Permutation_Forall (sort_perm _ _)).
    apply Forall_forall. intros e He. apply filter_In in He. destruct He as [_ He].
    intros d Hd. rewrite (eventView_unique e d Hd). exact He.
  - apply Forall_forall. intros e He. apply filter_In in He. destruct He as [_ He].
    intros d Hd. rewrite (eventView_unique e d Hd).
    apply negb_true_iff in He. exact He.
  - unfold fullRanking. rewrite filter_map_swap, <- sort_map. fold above.
    generalize (JS.sort (fun a b => byScoreDesc (scoreEvent score vDTO a)
                                                 (scoreEvent score vDTO b))
                        (filter above events)).
    intros l. induction l as [| e l IH]; simpl; constructor; [| exact IH].
    split; [apply toEventDTO_view | reflexivity].
Qed.

Lemma rank_slice vDTO events topN :
  rank score vDTO events topN = slice (fullRanking score vDTO events) (ofZ 0) topN.
Proof. reflexivity. Qed.

(** The route when the store answers: the volunteer is looked up, the
    events are read, and the ranking is sent. *)
Lemma rankForVolunteer_run (w : World) (id : string) (q : option query) (v : UserProfile.t) :
  reliable (faults w) = true ->
  storedVolunteer w id = Some v ->
  rankForVolunteer score id q w
  = (Ok {| status := 200;
           body := Ranking (rank score (toVolunteerDTO v) (eventDetails (db w)) (topNOf q)) |},
     tick (tick w)).
Proof.
  intros Hf Hv.
  unfold rankForVolunteer, tryCatch, userProfile_findUnique, bind, stringArg, ret.
  rewrite (roundTrip_ok w Hf).
  unfold read. change (db (tick w)) with (db w).
  unfold storedVolunteer in Hv. rewrite Hv.
  unfold eventDetails_findMany, bind.
  rewrite (roundTrip_ok (tick w) (reliable_tick w Hf)).
  reflexivity.
Qed.


End RankingProperties.

Section RankingClaims.

Variable score : VolunteerDTO.t -> EventDTO.t -> number.

(** C1, as the code has it.  For a stored volunteer and any stored
    events, when the store answers and [topN] is a count [n] (a
    non-negative integer), the route answers 200 with the first [n]
    entries of a list [ranked] of [{event, score}] pairs: the stored
    events split into those that score above 0 against the volunteer and
    the others, and [ranked] lists the former and only them (each as often
    as it is stored), each as its view with its score, in descending order
    of score; so the answer has at most [n] entries. *)
Theorem rankForVolunteer_ranks (w : World) (id : string) (q : option query)
  (v : UserProfile.t) (n : nat) :
  reliable (faults w) = true ->
  storedVolunteer w id = Some v ->
  topNOf q = ofZ (Z.of_nat n) ->
  exists (vDTO : VolunteerDTO.t) (matching others : list EventDetails.t)
         (ranked : list Ranked.t) (w' : World),
    rankForVolunteer score id q w
    = (Ok {| status := 200; body := Ranking (firstn n ranked) |}, w')
    /\ volunteerView v vDTO
    /\ Permutation (matching ++ others) (eventDetails (db w))
    /\ Forall (scoresAboveZero score vDTO) matching
    /\ Forall (scoresNoMore score vDTO) others
    /\ Forall2 (entryOf score vDTO) matching ranked
    /\ StronglySorted scoreGe ranked
    /\ (List.length (firstn n ranked) <= n)%nat.
Proof.
  intros Hf Hv Hn.
  destruct (fullRanking_content score (toVolunteerDTO v) (eventDetails (db w)))
    as (matching & others & HP & HA & HO & HE).
  exists (toVolunteerDTO v), matching, others,
         (fullRanking score (toVolunteerDTO v) (eventDetails (db w))), (tick (tick w)).
  split.
  { rewrite (rankForVolunteer_run score w id q v Hf Hv).
    rewrite rank_slice, Hn, slice0_count. reflexivity. }
  split; [apply toVolunteerDTO_view |].
  split; [exact HP |]. split; [exact HA |]. split; [exact HO |]. split; [exact HE |].
  split; [apply fullRanking_sorted | apply firstn_le_length].
Qed.

(** C4, as the code has it.  When [topN] is omitted it is 9999: the route
    answers with the first 9999 entries of the descending list of the
    events whose score is above 0, which is the whole list whenever at most
    9999 events match. *)
Theorem rankForVolunteer_default_topN (w : World) (id : string) (v : UserProfile.t) :
  reliable (faults w) = true ->
  storedVolunteer w id = Some v ->
  exists (ranked : list Ranked.t) (w' : World),
    rankForVolunteer score id None w
    = (Ok {| status := 200; body := Ranking (firstn (Z.to_nat 9999) ranked) |}, w')
    /\ Permutation ranked
         (filter matches
                 (map (scoreEvent score (toVolunteerDTO v)) (eventDetails (db w))))
    /\ StronglySorted scoreGe ranked
    /\ ((List.length ranked <= Z.to_nat 9999)%nat -> firstn (Z.to_nat 9999) ranked = ranked).
Proof.
  intros Hf Hv.
  exists (fullRanking score (toVolunteerDTO v) (eventDetails (db w))), (tick (tick w)).
  split; [| split; [| split]].
  - rewrite (rankForVolunteer_run score w id None v Hf Hv).
    rewrite rank_slice. change (topNOf None) with (ofZ 9999).
    rewrite <- (Z2Nat.id 9999) at 1 by lia.
    rewrite slice0_count. reflexivity.
  - apply fullRanking_perm.
  - apply fullRanking_sorted.
  - intros H. now apply firstn_all2.
Qed.

(** C9.  For a stored volunteer, when the store answers, a [topN] that is
    present and that [Number] turns into NaN gives the answer 200 with an
    empty list. *)
Theorem rankForVolunteer_topN_not_numeric (w : World) (id : string) (q : query)
  (v : UserProfile.t) :
  reliable (faults w) = true ->
  storedVolunteer w id = Some v ->
  Number q = NaN ->
  exists w' : World,
    rankForVolunteer score id (Some q) w
    = (Ok {| status := 200; body := Ranking [] |}, w').
Proof.
  intros Hf Hv Hq. exists (tick (tick w)).
  rewrite (rankForVolunteer_run score w id (Some q) v Hf Hv).
  rewrite rank_slice. simpl topNOf. rewrite Hq, slice0_NaN. reflexivity.
Qed.


End RankingClaims.

Lemma rankForVolunteer_ranks_witness :
  exists (vDTO : VolunteerDTO.t) (matching others : list EventDetails.t)
         (ranked : list Ranked.t) (w' : World),
    rankForVolunteer Sample.score "v1" (Some (QString "2")) Sample.world
    = (Ok {| status := 200; body := Ranking (firstn 2 ranked) |}, w')
    /\ volunteerView Sample.volunteer vDTO
    /\ Permutation (matching ++ others) (eventDetails (db Sample.world))
    /\ Forall (scoresAboveZero Sample.score vDTO) matching
    /\ Forall (scoresNoMore Sample.score vDTO) others
    /\ Forall2 (entryOf Sample.score vDTO) matching ranked
    /\ StronglySorted scoreGe ranked
    /\ (List.length (firstn 2 ranked) <= 2)%nat.
Proof.
  apply (rankForVolunteer_ranks Sample.score Sample.world "v1"
           (Some (QString "2")) Sample.volunteer 2); reflexivity.
Defined.

(** The example of C1: events scoring 5, 9 and 1, and [topN=2]; the answer
    lists the events scoring 9 and 5, in that order, each as its view. *)
Example rankForVolunteer_top2_of_5_9_1 :
  map (fun e => Sample.score (toVolunteerDTO Sample.volunteer) (toEventDTO e))
      Sample.events
  = [ofZ 5; ofZ 9; ofZ 1]
  /\ fst (rankForVolunteer Sample.score "v1" (Some (QString "2")) Sample.world)
     = Ok {| status := 200;
             body := Ranking
               [ {| Ranked.event :=
                      {| EventDTO.id := "e2"; EventDTO.name := "Shelter shift";
                         EventDTO.location := "Houston";
                         EventDTO.requiredSkills := [JStr "Teamwork"];
                         EventDTO.date := "2024-03-02"; EventDTO.urgency := "High" |};
                    Ranked.score := ofZ 9 |};
                 {| Ranked.event :=
                      {| EventDTO.id := "e1"; EventDTO.name := "Food drive";
                         EventDTO.location := "Houston";
                         EventDTO.requiredSkills := [JStr "Teamwork"];
                         EventDTO.date := "2024-03-01"; EventDTO.urgency := "High" |};
                    Ranked.score := ofZ 5 |} ] |}.
Proof. vm_compute. split; reflexivity. Qed.

(** C1 fails as stated for a negative [topN], which is no bound: with
    [topN=-1] the answer is the ranking without its last entry, two
    entries here. *)
Lemma rankForVolunteer_minus_one_is_no_bound :
  topNOf (Some (QString "-1")) = ofZ (-1)
  /\ exists (ranked : list Ranked.t) (w' : World),
       rankForVolunteer Sample.score "v1" (Some (QString "-1")) Sample.world
       = (Ok {| status := 200; body := Ranking ranked |}, w')
       /\ map Ranked.score ranked = [ofZ 9; ofZ 5]
       /\ ~ (Z.of_nat (List.length ranked) <= -1).
Proof.
  split; [reflexivity |].
  eexists; eexists. split; [vm_compute; reflexivity |].
  split; [reflexivity | simpl; lia].
Qed.

Lemma rankForVolunteer_default_topN_witness :
  exists (ranked : list Ranked.t) (w' : World),
    rankForVolunteer Sample.score "v1" None Sample.world
    = (Ok {| status := 200; body := Ranking (firstn (Z.to_nat 9999) ranked) |}, w')
    /\ Permutation ranked
         (filter matches
                 (map (scoreEvent Sample.score (toVolunteerDTO Sample.volunteer))
                      (eventDetails (db Sample.world))))
    /\ StronglySorted scoreGe ranked
    /\ ((List.length ranked <= Z.to_nat 9999)%nat -> firstn (Z.to_nat 9999) ranked = ranked).
Proof.
  apply (rankForVolunteer_default_topN Sample.score Sample.world "v1" Sample.volunteer);
    reflexivity.
Defined.

Lemma zseq_length (len : nat) : forall start, List.length (Sample.zseq start len) = len.
Proof. induction len as [| len IH]; intros start; simpl; [| rewrite IH]; reflexivity. Qed.

Lemma zseq_from (len : nat) : forall start x, In x (Sample.zseq start len) -> start <= x.
Proof.
  induction len as [| len IH]; intros start x; simpl; [contradiction |].
  intros [<- | H]; [lia |]. apply IH in H. lia.
Qed.

Lemma zseq_NoDup (len : nat) : forall start, NoDup (Sample.zseq start len).
Proof.
  induction len as [| len IH]; intros start; simpl; constructor; [| apply IH].
  intros H. apply zseq_from in H. lia.
Qed.

Lemma filter_all {A : Type} (p : A -> bool) (l : list A) :
  (forall x, In x l -> p x = true) -> filter p l = l.
Proof.
  induction l as [| x l IH]; simpl; intros H; [reflexivity |].
  rewrite (H x) by now left. f_equal. apply IH. intros y Hy. apply H. now right.
Qed.

(** C4 fails as stated: with 10000 stored events, of distinct ids, that
    all score above 0 and no [topN], the answer holds 9999 entries. *)
Lemma rankForVolunteer_default_truncates :
  NoDup (map EventDetails.id (eventDetails (db Sample.crowded)))
  /\ List.length
       (filter matches
               (map (scoreEvent Sample.score1 (toVolunteerDTO Sample.volunteer))
                    (eventDetails (db Sample.crowded))))
     = Z.to_nat 10000
  /\ exists (ranked : list Ranked.t) (w' : World),
       rankForVolunteer Sample.score1 "v1" None Sample.crowded
       = (Ok {| status := 200; body := Ranking ranked |}, w')
       /\ List.length ranked = Z.to_nat 9999.
Proof.
  change (eventDetails (db Sample.crowded)) with Sample.crowd.
  assert (L : List.length
         (filter matches
                 (map (scoreEvent Sample.score1 (toVolunteerDTO Sample.volunteer))
                      Sample.crowd))
       = Z.to_nat 10000).
  { rewrite filter_all.
    - unfold Sample.crowd. now rewrite !length_map, zseq_length.
    - intros x Hx. apply in_map_iff in Hx. destruct Hx as (e & <- & _). reflexivity. }
  split; [| split; [exact L |]].
  - unfold Sample.crowd. rewrite map_map.
    apply NoDup_map_NoDup_ForallPairs; [| apply zseq_NoDup].
    assert (G : forallb (fun i => Z.eqb (Sample.numberOf (Sample.crowdId i)) i)
                        (Sample.zseq 1 (Z.to_nat 10000)) = true)
      by (vm_compute; reflexivity).
    rewrite forallb_forall in G.
    intros i j Hi Hj E. simpl in E. change (Sample.crowdId i = Sample.crowdId j) in E.
    apply G in Hi, Hj. apply Z.eqb_eq in Hi, Hj. congruence.
  - eexists; eexists. split.
    + apply (rankForVolunteer_run Sample.score1 Sample.crowded "v1" None Sample.volunteer);
        reflexivity.
    + change (eventDetails (db Sample.crowded)) with Sample.crowd.
      rewrite rank_slice. change (topNOf None) with (ofZ 9999).
      rewrite <- (Z2Nat.id 9999) at 1 by lia.
      rewrite slice0_count, length_firstn.
      unfold fullRanking. rewrite sort_length, L. vm_compute. reflexivity.
Qed.

Lemma rankForVolunteer_topN_not_numeric_witness :
  exists w' : World,
    rankForVolunteer Sample.score "v1" (Some (QString "abc")) Sample.world
    = (Ok {| status := 200; body := Ranking [] |}, w').
Proof.
  apply (rankForVolunteer_topN_not_numeric Sample.score Sample.world "v1"
           (QString "abc") Sample.volunteer); reflexivity.
Defined.


(* ===================================================================== *)
(** ** The frame of the matching router                                   *)
(* ===================================================================== *)

Create HintDb frame.

Section Frame.

Lemma readsAndInserts_refl (w : World) : readsAndInserts w w.
Proof.
  repeat split; try reflexivity; exists []; now rewrite app_nil_r.
Qed.

Lemma readsAndInserts_trans (w1 w2 w3 : World) :
  readsAndInserts w1 w2 -> readsAndInserts w2 w3 -> readsAndInserts w1 w3.
Proof.
  intros (P1 & E1 & C1 & S1 & [a1 A1] & [n1 N1]) (P2 & E2 & C2 & S2 & [a2 A2] & [n2 N2]).
  repeat split; try congruence.
  - exists (a1 ++ a2)%list. now rewrite A2, A1, app_assoc.
  - exists (n1 ++ n2)%list. now rewrite N2, N1, app_assoc.
Qed.

Lemma readsAndInserts_same_db (w w' : World) : db w' = db w -> readsAndInserts w w'.
Proof.
  intros E. unfold readsAndInserts. rewrite E.
  repeat split; exists []; now rewrite app_nil_r.
Qed.

Context {A B : Type}.

Lemma framed_ret (a : A) : framed (ret a).
Proof. intros w. apply readsAndInserts_refl. Qed.

Lemma framed_throw (e : exn) : framed (@throw A e).
Proof. intros w. apply readsAndInserts_refl. Qed.

Lemma framed_bind (m : M A) (k : A -> M B) :
  framed m -> (forall a, framed (k a)) -> framed (bind m k).
Proof.
  intros Hm Hk w. unfold bind. specialize (Hm w).
  destruct (m w) as [[a | e] w1]; simpl in *; [| exact Hm].
  eapply readsAndInserts_trans; [exact Hm | apply Hk].
Qed.

Lemma framed_tryCatch (m h : M A) : framed m -> framed h -> framed (tryCatch m h).
Proof.
  intros Hm Hh w. unfold tryCatch. specialize (Hm w).
  destruct (m w) as [[a | e] w1]; simpl in *; [exact Hm |].
  eapply readsAndInserts_trans; [exact Hm | apply Hh].
Qed.

Lemma framed_promiseAll (m1 : M A) (m2 : M B) :
  framed m1 -> framed m2 -> framed (promiseAll m1 m2).
Proof.
  intros H1 H2 w. unfold promiseAll. specialize (H1 w).
  destruct (m1 w) as [r1 w1]. specialize (H2 w1).
  destruct (m2 w1) as [r2 w2]. simpl in *.
  assert (T : readsAndInserts w w2) by (eapply readsAndInserts_trans; eassumption).
  destruct r1, r2; exact T.
Qed.

Lemma framed_read (f : Tables -> A) : framed (read f).
Proof. intros w. apply readsAndInserts_refl. Qed.

End Frame.

Section FrameOfTheStoreCalls.

Lemma framed_roundTrip : framed roundTrip.
Proof.
  intros w. rewrite roundTrip_world. now apply readsAndInserts_same_db.
Qed.

Lemma framed_freshId : framed freshId.
Proof. intros w. now apply readsAndInserts_same_db. Qed.

Lemma framed_clockMs : framed clockMs.
Proof. intros w. apply readsAndInserts_refl. Qed.

Lemma framed_stringArg (v : option value) : framed (stringArg v).
Proof.
  destruct v as [[| | | s | |] |]; simpl;
    first [apply framed_ret | apply framed_throw].
Qed.

Lemma framed_emit (c : string) (p : NoticeEvent.t) : framed (emit c p).
Proof. intros w. now apply readsAndInserts_same_db. Qed.

Lemma framed_insert_assignment (row : Assignment.t) :
  framed (write (fun d => setAssignment d (assignment d ++ [row])%list)).
Proof.
  intros w. unfold write, readsAndInserts. simpl.
  repeat split; try reflexivity; [now exists [row] | exists []; now rewrite app_nil_r].
Qed.

Lemma framed_insert_notice (row : Notice.t) :
  framed (write (fun d => setNotice d (notice d ++ [row])%list)).
Proof.
  intros w. unfold write, readsAndInserts. simpl.
  repeat split; try reflexivity; [exists []; now rewrite app_nil_r | now exists [row]].
Qed.

#[local] Hint Resolve framed_ret framed_throw framed_read framed_roundTrip
  framed_freshId framed_clockMs framed_stringArg framed_emit
  framed_insert_assignment framed_insert_notice : frame.

#[local] Hint Extern 2 (framed (bind _ _)) => apply framed_bind; [| intros ?] : frame.
#[local] Hint Extern 2 (framed (tryCatch _ _)) => apply framed_tryCatch : frame.
#[local] Hint Extern 2 (framed (promiseAll _ _)) => apply framed_promiseAll : frame.
#[local] Hint Extern 1 (framed (send _)) => apply framed_ret : frame.
#[local] Hint Extern 1 (framed (sendStatus _ _)) => apply framed_ret : frame.

Lemma framed_userProfile_findUnique (k : option value) :
  framed (userProfile_findUnique k).
Proof. unfold userProfile_findUnique. auto 10 with frame. Qed.

Lemma framed_eventDetails_findUnique (k : option value) :
  framed (eventDetails_findUnique k).
Proof. unfold eventDetails_findUnique. auto 10 with frame. Qed.

Lemma framed_eventDetails_findMany : framed eventDetails_findMany.
Proof. unfold eventDetails_findMany. auto 10 with frame. Qed.

Lemma framed_assignment_create (v e : option value) : framed (assignment_create v e).
Proof. unfold assignment_create. auto 20 with frame. Qed.

Lemma framed_notice_create (v : option value) (t b k : string) :
  framed (notice_create v t b k).
Proof. unfold notice_create. auto 20 with frame. Qed.

#[local] Hint Resolve framed_userProfile_findUnique framed_eventDetails_findUnique
  framed_eventDetails_findMany framed_assignment_create framed_notice_create : frame.

Lemma framed_listVolunteers : framed listVolunteers.
Proof.
  unfold listVolunteers, userProfile_findMany_newestFirst. auto 10 with frame.
Qed.

Lemma framed_listEvents : framed listEvents.
Proof.
  unfold listEvents, eventDetails_findMany_soonestFirst. auto 10 with frame.
Qed.

Lemma framed_rankForVolunteer score (id : string) (q : option query) :
  framed (rankForVolunteer score id q).
Proof.
  unfold rankForVolunteer.
  apply framed_tryCatch; [| auto with frame].
  apply framed_bind; [auto with frame |].
  intros [v |]; auto 10 with frame.
Qed.

Lemma framed_assign (reqBody : option value) : framed (assign reqBody).
Proof.
  unfold assign.
  destruct (negb _ || negb _)%bool; [auto with frame |].
  apply framed_tryCatch; [| auto with frame].
  apply framed_bind; [auto with frame |].
  intros [[v |] [e |]]; auto 20 with frame.
Qed.

Lemma framed_health : framed health.
Proof. unfold health. auto with frame. Qed.

End FrameOfTheStoreCalls.

(** C6.  Whatever the request and whatever the store does, no route of the
    matching router changes a stored volunteer profile or event (nor the
    credentials or the state list): a route only reads, and adds rows at
    the end of the assignment and notice tables. *)
Theorem matching_reads_and_inserts
  (score : VolunteerDTO.t -> EventDTO.t -> number)
  (id : string) (topN : option query) (reqBody : option value) (w : World) :
  readsAndInserts w (snd (listVolunteers w))
  /\ readsAndInserts w (snd (listEvents w))
  /\ readsAndInserts w (snd (rankForVolunteer score id topN w))
  /\ readsAndInserts w (snd (assign reqBody w))
  /\ readsAndInserts w (snd (health w)).
Proof.
  split; [apply framed_listVolunteers |].
  split; [apply framed_listEvents |].
  split; [apply framed_rankForVolunteer |].
  split; [apply framed_assign | apply framed_health].
Qed.

(* ===================================================================== *)
(** ** Assignment                                                         *)
(* ===================================================================== *)

Section AssignProperties.

Lemma truthy_string (s : string) : s <> "" -> truthy (Some (JStr s)) = true.
Proof. intros H. simpl. now apply negb_true_iff, String.eqb_neq. Qed.

(** The presence check of the route. *)
Lemma assign_refuses (w : World) (reqBody : option value) :
  truthy (bodyVolunteerId reqBody) = false \/ truthy (bodyEventId reqBody) = false ->
  assign reqBody w
  = (Ok {| status := 400; body := Error "volunteerId and eventId required" |}, w).
Proof.
  unfold bodyVolunteerId, bodyEventId, assign. intros [H | H]; rewrite H; simpl.
  - reflexivity.
  - now rewrite orb_true_r.
Qed.

(** The route past the presence check, with two string ids and a store
    that answers, when one of the two rows is not there. *)
Lemma assign_not_found (w : World) (reqBody : option value) (vid eid : string) :
  bodyVolunteerId reqBody = Some (JStr vid) ->
  bodyEventId reqBody = Some (JStr eid) ->
  vid <> "" -> eid <> "" ->
  reliable (faults w) = true ->
  storedVolunteer w vid = None \/ storedEvent w eid = None ->
  assign reqBody w
  = (Ok {| status := 404; body := Error "not found" |}, tick (tick w)).
Proof.
  unfold bodyVolunteerId, bodyEventId, storedVolunteer, storedEvent.
  intros Hv He Nv Ne Hf Habs.
  unfold assign. rewrite Hv, He, (truthy_string vid Nv), (truthy_string eid Ne).
  cbn [negb orb].
  unfold tryCatch, bind, promiseAll, userProfile_findUnique, eventDetails_findUnique,
    bind, stringArg, ret, read.
  store_answers. rewrite !db_tick.
  destruct Habs as [H | H]; rewrite H.
  - reflexivity.
  - now destruct (find _ (userProfile (db w))).
Qed.

(** The route when both rows are there and the store answers. *)
Lemma assign_run (w : World) (reqBody : option value) (vid eid : string)
  (v : UserProfile.t) (e : EventDetails.t) :
  bodyVolunteerId reqBody = Some (JStr vid) ->
  bodyEventId reqBody = Some (JStr eid) ->
  vid <> "" -> eid <> "" ->
  reliable (faults w) = true ->
  storedVolunteer w vid = Some v ->
  storedEvent w eid = Some e ->
  exists w' : World,
    assign reqBody w
    = (Ok {| status := 200;
             body := Assigned true
                       {| AssignmentDTO.id := nextId w;
                          AssignmentDTO.volunteerId := Some (JStr vid);
                          AssignmentDTO.eventId := Some (JStr eid);
                          AssignmentDTO.createdAtMs := msNumber (nowMs w) |} |},
       w')
    /\ db w' = setNotice (setAssignment (db w)
                            (assignment (db w) ++ [newAssignment w vid eid])%list)
                 (notice (db w) ++ [newNotice w vid e])%list
    /\ emitted w'
       = (emitted w ++ [(("notice:" ++ vid)%string, noticeEventOf (newNotice w vid e))])%list.
Proof.
  unfold bodyVolunteerId, bodyEventId, storedVolunteer, storedEvent.
  intros Hv He Nv Ne Hf Sv Se.
  unfold assign. rewrite Hv, He, (truthy_string vid Nv), (truthy_string eid Ne).
  cbn [negb orb].
  unfold tryCatch, bind, promiseAll, userProfile_findUnique, eventDetails_findUnique,
    bind, stringArg, ret, read.
  store_answers. rewrite !db_tick, Sv, Se.
  unfold assignment_create, notice_create, bind, stringArg, ret, freshId, clockMs,
    write, emit, send, ret.
  store_answers. simpl.
  eexists. split; [reflexivity |]. split; reflexivity.
Qed.

Lemma eventDetails_findUnique_emitted (k : option value) (w : World) :
  emitted (snd (eventDetails_findUnique k w)) = emitted w.
Proof.
  unfold eventDetails_findUnique, bind, stringArg, throw, ret, read.
  destruct k as [[| | | s | |] |]; try reflexivity.
  pose proof (roundTrip_world w) as T.
  destruct (roundTrip w) as [[[] | x] w1]; simpl in *; now subst.
Qed.

(** Nothing is published unless [volunteerId] is a string: the store has
    refused any other value before the route comes to publishing. *)
Lemma assign_publishes_for_string (w : World) (reqBody : option value) :
  emitted (snd (assign reqBody w)) <> emitted w ->
  exists s : string, bodyVolunteerId reqBody = Some (JStr s).
Proof.
  unfold bodyVolunteerId, assign.
  destruct (getField (orEmptyObject reqBody) "volunteerId") as [[| b | q | s | l | o] |];
    try (intros _; now exists s);
    (destruct (negb _ || negb _)%bool; [simpl; congruence |]);
    unfold tryCatch, bind, promiseAll, userProfile_findUnique, bind, stringArg, throw;
    pose proof (eventDetails_findUnique_emitted
                  (getField (orEmptyObject reqBody) "eventId") w) as E;
    destruct (eventDetails_findUnique _ w) as [r w1]; simpl in *; congruence.
Qed.

End AssignProperties.

Section AssignClaims.

Lemma falsy_truthy (v : option value) : falsy v <-> truthy v = false.
Proof.
  split.
  - intros [| | | q Hq |]; simpl; try reflexivity.
    apply negb_false_iff. now apply Qeq_bool_iff.
  - destruct v as [[| [|] | q | s | |] |]; simpl; intros H; try discriminate.
    + constructor.
    + constructor.
    + apply negb_false_iff in H. constructor. now apply Qeq_bool_iff.
    + apply negb_false_iff, String.eqb_eq in H. subst. constructor.
    + constructor.
Qed.

Lemma roundToDouble_numeric (q : Q) : roundToDouble q <> NaN.
Proof.
  assert (P : forall n d, roundPositive n d <> NaN).
  { intros n d. unfold roundPositive.
    repeat match goal with
           | |- context [if ?b then _ else _] => destruct b
           end; discriminate. }
  unfold roundToDouble. destruct (Qnum q) as [| n | n]; [discriminate | apply P |].
  specialize (P n (Qden q)). destruct (roundPositive n (Qden q)); simpl; congruence.
Qed.

Lemma msNumber_numeric (ms : option Z) : msNumber ms <> NaN.
Proof. apply roundToDouble_numeric. Qed.

(** C2.  An assignment request whose [volunteerId] and [eventId] are the
    (non-empty) ids of a stored volunteer and a stored event, with a store
    that answers, adds exactly one row [a] to the assignments and exactly
    one row [n] to the notices, publishes exactly one event, on the channel
    [notice:<volunteerId>], and answers
    [{ok: true, assignment: {id, volunteerId, eventId, createdAtMs}}] with a
    [createdAtMs] that is a number. *)
Theorem assign_creates_one_assignment_one_notice (w : World) (reqBody : option value)
  (vid eid : string) (v : UserProfile.t) (e : EventDetails.t) :
  bodyVolunteerId reqBody = Some (JStr vid) ->
  bodyEventId reqBody = Some (JStr eid) ->
  vid <> "" -> eid <> "" ->
  reliable (faults w) = true ->
  storedVolunteer w vid = Some v ->
  storedEvent w eid = Some e ->
  exists (a : Assignment.t) (n : Notice.t) (w' : World),
    assign reqBody w
    = (Ok {| status := 200;
             body := Assigned true
                       {| AssignmentDTO.id := Assignment.id a;
                          AssignmentDTO.volunteerId := Some (JStr vid);
                          AssignmentDTO.eventId := Some (JStr eid);
                          AssignmentDTO.createdAtMs := msNumber (Assignment.createdAtMs a) |} |},
       w')
    /\ msNumber (Assignment.createdAtMs a) <> NaN
    /\ assignment (db w') = (assignment (db w) ++ [a])%list
    /\ Assignment.volunteerId a = vid
    /\ Assignment.eventId a = eid
    /\ notice (db w') = (notice (db w) ++ [n])%list
    /\ Notice.volunteerId n = vid
    /\ Notice.type n = "success"
    /\ Notice.title n = "Assigned: " ++ EventDetails.eventName e
    /\ emitted w' = (emitted w ++ [(("notice:" ++ vid)%string, noticeEventOf n)])%list
    /\ userProfile (db w') = userProfile (db w)
    /\ eventDetails (db w') = eventDetails (db w).
Proof.
  intros Hv He Nv Ne Hf Sv Se.
  destruct (assign_run w reqBody vid eid v e Hv He Nv Ne Hf Sv Se) as (w' & R & D & E).
  exists (newAssignment w vid eid), (newNotice w vid e), w'.
  split; [exact R |].
  split; [apply msNumber_numeric |].
  rewrite D, E. simpl. repeat split; reflexivity.
Qed.

(** The store client refuses an id that is not a string: the route
    answers 500. *)
Lemma assign_refused_by_the_client (w : World) (reqBody : option value) :
  truthy (bodyVolunteerId reqBody) = true ->
  truthy (bodyEventId reqBody) = true ->
  (forall s, bodyVolunteerId reqBody <> Some (JStr s))
  \/ (forall s, bodyEventId reqBody <> Some (JStr s)) ->
  fst (assign reqBody w) = Ok {| status := 500; body := Error "assign_failed" |}.
Proof.
  unfold bodyVolunteerId, bodyEventId, assign. intros Tv Te H. rewrite Tv, Te.
  cbn [negb orb]. unfold tryCatch. unfold bind at 1. unfold promiseAll.
  destruct H as [H | H].
  - assert (E : userProfile_findUnique (getField (orEmptyObject reqBody) "volunteerId") w
                = (Thrown InvalidArgument, w)).
    { unfold userProfile_findUnique, bind, stringArg, throw.
      destruct (getField (orEmptyObject reqBody) "volunteerId") as [[| | | s | |] |];
        try reflexivity. now destruct (H s). }
    rewrite E. now destruct (eventDetails_findUnique _ w) as [r2 w2].
  - destruct (userProfile_findUnique _ w) as [r1 w1].
    assert (E : eventDetails_findUnique (getField (orEmptyObject reqBody) "eventId") w1
                = (Thrown InvalidArgument, w1)).
    { unfold eventDetails_findUnique, bind, stringArg, throw.
      destruct (getField (orEmptyObject reqBody) "eventId") as [[| | | s | |] |];
        try reflexivity. now destruct (H s). }
    rewrite E. now destruct r1.
Qed.

(** C3, as the code has it.  A request in which [volunteerId] or
    [eventId] is missing, or is there with a falsy value ([null], [false],
    [0], the empty string), is answered 400, whatever the other field is.
    A request that has both as non-empty strings is answered 404 when the
    store answers and has no profile for [volunteerId] or no event for
    [eventId]; nothing is written or published.  A request in which both
    are truthy and one is not a string is answered 500. *)
Theorem assign_missing_400_unknown_404 (w : World) (reqBody : option value) :
  (falsy (bodyVolunteerId reqBody) \/ falsy (bodyEventId reqBody) ->
   assign reqBody w
   = (Ok {| status := 400; body := Error "volunteerId and eventId required" |}, w))
  /\ (forall vid eid : string,
        bodyVolunteerId reqBody = Some (JStr vid) ->
        bodyEventId reqBody = Some (JStr eid) ->
        vid <> "" -> eid <> "" ->
        reliable (faults w) = true ->
        storedVolunteer w vid = None \/ storedEvent w eid = None ->
        exists w' : World,
          assign reqBody w = (Ok {| status := 404; body := Error "not found" |}, w')
          /\ db w' = db w /\ emitted w' = emitted w)
  /\ (truthy (bodyVolunteerId reqBody) = true ->
      truthy (bodyEventId reqBody) = true ->
      (forall s, bodyVolunteerId reqBody <> Some (JStr s))
      \/ (forall s, bodyEventId reqBody <> Some (JStr s)) ->
      fst (assign reqBody w) = Ok {| status := 500; body := Error "assign_failed" |}).
Proof.
  split; [| split].
  - intros H. apply assign_refuses.
    destruct H as [H | H]; apply falsy_truthy in H; auto.
  - intros vid eid Hv He Nv Ne Hf Habs. exists (tick (tick w)).
    split; [now apply (assign_not_found w reqBody vid eid) |].
    split; reflexivity.
  - apply assign_refused_by_the_client.
Qed.

(** C10.  A request in which [volunteerId] or [eventId] is falsy (absent,
    [null], [false], [0] or the empty string) is answered 400, and the
    world is left exactly as it was: no store call is made, nothing is
    written. *)
Theorem assign_falsy_field_400 (w : World) (reqBody : option value) :
  falsy (bodyVolunteerId reqBody) \/ falsy (bodyEventId reqBody) ->
  assign reqBody w
  = (Ok {| status := 400; body := Error "volunteerId and eventId required" |}, w).
Proof.
  intros H. apply assign_refuses.
  destruct H as [H | H]; apply falsy_truthy in H; auto.
Qed.

End AssignClaims.

Lemma assign_creates_one_assignment_one_notice_witness :
  let reqBody := Some (JObj [("volunteerId", JStr "v1"); ("eventId", JStr "e2")]) in
  let w := Sample.world in
  exists (a : Assignment.t) (n : Notice.t) (w' : World),
    assign reqBody w
    = (Ok {| status := 200;
             body := Assigned true
                       {| AssignmentDTO.id := Assignment.id a;
                          AssignmentDTO.volunteerId := Some (JStr "v1");
                          AssignmentDTO.eventId := Some (JStr "e2");
                          AssignmentDTO.createdAtMs := msNumber (Assignment.createdAtMs a) |} |},
       w')
    /\ msNumber (Assignment.createdAtMs a) <> NaN
    /\ assignment (db w') = (assignment (db w) ++ [a])%list
    /\ Assignment.volunteerId a = "v1"
    /\ Assignment.eventId a = "e2"
    /\ notice (db w') = (notice (db w) ++ [n])%list
    /\ Notice.volunteerId n = "v1"
    /\ Notice.type n = "success"
    /\ Notice.title n = "Assigned: " ++ EventDetails.eventName (Sample.event "e2" "Shelter shift" 1709337600000)
    /\ emitted w' = (emitted w ++ [("notice:v1", noticeEventOf n)])%list
    /\ userProfile (db w') = userProfile (db w)
    /\ eventDetails (db w') = eventDetails (db w).
Proof.
  apply (assign_creates_one_assignment_one_notice Sample.world
           (Some (JObj [("volunteerId", JStr "v1"); ("eventId", JStr "e2")]))
           "v1" "e2" Sample.volunteer (Sample.event "e2" "Shelter shift" 1709337600000));
    try reflexivity; discriminate.
Defined.

Lemma assign_missing_400_unknown_404_witness :
  assign (Some (JObj [("volunteerId", JStr "v1")])) Sample.world
  = (Ok {| status := 400; body := Error "volunteerId and eventId required" |}, Sample.world)
  /\ (exists w' : World,
        assign (Some (JObj [("volunteerId", JStr "v1"); ("eventId", JStr "e9")])) Sample.world
        = (Ok {| status := 404; body := Error "not found" |}, w')
        /\ db w' = db Sample.world /\ emitted w' = emitted Sample.world)
  /\ fst (assign (Some (JObj [("volunteerId", JStr "v1"); ("eventId", JNum 9)]))
                 Sample.world)
     = Ok {| status := 500; body := Error "assign_failed" |}.
Proof.
  split; [| split].
  - apply (proj1 (assign_missing_400_unknown_404 Sample.world
                    (Some (JObj [("volunteerId", JStr "v1")])))).
    right. apply falsy_absent.
  - apply (proj1 (proj2 (assign_missing_400_unknown_404 Sample.world
                    (Some (JObj [("volunteerId", JStr "v1"); ("eventId", JStr "e9")]))))
             "v1" "e9"); try reflexivity; try discriminate.
    right. reflexivity.
  - apply (proj2 (proj2 (assign_missing_400_unknown_404 Sample.world
                    (Some (JObj [("volunteerId", JStr "v1"); ("eventId", JNum 9)])))));
      try reflexivity.
    right. intros s. discriminate.
Defined.

(** C3 fails as stated: with both fields in the body and an event the
    store does not have, the answer is not always 404.  An empty
    [volunteerId] is answered 400, a [volunteerId] that is a number is
    answered 500. *)
Lemma assign_unknown_event_not_404 :
  let empty := Some (JObj [("volunteerId", JStr ""); ("eventId", JStr "e9")]) in
  let five := Some (JObj [("volunteerId", JNum 5); ("eventId", JStr "e9")]) in
  bodyVolunteerId empty = Some (JStr "")
  /\ bodyEventId empty = Some (JStr "e9")
  /\ bodyVolunteerId five = Some (JNum 5)
  /\ bodyEventId five = Some (JStr "e9")
  /\ storedEvent Sample.world "e9" = None
  /\ fst (assign empty Sample.world)
     = Ok {| status := 400; body := Error "volunteerId and eventId required" |}
  /\ fst (assign five Sample.world)
     = Ok {| status := 500; body := Error "assign_failed" |}.
Proof. vm_compute. repeat split. Qed.

Lemma assign_falsy_field_400_witness :
  assign (Some (JObj [("volunteerId", JStr ""); ("eventId", JStr "e1")])) Sample.world
  = (Ok {| status := 400; body := Error "volunteerId and eventId required" |}, Sample.world)
  /\ assign (Some (JObj [("volunteerId", JStr "v1"); ("eventId", JNum 0)]))
            (Sample.worldWith Sample.events [true])
     = (Ok {| status := 400; body := Error "volunteerId and eventId required" |},
        Sample.worldWith Sample.events [true]).
Proof.
  split.
  - apply (assign_falsy_field_400 Sample.world
             (Some (JObj [("volunteerId", JStr ""); ("eventId", JStr "e1")]))).
    left. apply falsy_empty.
  - apply (assign_falsy_field_400 (Sample.worldWith Sample.events [true])
             (Some (JObj [("volunteerId", JStr "v1"); ("eventId", JNum 0)]))).
    right. apply falsy_zero. reflexivity.
Defined.

(* ===================================================================== *)
(** ** Upserts over a keyed table                                         *)
(* ===================================================================== *)

Section Upserts.

(** Rows [R] with a string key, entries [D] to upsert; [upd d] is what an
    upsert of [d] does to a row that is there, [mk d] the row it creates. *)
Context {R D : Type}.
Variable key : R -> string.
Variable ident : D -> string.
Variable upd : D -> R -> R.


Hypothesis key_upd : forall d r, key (upd d r) = key r.
Hypothesis upd_upd : forall d d' r, upd d (upd d' r) = upd d r.

Lemma key_step d r : key (step key ident upd d r) = key r.
Proof. unfold step. destruct (String.eqb _ _); auto. Qed.

Lemma keys_map_step d t : map key (map (step key ident upd d) t) = map key t.
Proof. rewrite map_map. apply map_ext. intros r. apply key_step. Qed.

Lemma steps_last ds : forall r,
  steps key ident upd ds r = match lastWith ident (key r) ds with Some d => upd d r | None => r end.
Proof.
  induction ds as [| d ds IH]; intros r; simpl; [reflexivity |].
  unfold steps in *. simpl. rewrite IH, key_step.
  destruct (lastWith ident (key r) ds) as [d' |].
  - unfold step. destruct (String.eqb _ _); [apply upd_upd | reflexivity].
  - unfold step. now destruct (String.eqb _ _).
Qed.

Section WithCreate.

Variable mk : D -> R.
Hypothesis key_mk : forall d, key (mk d) = ident d.
Hypothesis upd_mk : forall d, upd d (mk d) = mk d.

Lemma upsert1_present d t :
  In (ident d) (map key t) -> NoDup (map key t) -> upsert1 key ident upd mk d t = map (step key ident upd d) t.
Proof.
  unfold upsert1. induction t as [| r t IH]; simpl; intros Hin Hnd; [contradiction |].
  inversion Hnd as [| ? ? Hr Ht]; subst.
  unfold step at 1. destruct (String.eqb (key r) (ident d)) eqn:E.
  - f_equal. apply String.eqb_eq in E.
    symmetry. rewrite <- (map_id t) at 2. apply map_ext_in.
    intros r' Hr'. unfold step.
    destruct (String.eqb (key r') (ident d)) eqn:E'; [| reflexivity].
    apply String.eqb_eq in E'. exfalso. apply Hr. rewrite E, <- E'.
    now apply in_map.
  - f_equal. apply IH; [| assumption].
    destruct Hin as [H | H]; [| assumption].
    apply String.eqb_neq in E. congruence.
Qed.

Lemma upsert1_keys d t :
  map key (upsert1 key ident upd mk d t)
  = if existsb (fun r => String.eqb (key r) (ident d)) t
    then map key t else (map key t ++ [ident d])%list.
Proof.
  unfold upsert1. induction t as [| r t IH]; simpl.
  - now rewrite key_mk.
  - destruct (String.eqb (key r) (ident d)) eqn:E; simpl.
    + now rewrite key_upd.
    + rewrite IH. now destruct (existsb _ t).
Qed.

Lemma existsb_key k t :
  existsb (fun r => String.eqb (key r) k) t = true <-> In k (map key t).
Proof.
  rewrite existsb_exists, in_map_iff. split.
  - intros (r & Hr & E). apply String.eqb_eq in E. eauto.
  - intros (r & E & Hr). exists r. split; [assumption |]. now apply String.eqb_eq.
Qed.

Lemma upsert1_NoDup d t : NoDup (map key t) -> NoDup (map key (upsert1 key ident upd mk d t)).
Proof.
  intros H. rewrite upsert1_keys.
  destruct (existsb _ t) eqn:E; [assumption |].
  apply NoDup_app; [assumption | repeat constructor; intros [] |].
  intros k Hk [<- | []].
  apply existsb_key in Hk. congruence.
Qed.

Lemma upsert1_keeps k d t : In k (map key t) -> In k (map key (upsert1 key ident upd mk d t)).
Proof.
  intros H. rewrite upsert1_keys. destruct (existsb _ t); [assumption |].
  apply in_or_app. now left.
Qed.

Lemma upsert1_has d t : In (ident d) (map key (upsert1 key ident upd mk d t)).
Proof.
  rewrite upsert1_keys. destruct (existsb _ t) eqn:E.
  - now apply existsb_key.
  - apply in_or_app. right. now left.
Qed.

(** The rows an upsert leaves alone. *)
Lemma upsert1_other d t r :
  In r (upsert1 key ident upd mk d t) -> key r <> ident d -> In r t.
Proof.
  unfold upsert1. induction t as [| r0 t IH]; simpl.
  - intros [<- | []] H. now rewrite key_mk in H.
  - destruct (String.eqb (key r0) (ident d)) eqn:E.
    + intros [<- | H] N; [| now right].
      apply String.eqb_eq in E. now rewrite key_upd in N.
    + intros [<- | H] N; [now left | right; now apply IH].
Qed.

(** The row an upsert has written. *)
Lemma upsert1_written d t r :
  NoDup (map key t) -> In r (upsert1 key ident upd mk d t) -> key r = ident d -> upd d r = r.
Proof.
  unfold upsert1. induction t as [| r0 t IH]; simpl; intros Hnd.
  - intros [<- | []] _. apply upd_mk.
  - inversion Hnd as [| ? ? Hr Ht]; subst.
    destruct (String.eqb (key r0) (ident d)) eqn:E.
    + apply String.eqb_eq in E.
      intros [<- | H] K; [apply upd_upd |].
      exfalso. apply Hr. rewrite E, <- K. now apply in_map.
    + intros [<- | H] K; [| now apply IH].
      apply String.eqb_neq in E. contradiction.
Qed.

Lemma seedRows_NoDup ds : forall t,
  NoDup (map key t) -> NoDup (map key (seedRows key ident upd mk ds t)).
Proof.
  induction ds as [| d ds IH]; intros t H; simpl; [assumption |].
  apply IH. now apply upsert1_NoDup.
Qed.

Lemma seedRows_keeps k ds : forall t,
  In k (map key t) -> In k (map key (seedRows key ident upd mk ds t)).
Proof.
  induction ds as [| d ds IH]; intros t H; simpl; [assumption |].
  apply IH. now apply upsert1_keeps.
Qed.

Lemma seedRows_has ds : forall t d,
  In d ds -> In (ident d) (map key (seedRows key ident upd mk ds t)).
Proof.
  induction ds as [| d0 ds IH]; intros t d Hin; [contradiction |].
  destruct Hin as [<- | H]; simpl.
  - apply seedRows_keeps, upsert1_has.
  - now apply IH.
Qed.

Lemma lastWith_none k d ds :
  lastWith ident k (d :: ds) = None -> lastWith ident k ds = None /\ k <> ident d.
Proof.
  simpl. destruct (lastWith ident k ds); [discriminate |].
  destruct (String.eqb k (ident d)) eqn:E; [discriminate |].
  intros _. split; [reflexivity | now apply String.eqb_neq].
Qed.

Lemma seedRows_untouched ds : forall t r,
  In r (seedRows key ident upd mk ds t) -> lastWith ident (key r) ds = None -> In r t.
Proof.
  induction ds as [| d ds IH]; intros t r Hin Hl; simpl in Hin; [assumption |].
  apply lastWith_none in Hl. destruct Hl as [Hl N].
  apply upsert1_other with (d := d); [now apply IH | assumption].
Qed.

(** After the upserts, a row whose key is among the entries carries what
    the last entry with its key sets. *)
Lemma seedRows_settled ds : forall t r d,
  NoDup (map key t) ->
  In r (seedRows key ident upd mk ds t) -> lastWith ident (key r) ds = Some d -> upd d r = r.
Proof.
  induction ds as [| d0 ds IH]; intros t r d Hnd Hin Hl; [discriminate |].
  simpl in Hin, Hl.
  destruct (lastWith ident (key r) ds) as [x |] eqn:L.
  - injection Hl as ->.
    apply (IH (upsert1 key ident upd mk d0 t)); [now apply upsert1_NoDup | assumption | assumption].
  - destruct (String.eqb (key r) (ident d0)) eqn:E; [| discriminate].
    injection Hl as <-. apply String.eqb_eq in E.
    apply (upsert1_written d0 t); [assumption | | assumption].
    now apply (seedRows_untouched ds).
Qed.

End WithCreate.

(** Upserts of entries whose keys are all there rewrite rows in place. *)
Lemma seedRows_present (mk : D -> R) ds : forall t,
  (forall d, In d ds -> In (ident d) (map key t)) ->
  NoDup (map key t) ->
  seedRows key ident upd mk ds t = map (steps key ident upd ds) t.
Proof.
  induction ds as [| d ds IH]; intros t Hin Hnd; simpl.
  - symmetry. apply map_id.
  - rewrite (upsert1_present mk d t); [| apply Hin; now left | assumption].
    rewrite IH.
    + rewrite map_map. reflexivity.
    + intros d' Hd'. rewrite keys_map_step. apply Hin. now right.
    + now rewrite keys_map_step.
Qed.

(** Seeding a table that has been seeded with the same entries changes
    nothing, whatever row a creation would make this time. *)
Lemma seedRows_twice (mk mk' : D -> R) ds t :
  (forall d, key (mk d) = ident d) ->
  (forall d, upd d (mk d) = mk d) ->
  NoDup (map key t) ->
  seedRows key ident upd mk' ds (seedRows key ident upd mk ds t) = seedRows key ident upd mk ds t.
Proof.
  intros Kmk Umk Hnd.
  rewrite seedRows_present.
  - rewrite <- (map_id (seedRows key ident upd mk ds t)) at 2. apply map_ext_in.
    intros r Hr. rewrite steps_last.
    destruct (lastWith ident (key r) ds) as [d |] eqn:L; [| reflexivity].
    now apply (seedRows_settled mk Kmk Umk ds t).
  - intros d Hd. now apply seedRows_has.
  - now apply seedRows_NoDup.
Qed.

(** With unique keys, a key that is there is there once. *)
Lemma one_row_per_key k t :
  NoDup (map key t) -> In k (map key t) ->
  List.length (filter (fun r => String.eqb (key r) k) t) = 1%nat.
Proof.
  induction t as [| r t IH]; simpl; intros Hnd Hin; [contradiction |].
  inversion Hnd as [| ? ? Hr Ht]; subst.
  destruct (String.eqb (key r) k) eqn:E.
  - apply String.eqb_eq in E. simpl. f_equal.
    apply length_zero_iff_nil.
    destruct (filter _ t) as [| r' l] eqn:F; [reflexivity |].
    exfalso. assert (H : In r' (filter (fun r => String.eqb (key r) k) t))
      by (rewrite F; now left).
    apply filter_In in H. destruct H as [H1 H2]. apply String.eqb_eq in H2.
    apply Hr. rewrite E, <- H2. now apply in_map.
  - apply IH; [assumption |]. destruct Hin as [H | H]; [| assumption].
    apply String.eqb_neq in E. contradiction.
Qed.

End Upserts.

(* ===================================================================== *)
(** ** The seed script                                                    *)
(* ===================================================================== *)

Section Runs.

Context {A B : Type}.

Lemma runs_ret (a : A) : runs (ret a) (fun _ => a) (fun _ d => d).
Proof. intros w H. exists w. auto. Qed.

Lemma runs_bind (m : M A) (k : A -> M B) a g b h :
  runs m a g -> (forall x, runs (k x) (b x) (h x)) ->
  runs (bind m k) (fun t => b (a t) t) (fun t d => h (a t) t (g t d)).
Proof.
  intros Hm Hk w Hw. destruct (Hm w Hw) as (w1 & E1 & D1 & N1 & F1).
  destruct (Hk (a (now w)) w1 F1) as (w2 & E2 & D2 & N2 & F2).
  exists w2. unfold bind. rewrite E1, E2, D2, D1, N1, N2. auto.
Qed.

Lemma runs_transaction (m : M A) a g : runs m a g -> runs (transaction m) a g.
Proof.
  intros Hm w Hw. destruct (Hm w Hw) as (w1 & E1 & D1 & N1 & F1).
  exists (tick w1). unfold transaction. rewrite E1, (roundTrip_ok w1 F1).
  repeat split; try assumption. now apply reliable_tick.
Qed.

Lemma runs_ext (m : M A) a g g' :
  (forall t d, g t d = g' t d) -> runs m a g -> runs m a g'.
Proof.
  intros E Hm w Hw. destruct (Hm w Hw) as (w1 & E1 & D1 & N1 & F1).
  exists w1. rewrite <- E. auto.
Qed.

End Runs.

Section RunsOfTheStoreCalls.

Lemma runs_roundTrip : runs roundTrip (fun _ => tt) (fun _ d => d).
Proof.
  intros w Hw. exists (tick w). rewrite (roundTrip_ok w Hw).
  repeat split. now apply reliable_tick.
Qed.

Lemma runs_write (f : Tables -> Tables) : runs (write f) (fun _ => tt) (fun _ d => f d).
Proof. intros w Hw. eexists. unfold write. repeat split. exact Hw. Qed.

Lemma runs_clock : runs clock (fun t => t) (fun _ d => d).
Proof. intros w Hw. exists w. unfold clock. auto. Qed.

Lemma runs_forEach {A : Type} (l : list A) (f : A -> M unit)
  (g : A -> Date -> Tables -> Tables) :
  (forall x, In x l -> runs (f x) (fun _ => tt) (g x)) ->
  runs (Seed.forEach l f) (fun _ => tt) (fun t d => fold_left (fun d x => g x t d) l d).
Proof.
  induction l as [| x l IH]; intros H; simpl.
  - apply runs_ret.
  - apply (runs_bind (f x) (fun _ => Seed.forEach l f) (fun _ => tt) (g x)
             (fun _ _ => tt) (fun _ t d => fold_left (fun d x => g x t d) l d)).
    + apply H. now left.
    + intros _. apply IH. intros y Hy. apply H. now right.
Qed.

End RunsOfTheStoreCalls.


Section SeedRuns.

Variable demoVols : list DemoVol.t.
Variable demoEvents : list DemoEvent.t.
Variable parseDate : string -> option Date.

Lemma states_upsert_runs (s : States.t) :
  runs (Seed.states_upsert s) (fun _ => tt)
    (fun _ d => setStates d
       (upsert1 States.stateCode States.stateCode (fun _ r => r) (fun s => s) s (states d))).
Proof.
  intros w Hw. unfold Seed.states_upsert, bind, write.
  rewrite (roundTrip_ok w Hw). eexists. split; [reflexivity |].
  repeat split. now apply reliable_tick.
Qed.

Lemma fold_states (l : list States.t) : forall d : Tables,
  fold_left (fun d s => setStates d
       (upsert1 States.stateCode States.stateCode (fun _ r => r) (fun s => s) s (states d)))
    l d
  = setStates d
      (seedRows States.stateCode States.stateCode (fun _ r => r) (fun s => s) l (states d)).
Proof.
  induction l as [| s l IH]; intros d; simpl.
  - now destruct d.
  - rewrite IH. reflexivity.
Qed.

Lemma seedStates_runs :
  runs Seed.seedStates (fun _ => tt) (fun _ d => setStates d (seededStates (states d))).
Proof.
  unfold Seed.seedStates.
  eapply runs_ext; [| apply runs_forEach; intros s _; apply states_upsert_runs].
  intros t d. apply fold_states.
Qed.


Lemma volunteer_transaction_runs (v : DemoVol.t) :
  runs (transaction (bind (Seed.userCredentials_upsert v)
                          (fun _ => Seed.userProfile_upsert v)))
       (fun _ => tt) (volunteerUpserts v).
Proof.
  intros w Hw.
  unfold transaction, Seed.userCredentials_upsert, Seed.userProfile_upsert,
    bind, write, clock.
  store_answers. eexists. split; [reflexivity |].
  repeat split. simpl. now repeat apply reliable_tl.
Qed.

Lemma fold_volunteers (t : Date) (l : list DemoVol.t) : forall d : Tables,
  fold_left (fun d v => volunteerUpserts v t d) l d
  = setUserProfile
      (setUserCredentials d
         (seedRows UserCredentials.userId DemoVol.id (fun _ r => r)
            (fun v => {| UserCredentials.userId := DemoVol.id v;
                         UserCredentials.password := "demo" |})
            l (userCredentials d)))
      (seedRows UserProfile.userId DemoVol.id
         (fun v r => Seed.profileOf v (UserProfile.userId r) (UserProfile.createdAt r))
         (fun v => Seed.profileOf v (DemoVol.id v) t)
         l (userProfile d)).
Proof.
  induction l as [| v l IH]; intros d; simpl.
  - now destruct d.
  - rewrite IH. reflexivity.
Qed.


Lemma dateArg_taken (d : option Date) (t : Date) (w : World) :
  d = Some t -> 0 <= getUTCFullYear t <= 9999 -> dateArg d w = (Ok t, w).
Proof.
  intros -> [H1 H2]. unfold dateArg.
  destruct (Z.leb_spec 0 (getUTCFullYear t)); [| lia].
  destruct (Z.leb_spec (getUTCFullYear t) 9999); [reflexivity | lia].
Qed.

Lemma dateArg_refuses (d : option Date) (w : World) :
  ~ taken d -> dateArg d w = (Thrown InvalidArgument, w).
Proof.
  intros H. unfold dateArg. destruct d as [t |]; [| reflexivity].
  destruct (Z.leb_spec 0 (getUTCFullYear t)); [| reflexivity].
  destruct (Z.leb_spec (getUTCFullYear t) 9999); [| reflexivity].
  exfalso. apply H. exists t. split; [reflexivity | lia].
Qed.

Lemma eventDetails_upsert_runs (e : DemoEvent.t) :
  taken (parseDate (DemoEvent.date e)) ->
  runs (Seed.eventDetails_upsert parseDate e) (fun _ => tt) (fun _ d => eventUpsert parseDate e d).
Proof.
  intros (t & Hp & Hy) w Hw. unfold Seed.eventDetails_upsert, eventUpsert, upsert1, dateOf.
  unfold bind at 1. rewrite (dateArg_taken _ t w Hp Hy), Hp.
  unfold bind, write. rewrite (roundTrip_ok w Hw).
  eexists. split; [reflexivity |]. repeat split. now apply reliable_tick.
Qed.

Lemma fold_events (l : list DemoEvent.t) : forall d : Tables,
  fold_left (fun d e => eventUpsert parseDate e d) l d
  = setEventDetails d
      (seedRows EventDetails.id DemoEvent.id
         (fun e r => Seed.eventOf e (EventDetails.id r) (dateOf parseDate e))
         (fun e => Seed.eventOf e (DemoEvent.id e) (dateOf parseDate e))
         l (eventDetails d)).
Proof.
  induction l as [| e l IH]; intros d; simpl.
  - now destruct d.
  - rewrite IH. reflexivity.
Qed.


(** The script, with a store that answers and dates it takes, exits with 0
    and leaves the database seeded. *)
Lemma main_runs :
  datesParse demoEvents parseDate ->
  runs (Seed.main demoVols demoEvents parseDate) (fun _ => 0)
       (seeded demoVols demoEvents parseDate).
Proof.
  intros Hp w Hw. unfold Seed.main, Seed.seedDemo, tryCatch.
  destruct (seedStates_runs w Hw) as (w1 & E1 & D1 & N1 & F1).
  destruct (runs_forEach demoVols
              (fun v => transaction (bind (Seed.userCredentials_upsert v)
                                          (fun _ => Seed.userProfile_upsert v)))
              volunteerUpserts
              (fun v _ => volunteer_transaction_runs v) w1 F1) as (w2 & E2 & D2 & N2 & F2).
  destruct (runs_forEach demoEvents (Seed.eventDetails_upsert parseDate)
              (fun e _ d => eventUpsert parseDate e d)
              (fun e He => eventDetails_upsert_runs e
                             (proj1 (Forall_forall _ _) Hp e He)) w2 F2)
    as (w3 & E3 & D3 & N3 & F3).
  exists w3. unfold bind at 1. rewrite E1.
  unfold bind at 1. unfold bind at 1. rewrite E2. rewrite E3.
  split; [reflexivity |].
  split; [| split; [congruence | assumption]].
  rewrite D3, fold_events, D2, fold_volunteers, D1, N1. reflexivity.
Qed.

End SeedRuns.

Lemma sample_dates_taken : datesParse Sample.demoEvents Sample.parseDate.
Proof.
  unfold datesParse, Sample.demoEvents.
  repeat (apply Forall_cons || apply Forall_nil);
    eexists; (split; [reflexivity | vm_compute; split; discriminate]).
Qed.

Section SeedClaims.

Variable demoVols : list DemoVol.t.
Variable demoEvents : list DemoEvent.t.
Variable parseDate : string -> option Date.

(** Seeding a seeded database changes nothing, whatever the clock. *)
Lemma seeded_twice (t t' : Date) (d : Tables) :
  uniqueKeys d ->
  seeded demoVols demoEvents parseDate t' (seeded demoVols demoEvents parseDate t d)
  = seeded demoVols demoEvents parseDate t d.
Proof.
  intros (Hc & Hp & He & Hs). unfold seeded. simpl. f_equal.
  - apply seedRows_twice; auto.
  - apply seedRows_twice; auto.
  - apply seedRows_twice; auto.
  - apply seedRows_twice; auto.
Qed.

Lemma seeded_one_profile (t : Date) (d : Tables) (v : DemoVol.t) :
  uniqueKeys d ->
  In v demoVols ->
  List.length
    (filter (fun p => String.eqb (UserProfile.userId p) (DemoVol.id v))
            (userProfile (seeded demoVols demoEvents parseDate t d)))
  = 1%nat.
Proof.
  intros (Hc & Hp & He & Hs) Hv. simpl.
  apply (one_row_per_key UserProfile.userId).
  - apply seedRows_NoDup; auto.
  - apply seedRows_has; auto.
Qed.

(** C7.  With a store that answers and keeps its keys unique, and demo
    events whose dates are valid (and of a year from 0000 to 9999, the
    dates the store takes), the seed script exits with 0, and run
    again on the database it has left (whatever the clock says by then) it
    exits with 0 again and leaves the database as the first run left it;
    the profile table then holds exactly one row for the id of each demo
    volunteer. *)
Theorem seed_twice_is_seed_once (w : World) :
  uniqueKeys (db w) ->
  reliable (faults w) = true ->
  datesParse demoEvents parseDate ->
  exists w1 : World,
    Seed.main demoVols demoEvents parseDate w = (Ok 0, w1)
    /\ forall w1' : World,
         db w1' = db w1 ->
         reliable (faults w1') = true ->
         exists w2 : World,
           Seed.main demoVols demoEvents parseDate w1' = (Ok 0, w2)
           /\ db w2 = db w1
           /\ forall v : DemoVol.t,
                In v demoVols ->
                List.length
                  (filter (fun p => String.eqb (UserProfile.userId p) (DemoVol.id v))
                          (userProfile (db w2)))
                = 1%nat.
Proof.
  intros Hk Hf Hp.
  destruct (main_runs demoVols demoEvents parseDate Hp w Hf) as (w1 & E1 & D1 & _ & _).
  exists w1. split; [exact E1 |].
  intros w1' Hdb Hf'.
  destruct (main_runs demoVols demoEvents parseDate Hp w1' Hf') as (w2 & E2 & D2 & _ & _).
  exists w2. split; [exact E2 |].
  assert (D : db w2 = db w1).
  { rewrite D2, Hdb, D1. now apply seeded_twice. }
  split; [exact D |].
  intros v Hv. rewrite D, D1. now apply seeded_one_profile.
Qed.

End SeedClaims.

Lemma seed_twice_is_seed_once_witness :
  exists w1 : World,
    Seed.main Sample.demoVols Sample.demoEvents Sample.parseDate Sample.world = (Ok 0, w1)
    /\ forall w1' : World,
         db w1' = db w1 ->
         reliable (faults w1') = true ->
         exists w2 : World,
           Seed.main Sample.demoVols Sample.demoEvents Sample.parseDate w1' = (Ok 0, w2)
           /\ db w2 = db w1
           /\ forall v : DemoVol.t,
                In v Sample.demoVols ->
                List.length
                  (filter (fun p => String.eqb (UserProfile.userId p) (DemoVol.id v))
                          (userProfile (db w2)))
                = 1%nat.
Proof.
  apply (seed_twice_is_seed_once Sample.demoVols Sample.demoEvents Sample.parseDate
           Sample.world).
  - unfold uniqueKeys. simpl.
    repeat split; repeat constructor; simpl; intuition discriminate.
  - reflexivity.
  - exact sample_dates_taken.
Defined.

(** The sample run: the profile of the volunteer listed twice carries the
    values of its last entry and the creation time it had, and a second
    run leaves the tables as they are. *)
Example seed_sample_run :
  let w1 := snd (Seed.main Sample.demoVols Sample.demoEvents Sample.parseDate Sample.world) in
  let w2 := snd (Seed.main Sample.demoVols Sample.demoEvents Sample.parseDate w1) in
  map UserProfile.userId (userProfile (db w1)) = ["v1"; "v2"]
  /\ map UserProfile.fullName (userProfile (db w1)) = ["Ada Y."; "Ben Ortiz"]
  /\ map UserProfile.createdAt (userProfile (db w1)) = [1700000000000; 1709000000000]
  /\ map EventDetails.id (eventDetails (db w1)) = ["e1"; "e2"; "e3"; "e7"]
  /\ List.length (states (db w1)) = 50%nat
  /\ db w2 = db w1.
Proof. vm_compute. repeat split. Qed.

(* ===================================================================== *)
(** ** The event-management form                                          *)
(* ===================================================================== *)


(* ===================================================================== *)
(** ** Strings                                                            *)
(* ===================================================================== *)

Section Characters.

Lemma startsWith_Some (p l r : list ascii) :
  startsWith p l = Some r <-> l = (p ++ r)%list.
Proof.
  revert l. induction p as [| c p IH]; intros l; simpl.
  - split; congruence.
  - destruct l as [| d l]; [split; discriminate |].
    destruct (Ascii.eqb_spec c d) as [-> | N].
    + rewrite IH. split; congruence.
    + split; [discriminate | congruence].
Qed.

Variable chars : list (list ascii).

Lemma afterOneOf_Some (l r : list ascii) :
  afterOneOf chars l = Some r -> exists c, In c chars /\ l = (c ++ r)%list.
Proof.
  induction chars as [| p cs IH]; simpl; [discriminate |].
  destruct (startsWith p l) as [r' |] eqn:E.
  - intros H. injection H as ->. apply startsWith_Some in E. eauto.
  - intros H. destruct (IH H) as (c & Hc & E'). eauto.
Qed.

Lemma afterOneOf_None (l : list ascii) :
  afterOneOf chars l = None -> ~ beginsWithOneOf chars l.
Proof.
  induction chars as [| p cs IH]; simpl.
  - intros _ (c & r & [] & _).
  - destruct (startsWith p l) as [r' |] eqn:E; [discriminate |].
    intros H (c & r & [-> | Hc] & El).
    + apply startsWith_Some in El. congruence.
    + apply (IH H). exists c, r. auto.
Qed.

Lemma afterOneOf_begins (l : list ascii) :
  beginsWithOneOf chars l -> exists r, afterOneOf chars l = Some r.
Proof.
  intros H. destruct (afterOneOf chars l) as [r |] eqn:E; [eauto |].
  now apply afterOneOf_None in E.
Qed.

Lemma afterOneOf_stops (l : list ascii) :
  ~ beginsWithOneOf chars l -> afterOneOf chars l = None.
Proof.
  intros H. destruct (afterOneOf chars l) as [r |] eqn:E; [| reflexivity].
  exfalso. apply H. destruct (afterOneOf_Some l r E) as (c & Hc & El).
  exists c, r. auto.
Qed.

Lemma runOf_app (l l' : list ascii) :
  runOf chars l -> runOf chars l' -> runOf chars (l ++ l')%list.
Proof.
  induction 1 as [| c l Hc Hl IH]; intros H'; [assumption |].
  rewrite <- app_assoc. apply run_cons; auto.
Qed.

Lemma runOf_one (c : list ascii) : In c chars -> runOf chars c.
Proof.
  intros H. rewrite <- (app_nil_r c). apply run_cons; [assumption | constructor].
Qed.

Hypothesis nonEmpty : nonEmptyb chars = true.

Lemma char_not_nil (c : list ascii) : In c chars -> c <> [].
Proof.
  intros H ->. unfold nonEmptyb in nonEmpty.
  rewrite forallb_forall in nonEmpty. now apply nonEmpty in H.
Qed.

Lemma nil_begins_with_none : ~ beginsWithOneOf chars [].
Proof.
  intros (c & r & Hc & E). symmetry in E. apply app_eq_nil in E.
  now apply (char_not_nil c Hc).
Qed.

(** Dropping takes a run off the front and leaves no character of the
    table there. *)
Lemma dropFuel_spec (fuel : nat) : forall l : list ascii,
  (List.length l <= fuel)%nat ->
  exists pre, l = (pre ++ dropFuel fuel chars l)%list
              /\ runOf chars pre
              /\ ~ beginsWithOneOf chars (dropFuel fuel chars l).
Proof.
  induction fuel as [| f IH]; intros l Hl; simpl.
  - destruct l; [| simpl in Hl; lia].
    exists []. split; [reflexivity |]. split; [constructor | apply nil_begins_with_none].
  - destruct (afterOneOf chars l) as [r |] eqn:E.
    + destruct (afterOneOf_Some l r E) as (c & Hc & ->).
      assert (Hr : (List.length r <= f)%nat).
      { rewrite length_app in Hl. pose proof (char_not_nil c Hc).
        destruct c; [congruence | simpl in Hl; lia]. }
      destruct (IH r Hr) as (pre & E1 & R1 & N1).
      exists (c ++ pre)%list. split; [| split; [now apply run_cons | assumption]].
      rewrite <- app_assoc. now rewrite <- E1.
    + exists []. split; [reflexivity |]. split; [constructor | now apply afterOneOf_None].
Qed.

Lemma dropLeading_spec (l : list ascii) :
  exists pre, l = (pre ++ dropLeading chars l)%list
              /\ runOf chars pre
              /\ ~ beginsWithOneOf chars (dropLeading chars l).
Proof. apply dropFuel_spec. apply Nat.le_refl. Qed.

Lemma dropFuel_enough (f1 : nat) : forall (f2 : nat) (l : list ascii),
  (List.length l <= f1)%nat -> (List.length l <= f2)%nat ->
  dropFuel f1 chars l = dropFuel f2 chars l.
Proof.
  induction f1 as [| f1 IH]; intros f2 l H1 H2.
  - destruct l; [| simpl in H1; lia]. destruct f2; [reflexivity |]. simpl.
    now rewrite (afterOneOf_stops [] nil_begins_with_none).
  - destruct f2 as [| f2].
    + destruct l; [| simpl in H2; lia]. simpl.
      now rewrite (afterOneOf_stops [] nil_begins_with_none).
    + simpl. destruct (afterOneOf chars l) as [r |] eqn:E; [| reflexivity].
      destruct (afterOneOf_Some l r E) as (c & Hc & ->).
      rewrite length_app in H1, H2. pose proof (char_not_nil c Hc).
      apply IH; destruct c; try congruence; simpl in *; lia.
Qed.

Lemma dropLeading_stops (l : list ascii) :
  ~ beginsWithOneOf chars l -> dropLeading chars l = l.
Proof.
  intros H. unfold dropLeading. destruct (List.length l); [reflexivity |]. simpl.
  now rewrite (afterOneOf_stops l H).
Qed.

Hypothesis prefixFree : prefixFreeb chars = true.

(** A text starts with at most one character of the table. *)
Lemma one_first_char (c c' r r' : list ascii) :
  In c chars -> In c' chars -> (c ++ r = c' ++ r')%list -> c = c' /\ r = r'.
Proof.
  intros Hc Hc' E.
  assert (P : forall a b m, In a chars -> In b chars -> b = (a ++ m)%list -> m = []).
  { intros a b m Ha Hb Eb. unfold prefixFreeb in prefixFree.
    rewrite forallb_forall in prefixFree. specialize (prefixFree a Ha).
    rewrite forallb_forall in prefixFree. specialize (prefixFree b Hb).
    apply startsWith_Some in Eb. rewrite Eb in prefixFree.
    destruct m; [reflexivity | discriminate]. }
  assert (Ecc : c = c').
  { destruct (app_eq_app _ _ _ _ E) as (m & [[E1 E2] | [E1 E2]]).
    - rewrite (P c' c m Hc' Hc E1), app_nil_r in E1. assumption.
    - rewrite (P c c' m Hc Hc' E1), app_nil_r in E1. now symmetry. }
  split; [assumption |]. subst c'. now apply app_inv_head in E.
Qed.

Lemma afterOneOf_char (c l : list ascii) :
  In c chars -> afterOneOf chars (c ++ l) = Some l.
Proof.
  intros Hc. destruct (afterOneOf_begins (c ++ l)%list) as (r & E).
  { exists c, l. auto. }
  rewrite E. destruct (afterOneOf_Some _ r E) as (c' & Hc' & E').
  now destruct (one_first_char c c' l r Hc Hc' E') as [_ ->].
Qed.

Lemma dropLeading_run (pre l : list ascii) :
  runOf chars pre -> dropLeading chars (pre ++ l) = dropLeading chars l.
Proof.
  induction 1 as [| c pre Hc Hp IH]; [reflexivity |].
  rewrite <- IH. unfold dropLeading at 1. rewrite <- app_assoc.
  pose proof (char_not_nil c Hc) as Hn.
  destruct (List.length (c ++ pre ++ l)) as [| n] eqn:L.
  { destruct c; [congruence | discriminate]. }
  simpl. rewrite (afterOneOf_char c _ Hc).
  apply dropFuel_enough; [| apply Nat.le_refl].
  rewrite length_app in L. destruct c; [congruence | simpl in L; lia].
Qed.

Lemma dropLeading_all (l : list ascii) : runOf chars l -> dropLeading chars l = [].
Proof.
  intros H. rewrite <- (app_nil_r l). now rewrite dropLeading_run.
Qed.

Hypothesis sealed : sealedb chars = true.

Lemma in_tails {A : Type} (a u : list A) : a <> [] -> In u (tails (a ++ u)).
Proof.
  induction a as [| x a IH]; [congruence |]. intros _. simpl.
  destruct a as [| y a]; [now left |]. right. apply IH. discriminate.
Qed.

(** What follows a text that starts with no character of the table does
    not complete one, when it is a run of them. *)
Lemma begins_with_none_app (t post : list ascii) :
  t <> [] -> ~ beginsWithOneOf chars t -> runOf chars post ->
  ~ beginsWithOneOf chars (t ++ post).
Proof.
  intros Ht Hn Hp (c & r & Hc & E).
  destruct (app_eq_app _ _ _ _ E) as (m & [[E1 E2] | [E1 E2]]).
  - apply Hn. exists c, m. auto.
  - destruct m as [| x m].
    { apply Hn. exists c, []. rewrite app_nil_r in E1. rewrite app_nil_r. auto. }
    destruct Hp as [| c' post Hc' Hp]; [discriminate |].
    pose proof (char_not_nil c' Hc') as Hn'.
    destruct c' as [| y c']; [congruence |]. simpl in E2. injection E2 as -> _.
    unfold sealedb in sealed. rewrite forallb_forall in sealed.
    specialize (sealed c Hc). rewrite forallb_forall in sealed.
    specialize (sealed (x :: m)). rewrite E1 in sealed.
    specialize (sealed (in_tails t (x :: m) Ht)).
    rewrite forallb_forall in sealed. specialize (sealed _ Hc'). simpl in sealed.
    now rewrite Ascii.eqb_refl in sealed.
Qed.

End Characters.

Section TrimProperties.

Lemma whiteSpace_nonEmpty : nonEmptyb whiteSpace = true.
Proof. vm_compute. reflexivity. Qed.

Lemma whiteSpace_prefixFree : prefixFreeb whiteSpace = true.
Proof. vm_compute. reflexivity. Qed.

Lemma whiteSpace_sealed : sealedb whiteSpace = true.
Proof. vm_compute. reflexivity. Qed.

Lemma back_nonEmpty : nonEmptyb (map (@rev ascii) whiteSpace) = true.
Proof. vm_compute. reflexivity. Qed.

Lemma back_prefixFree : prefixFreeb (map (@rev ascii) whiteSpace) = true.
Proof. vm_compute. reflexivity. Qed.

Lemma begins_back (chars : list (list ascii)) (l : list ascii) :
  beginsWithOneOf (map (@rev ascii) chars) (rev l) <-> endsWithOneOf chars l.
Proof.
  split.
  - intros (c & r & Hc & E). apply in_map_iff in Hc. destruct Hc as (c0 & <- & Hc0).
    exists c0, (rev r). split; [assumption |].
    rewrite <- (rev_involutive l), E, rev_app_distr, rev_involutive. reflexivity.
  - intros (c & r & Hc & ->). exists (rev c), (rev r).
    split; [now apply in_map | apply rev_app_distr].
Qed.

Lemma runOf_back (chars : list (list ascii)) (l : list ascii) :
  runOf chars l -> runOf (map (@rev ascii) chars) (rev l).
Proof.
  induction 1 as [| c l Hc Hl IH]; [constructor |].
  rewrite rev_app_distr. apply runOf_app; [assumption |].
  apply runOf_one. now apply in_map.
Qed.

Lemma runOf_forth (chars : list (list ascii)) (l : list ascii) :
  runOf (map (@rev ascii) chars) l -> runOf chars (rev l).
Proof.
  induction 1 as [| c l Hc Hl IH]; [constructor |].
  rewrite rev_app_distr. apply runOf_app; [assumption |].
  apply in_map_iff in Hc. destruct Hc as (c0 & <- & Hc0).
  rewrite rev_involutive. now apply runOf_one.
Qed.

(** [trimChars] takes white space off the two ends and leaves none
    there. *)
Lemma trimChars_strips (l : list ascii) :
  (exists pre post, l = (pre ++ trimChars l ++ post)%list
                    /\ runOf whiteSpace pre /\ runOf whiteSpace post)
  /\ ~ beginsWithOneOf whiteSpace (trimChars l)
  /\ ~ endsWithOneOf whiteSpace (trimChars l).
Proof.
  unfold trimChars.
  destruct (dropLeading_spec whiteSpace whiteSpace_nonEmpty l) as (pre & E1 & R1 & N1).
  set (A := dropLeading whiteSpace l) in *.
  destruct (dropLeading_spec _ back_nonEmpty (rev A)) as (q & E2 & R2 & N2).
  set (B := dropLeading (map (@rev ascii) whiteSpace) (rev A)) in *.
  assert (EA : A = (rev B ++ rev q)%list).
  { rewrite <- (rev_involutive A), E2. apply rev_app_distr. }
  split; [| split].
  - exists pre, (rev q). split; [now rewrite <- EA |].
    split; [assumption | now apply runOf_forth].
  - intros (c & r & Hc & E). apply N1. exists c, (r ++ rev q)%list.
    split; [assumption |]. rewrite EA, E. now rewrite app_assoc.
  - intros H. apply N2. rewrite <- (rev_involutive B). now apply begins_back.
Qed.

(** And it is the only way to do so. *)
Lemma trimChars_unique (pre t post : list ascii) :
  runOf whiteSpace pre -> runOf whiteSpace post ->
  ~ beginsWithOneOf whiteSpace t -> ~ endsWithOneOf whiteSpace t ->
  trimChars (pre ++ t ++ post) = t.
Proof.
  intros Hpre Hpost Hb He. unfold trimChars.
  rewrite (dropLeading_run _ whiteSpace_nonEmpty whiteSpace_prefixFree pre _ Hpre).
  destruct t as [| x t].
  - simpl. now rewrite (dropLeading_all _ whiteSpace_nonEmpty whiteSpace_prefixFree post Hpost).
  - rewrite (dropLeading_stops _ ((x :: t) ++ post)).
    2:{ apply (begins_with_none_app _ whiteSpace_nonEmpty whiteSpace_sealed);
          [discriminate | assumption | assumption]. }
    rewrite rev_app_distr.
    rewrite (dropLeading_run _ back_nonEmpty back_prefixFree _ _ (runOf_back _ _ Hpost)).
    rewrite dropLeading_stops; [apply rev_involutive |].
    intros H. apply He. now apply begins_back.
Qed.

Lemma trim_strips (s : string) : strippedOf s (trim s).
Proof.
  unfold strippedOf, trim. rewrite list_ascii_of_string_of_list_ascii.
  apply trimChars_strips.
Qed.

Lemma strippedOf_trim (s t : string) : strippedOf s t -> trim s = t.
Proof.
  intros ((pre & post & E & Hpre & Hpost) & Hb & He). unfold trim.
  rewrite E, (trimChars_unique pre _ post Hpre Hpost Hb He).
  apply string_of_list_ascii_of_string.
Qed.

Lemma blank_trim (s : string) : blank s <-> trim s = "".
Proof.
  split.
  - intros H. apply strippedOf_trim. split; [| split].
    + exists (list_ascii_of_string s), []. simpl. rewrite app_nil_r.
      split; [reflexivity |]. split; [assumption | constructor].
    + apply (nil_begins_with_none _ whiteSpace_nonEmpty).
    + intros (c & r & Hc & E). symmetry in E. apply app_eq_nil in E.
      destruct E as [_ ->]. now apply (char_not_nil _ whiteSpace_nonEmpty []).
  - intros H. destruct (trim_strips s) as ((pre & post & E & Hpre & Hpost) & _).
    rewrite H in E. simpl in E. unfold blank. rewrite E. now apply runOf_app.
Qed.

End TrimProperties.

Section FormProperties.

Lemma isEmpty_false (s : string) : isEmpty s = false <-> s <> "".
Proof. apply String.eqb_neq. Qed.

Lemma isEmpty_true (s : string) : isEmpty s = true <-> s = "".
Proof. apply String.eqb_eq. Qed.

Lemma not_blank (s : string) : isEmpty (trim s) = false <-> ~ blank s.
Proof. rewrite isEmpty_false, blank_trim. reflexivity. Qed.

Lemma validate_accepts (form : Form) : validate form = None <-> acceptable form.
Proof.
  unfold validate, acceptable.
  destruct (isEmpty (trim (name form))) eqn:N.
  { apply isEmpty_true, blank_trim in N.
    split; [discriminate | intros (H & _); contradiction]. }
  destruct (Nat.ltb_spec 100 (lengthOf (trim (name form)))) as [L | L].
  { split; [discriminate | intros (_ & H & _)].
    specialize (H _ (trim_strips (name form))). lia. }
  destruct (isEmpty (trim (description form))) eqn:Ds.
  { apply isEmpty_true, blank_trim in Ds.
    split; [discriminate | intros (_ & _ & H & _); contradiction]. }
  destruct (isEmpty (trim (location form))) eqn:Lo.
  { apply isEmpty_true, blank_trim in Lo.
    split; [discriminate | intros (_ & _ & _ & H & _); contradiction]. }
  destruct (requiredSkills form) as [| s l] eqn:Sk; simpl.
  { split; [discriminate | intros (_ & _ & _ & _ & H & _); contradiction]. }
  destruct (isEmpty (urgency form)) eqn:U.
  { apply isEmpty_true in U.
    split; [discriminate | intros (_ & _ & _ & _ & _ & H & _); contradiction]. }
  destruct (isEmpty (eventDate form)) eqn:Da.
  { apply isEmpty_true in Da.
    split; [discriminate | intros (_ & _ & _ & _ & _ & _ & H); contradiction]. }
  apply not_blank in N, Ds, Lo. apply isEmpty_false in U, Da.
  split; [intros _ | reflexivity].
  repeat split; try assumption; try discriminate.
  intros t Ht. now rewrite <- (strippedOf_trim _ _ Ht).
Qed.

Lemma trimmed_submitted (form : Form) : submitted form (trimmed form).
Proof.
  unfold submitted, trimmed. simpl.
  repeat split; try reflexivity; apply trim_strips.
Qed.

(** C8, as the code has it.  A save is rejected (an error is shown and
    nothing is sent) exactly when the name, the description or the location
    is white space only (empty after trimming), the name without the white
    space at its ends is longer than 100 characters, no required skill is
    selected, or the urgency or the event date is the empty string; the
    urgency and the date are not trimmed and the date is not checked
    further.  A form that meets these constraints is sent, with the white
    space at the ends of name, description and location taken off: as a
    creation in create mode, as an update of the selected event in edit
    mode. *)
Theorem validate_rejects_exactly (form : Form) :
  (validate form = None <-> acceptable form)
  /\ (forall (msg : string) (m : mode) (selectedId : option string),
        validate form = Some msg -> handleSave m selectedId form = SetError msg)
  /\ (acceptable form ->
      exists payload,
        submitted form payload
        /\ (forall selectedId, handleSave create selectedId form = CreateEvent payload)
        /\ (forall id, id <> "" ->
                       handleSave edit (Some id) form = UpdateEvent id payload)).
Proof.
  split; [apply validate_accepts |]. split.
  - intros msg m sel H. unfold handleSave. now rewrite H.
  - intros H. apply validate_accepts in H. exists (trimmed form).
    split; [apply trimmed_submitted |].
    unfold handleSave. rewrite H.
    split; [reflexivity |].
    intros id Hid. apply isEmpty_false in Hid. now rewrite Hid.
Qed.

End FormProperties.


Lemma sample_form_acceptable : acceptable (Sample.form "2024-03-01").
Proof.
  unfold acceptable. repeat split; try discriminate.
  - intros H. apply blank_trim in H. discriminate H.
  - intros t Ht. rewrite <- (strippedOf_trim _ _ Ht). vm_compute. lia.
  - intros H. apply blank_trim in H. discriminate H.
  - intros H. apply blank_trim in H. discriminate H.
Qed.

Lemma validate_rejects_exactly_witness :
  acceptable (Sample.form "2024-03-01")
  /\ (exists payload,
        submitted (Sample.form "2024-03-01") payload
        /\ (forall selectedId,
              handleSave create selectedId (Sample.form "2024-03-01") = CreateEvent payload)
        /\ (forall id, id <> "" ->
              handleSave edit (Some id) (Sample.form "2024-03-01") = UpdateEvent id payload))
  /\ handleSave create None (Sample.form "") = SetError "Event Date is required.".
Proof.
  split; [exact sample_form_acceptable |]. split.
  - exact (proj2 (proj2 (validate_rejects_exactly (Sample.form "2024-03-01")))
             sample_form_acceptable).
  - apply (proj1 (proj2 (validate_rejects_exactly (Sample.form "")))).
    reflexivity.
Defined.

(** What is sent for the sample form, whose name is written between
    blanks. *)
Example handleSave_sends_the_name_without_its_blanks :
  handleSave create None (Sample.form "2024-03-01")
  = CreateEvent {| name := "Food drive"; description := "Sort and pack cans";
                   location := "Houston"; requiredSkills := ["Lifting"];
                   urgency := "Low"; eventDate := "2024-03-01" |}
  /\ handleSave edit (Some "e1") (Sample.formNamed Sample.spacedName)
     = UpdateEvent "e1" (Sample.formNamed "Food drive").
Proof. vm_compute. split; reflexivity. Qed.

(** White space is more than the blank: a no-break space is no name.  And
    the length is counted in code units: sixty accented letters, of two
    bytes each, pass; a hundred and one letters do not. *)
Example validate_on_names :
  validate (Sample.formNamed Sample.noBreakSpace) = Some "Event Name is required."
  /\ validate (Sample.formNamed (Sample.accented 60)) = None
  /\ validate (Sample.formNamed (Sample.accented 100)) = None
  /\ validate (Sample.formNamed (Sample.accented 101))
     = Some "Event Name must be ≤ 100 characters.".
Proof. vm_compute. repeat split. Qed.

(** C8 fails as stated: a date made of a blank is empty after trimming,
    and is no valid date, yet the form is accepted and sent. *)
Lemma validate_accepts_blank_date :
  blank (eventDate (Sample.form " "))
  /\ validate (Sample.form " ") = None
  /\ handleSave create None (Sample.form " ")
     = CreateEvent {| name := "Food drive"; description := "Sort and pack cans";
                      location := "Houston"; requiredSkills := ["Lifting"];
                      urgency := "Low"; eventDate := " " |}.
Proof.
  split; [apply blank_trim; reflexivity |]. vm_compute. split; reflexivity.
Qed.

(** Nor is the text of the date looked at. *)
Example validate_accepts_any_date_text :
  validate (Sample.form "not a date") = None.
Proof. reflexivity. Qed.

(* ===================================================================== *)
(** ** The lists of the router                                            *)
(* ===================================================================== *)

Section OrderBy.

Context {A : Type}.
Variable before : A -> A -> bool.

Lemma insertBy_perm (x : A) (l : list A) : Permutation (x :: l) (insertBy before x l).
Proof.
  induction l as [| y l IH]; simpl; [apply Permutation_refl |].
  destruct (before y x); [| apply Permutation_refl].
  eapply perm_trans; [apply perm_swap | now apply perm_skip].
Qed.

Lemma orderBy_perm (l : list A) : Permutation l (orderBy before l).
Proof.
  induction l as [| x l IH]; simpl; [constructor |].
  eapply perm_trans; [apply perm_skip, IH | apply insertBy_perm].
Qed.

(** The order [before] stands for: [b] is not asked for before [a]. *)
Variable R : A -> A -> Prop.
Hypothesis R_trans : forall a b c, R a b -> R b c -> R a c.
Hypothesis before_R : forall y x, before y x = true -> R y x.
Hypothesis not_before_R : forall y x, before y x = false -> R x y.

Lemma insertBy_sorted (x : A) (l : list A) :
  StronglySorted R l -> StronglySorted R (insertBy before x l).
Proof.
  intros Hs. induction Hs as [| y l Hs IH Hy]; simpl.
  - constructor; constructor.
  - destruct (before y x) eqn:E.
    + constructor; [exact IH |].
      apply (Permutation_Forall (insertBy_perm x l)).
      constructor; [now apply before_R | exact Hy].
    + assert (Rxy : R x y) by now apply not_before_R.
      constructor; [now constructor |].
      constructor; [exact Rxy |].
      eapply Forall_impl; [| exact Hy]. intros z Hz. now apply R_trans with y.
Qed.

Lemma orderBy_sorted (l : list A) : StronglySorted R (orderBy before l).
Proof.
  induction l as [| x l IH]; simpl; [constructor | now apply insertBy_sorted].
Qed.

End OrderBy.

Section Lists.

Lemma roundTrip_head (w : World) :
  roundTrip w
  = (if hd false (faults w) then Thrown StoreFailure else Ok tt, tick w).
Proof. unfold roundTrip, tick. now destruct (faults w) as [| [|] f]. Qed.

(** X1.  [GET /volunteers]: when the store answers, the answer is 200 with
    the DTOs of all the profiles, newest first; when the call fails, it is
    500 with [list_volunteers_failed]. *)
Theorem listVolunteers_newest_first (w : World) :
  (hd false (faults w) = false ->
   exists rows : list UserProfile.t,
     fst (listVolunteers w)
     = Ok {| status := 200; body := Volunteers (map toVolunteerDTO rows) |}
     /\ Permutation rows (userProfile (db w))
     /\ StronglySorted newerOrSame rows)
  /\ (hd false (faults w) = true ->
      fst (listVolunteers w)
      = Ok {| status := 500; body := Error "list_volunteers_failed" |}).
Proof.
  unfold listVolunteers, tryCatch, userProfile_findMany_newestFirst, bind, read.
  rewrite roundTrip_head. split; intros H; rewrite H; simpl; [| reflexivity].
  eexists. split; [reflexivity |]. split.
  - apply Permutation_sym, orderBy_perm.
  - apply orderBy_sorted; unfold newerOrSame.
    + intros a b c. lia.
    + intros y x E. apply Z.ltb_lt in E. lia.
    + intros y x E. apply Z.ltb_ge in E. lia.
Qed.

Lemma listVolunteers_newest_first_witness :
  (exists rows : list UserProfile.t,
     fst (listVolunteers Sample.world)
     = Ok {| status := 200; body := Volunteers (map toVolunteerDTO rows) |}
     /\ Permutation rows (userProfile (db Sample.world))
     /\ StronglySorted newerOrSame rows)
  /\ fst (listVolunteers (Sample.worldWith Sample.events [true]))
     = Ok {| status := 500; body := Error "list_volunteers_failed" |}.
Proof.
  split.
  - apply (proj1 (listVolunteers_newest_first Sample.world)). reflexivity.
  - apply (proj2 (listVolunteers_newest_first (Sample.worldWith Sample.events [true]))).
    reflexivity.
Defined.

Lemma padded_length (width : nat) : forall z, List.length (padded width z) = width.
Proof.
  induction width as [| n IH]; intros z; simpl; [reflexivity |].
  rewrite length_app, IH. simpl. lia.
Qed.

Lemma toISOString_length (t : Date) :
  (24 <= List.length (list_ascii_of_string (toISOString t)))%nat.
Proof.
  unfold toISOString. destruct (civilFromDays (t / 86400000)) as [[y m] d].
  rewrite list_ascii_of_string_of_list_ascii.
  destruct ((0 <=? y) && (y <=? 9999))%bool;
    repeat (rewrite length_app || rewrite length_cons || rewrite padded_length);
    simpl; lia.
Qed.

(** X2.  [GET /events]: when the store answers, the answer is 200 with the
    DTOs of all the events, soonest first; when the call fails, it is 500
    with [list_events_failed]. *)
Theorem listEvents_soonest_first (w : World) :
  (hd false (faults w) = false ->
   exists rows : list EventDetails.t,
     fst (listEvents w)
     = Ok {| status := 200; body := Events (map toEventDTO rows) |}
     /\ Permutation rows (eventDetails (db w))
     /\ StronglySorted soonerOrSame rows)
  /\ (hd false (faults w) = true ->
      fst (listEvents w)
      = Ok {| status := 500; body := Error "list_events_failed" |}).
Proof.
  unfold listEvents, tryCatch, eventDetails_findMany_soonestFirst, bind, read.
  rewrite roundTrip_head. split; intros H; rewrite H; simpl; [| reflexivity].
  eexists. split; [reflexivity |]. split.
  - apply Permutation_sym, orderBy_perm.
  - apply orderBy_sorted; unfold soonerOrSame.
    + intros a b c. lia.
    + intros y x E. apply Z.ltb_lt in E. lia.
    + intros y x E. apply Z.ltb_ge in E. lia.
Qed.

Lemma listEvents_soonest_first_witness :
  (exists rows : list EventDetails.t,
     fst (listEvents Sample.world)
     = Ok {| status := 200; body := Events (map toEventDTO rows) |}
     /\ Permutation rows (eventDetails (db Sample.world))
     /\ StronglySorted soonerOrSame rows)
  /\ fst (listEvents (Sample.worldWith Sample.events [true]))
     = Ok {| status := 500; body := Error "list_events_failed" |}.
Proof.
  split.
  - apply (proj1 (listEvents_soonest_first Sample.world)). reflexivity.
  - apply (proj2 (listEvents_soonest_first (Sample.worldWith Sample.events [true]))).
    reflexivity.
Defined.

Lemma string_of_list_ascii_length (l : list ascii) :
  String.length (string_of_list_ascii l) = List.length l.
Proof. induction l as [| c l IH]; simpl; [| rewrite IH]; reflexivity. Qed.

Lemma string_of_list_ascii_app' (l r : list ascii) :
  string_of_list_ascii (l ++ r) = string_of_list_ascii l ++ string_of_list_ascii r.
Proof. induction l as [| c l IH]; simpl; [| rewrite IH]; reflexivity. Qed.

Lemma allFrom_spec (p : Z -> bool) (n : nat) : forall z i,
  allFrom z n p = true -> z <= i < z + Z.of_nat n -> p i = true.
Proof.
  induction n as [| n IH]; intros z i H Hi; [lia |].
  simpl in H. apply andb_true_iff in H. destruct H as [H0 H1].
  destruct (Z.eq_dec i z) as [-> | N]; [assumption |].
  apply (IH (z + 1)); [assumption | lia].
Qed.

Lemma eraYearAgrees_all : allFrom 0 400 eraYearAgrees = true.
Proof. vm_compute. reflexivity. Qed.

Lemma yearDayAgrees_all : allFrom 0 366 yearDayAgrees = true.
Proof. vm_compute. reflexivity. Qed.

Lemma eraMonthAgrees_all :
  allFrom 0 400 (fun yoe => allFrom 0 12 (eraMonthAgrees yoe)) = true.
Proof. vm_compute. reflexivity. Qed.

(** The scaled day grows with the day. *)
Lemma scaledDay_step (n : Z) : 0 <= n < 146096 -> scaledDay n <= scaledDay (n + 1).
Proof.
  intros H. unfold scaledDay.
  destruct (Z.eq_dec n 146095) as [-> | N]; [vm_compute; discriminate |].
  rewrite (Z.div_small n 146096), (Z.div_small (n + 1) 146096) by lia.
  pose proof (Z.div_mod n 1460 ltac:(lia)).
  pose proof (Z.mod_pos_bound n 1460 ltac:(lia)).
  pose proof (Z.div_mod (n + 1) 1460 ltac:(lia)).
  pose proof (Z.mod_pos_bound (n + 1) 1460 ltac:(lia)).
  pose proof (Z.div_le_mono n (n + 1) 36524 ltac:(lia) ltac:(lia)).
  nia.
Qed.

Lemma scaledDay_mono (a b : Z) : 0 <= a <= b -> b <= 146096 -> scaledDay a <= scaledDay b.
Proof.
  intros Hab Hb.
  assert (G : forall n : nat, Z.of_nat n <= 146096 - a ->
                              scaledDay a <= scaledDay (a + Z.of_nat n)).
  { induction n as [| n IH]; intros Hn.
    - rewrite Z.add_0_r. lia.
    - rewrite Nat2Z.inj_succ in *.
      replace (a + Z.succ (Z.of_nat n)) with (a + Z.of_nat n + 1) by lia.
      etransitivity; [apply IH; lia | apply scaledDay_step; lia]. }
  specialize (G (Z.to_nat (b - a))). rewrite Z2Nat.id in G by lia.
  replace (a + (b - a)) with b in G by lia. apply G. lia.
Qed.

Lemma daysToEraYear_bounds (k : Z) :
  0 <= k <= 399 ->
  0 <= daysToEraYear k
  /\ daysToEraYear k + 365 <= eraYearEnd k <= daysToEraYear k + 366
  /\ eraYearEnd k <= 146097.
Proof.
  intros H. unfold eraYearEnd.
  destruct (Z.eqb_spec k 399) as [-> | N]; [vm_compute; intuition discriminate |].
  unfold daysToEraYear.
  pose proof (Z.div_mod k 4 ltac:(lia)). pose proof (Z.mod_pos_bound k 4 ltac:(lia)).
  pose proof (Z.div_mod (k + 1) 4 ltac:(lia)).
  pose proof (Z.mod_pos_bound (k + 1) 4 ltac:(lia)).
  pose proof (Z.div_mod k 100 ltac:(lia)). pose proof (Z.mod_pos_bound k 100 ltac:(lia)).
  pose proof (Z.div_mod (k + 1) 100 ltac:(lia)).
  pose proof (Z.mod_pos_bound (k + 1) 100 ltac:(lia)).
  lia.
Qed.

(** The year of the era: the quotient of the scaled day by 365 is the
    year the day lies in. *)
Lemma year_of_era (doe : Z) :
  0 <= doe < 146097 ->
  let yoe := scaledDay doe / 365 in
  0 <= yoe <= 399 /\ daysToEraYear yoe <= doe < eraYearEnd yoe.
Proof.
  intros H yoe.
  pose proof (Z.div_mod (scaledDay doe) 365 ltac:(lia)) as Dm. fold yoe in Dm.
  pose proof (Z.mod_pos_bound (scaledDay doe) 365 ltac:(lia)) as Bm.
  assert (H0 : 0 <= scaledDay doe).
  { change 0 with (scaledDay 0) at 1. apply scaledDay_mono; lia. }
  assert (H1 : scaledDay doe <= 145999).
  { change 145999 with (scaledDay 146096). apply scaledDay_mono; lia. }
  assert (R : 0 <= yoe <= 399) by lia.
  split; [exact R |].
  assert (A : forall k, 0 <= k <= 399 -> eraYearAgrees k = true).
  { intros k Hk. apply (allFrom_spec _ _ _ _ eraYearAgrees_all). simpl. lia. }
  split.
  - destruct (Z_le_gt_dec (daysToEraYear yoe) doe) as [L | G]; [exact L | exfalso].
    assert (K : 1 <= yoe).
    { destruct (Z.eq_dec yoe 0) as [E | E]; [| lia].
      rewrite E in G. unfold daysToEraYear in G. simpl in G. lia. }
    specialize (A (yoe - 1) ltac:(lia)). unfold eraYearAgrees in A.
    apply andb_true_iff in A. destruct A as [_ A]. apply Z.ltb_lt in A.
    pose proof (daysToEraYear_bounds (yoe - 1) ltac:(lia)) as B.
    assert (E : eraYearEnd (yoe - 1) = daysToEraYear yoe).
    { unfold eraYearEnd. destruct (Z.eqb_spec (yoe - 1) 399); [lia |].
      f_equal. lia. }
    rewrite E in A, B.
    pose proof (scaledDay_mono doe (daysToEraYear yoe - 1) ltac:(lia) ltac:(lia)).
    lia.
  - destruct (Z_lt_ge_dec doe (eraYearEnd yoe)) as [L | G]; [exact L | exfalso].
    pose proof (daysToEraYear_bounds yoe R) as B.
    unfold eraYearEnd in G, B.
    destruct (Z.eqb_spec yoe 399) as [E | E]; [lia |].
    specialize (A (yoe + 1) ltac:(lia)). unfold eraYearAgrees in A.
    apply andb_true_iff in A. destruct A as [A _]. apply Z.leb_le in A.
    pose proof (scaledDay_mono (daysToEraYear (yoe + 1)) doe ltac:(lia) ltac:(lia)).
    lia.
Qed.

(** [civilFromDays] on a day of the era that holds the year 1970. *)
Lemma civilFromDays_era (doe : Z) :
  0 <= doe < 146097 ->
  exists y m d : Z,
    civilFromDays (doe - 719468) = (y, m, d)
    /\ calendarDate y m d /\ dayNumber y m d = doe - 719468.
Proof.
  intros H. unfold civilFromDays.
  replace (doe - 719468 + 719468) with doe by lia.
  rewrite (Z.div_small doe 146097) by lia.
  replace (doe - 0 * 146097) with doe by lia.
  fold (scaledDay doe).
  destruct (year_of_era doe H) as [Ry Rd].
  set (yoe := scaledDay doe / 365) in *.
  fold (daysToEraYear yoe).
  pose proof (daysToEraYear_bounds yoe Ry) as B.
  set (doy := doe - daysToEraYear yoe).
  assert (Hdoy : 0 <= doy < 366) by (unfold doy; lia).
  pose proof (allFrom_spec _ _ _ doy yearDayAgrees_all ltac:(simpl; lia)) as Cd.
  unfold yearDayAgrees in Cd. cbv zeta in Cd.
  set (mp := (5 * doy + 2) / 153) in *.
  apply andb_true_iff in Cd. destruct Cd as [Cd C4].
  apply andb_true_iff in Cd. destruct Cd as [Cd C3].
  apply andb_true_iff in Cd. destruct Cd as [C1 C2].
  apply Z.leb_le in C1, C2, C3.
  pose proof (allFrom_spec _ _ _ yoe eraMonthAgrees_all ltac:(simpl; lia)) as Cm.
  cbv beta in Cm.
  pose proof (allFrom_spec _ _ _ mp Cm ltac:(simpl; lia)) as Cmm. clear Cm.
  unfold eraMonthAgrees in Cmm. cbv zeta in Cmm.
  fold (daysToMarchMonth mp).
  set (m := if mp <? 10 then mp + 3 else mp - 9) in *.
  set (y := yoe + (if m <=? 2 then 1 else 0)) in *.
  apply andb_true_iff in Cmm. destruct Cmm as [Cmm M4].
  apply andb_true_iff in Cmm. destruct Cmm as [Cmm M3].
  apply andb_true_iff in Cmm. destruct Cmm as [M1 M2].
  apply Z.leb_le in M1, M2. apply Z.eqb_eq in M3, M4.
  exists y, m, (doy - daysToMarchMonth mp + 1).
  split; [unfold y; do 2 f_equal; lia |].
  split.
  - split; [lia |]. rewrite M4.
    destruct (Z.eqb_spec mp 11) as [E | E].
    + rewrite E in C3 |- *. unfold doy in *. lia.
    + simpl in C4. apply Z.ltb_lt in C4. lia.
  - unfold dayNumber, doy. lia.
Qed.

Lemma leapYear_cycle (y k : Z) : leapYear (y + 400 * k) = leapYear y.
Proof.
  unfold leapYear.
  replace ((y + 400 * k) mod 4) with (y mod 4)
    by (replace (y + 400 * k) with (y + (100 * k) * 4) by lia; now rewrite Z.mod_add).
  replace ((y + 400 * k) mod 100) with (y mod 100)
    by (replace (y + 400 * k) with (y + (4 * k) * 100) by lia; now rewrite Z.mod_add).
  replace ((y + 400 * k) mod 400) with (y mod 400)
    by (replace (y + 400 * k) with (y + k * 400) by lia; now rewrite Z.mod_add).
  reflexivity.
Qed.

Lemma daysInMonth_cycle (y k m : Z) : daysInMonth (y + 400 * k) m = daysInMonth y m.
Proof. unfold daysInMonth. now rewrite leapYear_cycle. Qed.

Lemma daysToMonth_cycle (y k m : Z) : daysToMonth (y + 400 * k) m = daysToMonth y m.
Proof.
  unfold daysToMonth. f_equal. apply map_ext. intros j. apply daysInMonth_cycle.
Qed.

Lemma daysToYear_cycle (y k : Z) : daysToYear (y + 400 * k) = daysToYear y + 146097 * k.
Proof.
  unfold daysToYear.
  replace (y + 400 * k - 1) with (y - 1 + 400 * k) by lia.
  replace ((y - 1 + 400 * k) / 4) with ((y - 1) / 4 + 100 * k)
    by (replace (y - 1 + 400 * k) with (y - 1 + (100 * k) * 4) by lia;
        now rewrite Z.div_add).
  replace ((y - 1 + 400 * k) / 100) with ((y - 1) / 100 + 4 * k)
    by (replace (y - 1 + 400 * k) with (y - 1 + (4 * k) * 100) by lia;
        now rewrite Z.div_add).
  replace ((y - 1 + 400 * k) / 400) with ((y - 1) / 400 + k)
    by (replace (y - 1 + 400 * k) with (y - 1 + k * 400) by lia;
        now rewrite Z.div_add).
  lia.
Qed.

Lemma dayNumber_cycle (y k m d : Z) :
  dayNumber (y + 400 * k) m d = dayNumber y m d + 146097 * k.
Proof. unfold dayNumber. rewrite daysToYear_cycle, daysToMonth_cycle. lia. Qed.

(** A day is the day of the same rank in the era of 1970, so many eras
    of 400 years later. *)
Lemma civilFromDays_cycle (days : Z) :
  let k := (days + 719468) / 146097 in
  let '(y, m, d) := civilFromDays (days - 146097 * k) in
  civilFromDays days = (y + 400 * k, m, d).
Proof.
  cbv zeta. unfold civilFromDays.
  replace (days - 146097 * ((days + 719468) / 146097) + 719468)
    with (days + 719468 - 146097 * ((days + 719468) / 146097)) by lia.
  generalize (days + 719468). intros z.
  set (k := z / 146097).
  pose proof (Z.div_mod z 146097 ltac:(lia)) as Dm. fold k in Dm.
  pose proof (Z.mod_pos_bound z 146097 ltac:(lia)) as Bd.
  assert (E0 : (z - 146097 * k) / 146097 = 0) by (apply Z.div_small; lia).
  rewrite E0.
  replace (z - 146097 * k - 0 * 146097) with (z - k * 146097) by lia.
  set (doe := z - k * 146097).
  cbv zeta. f_equal. f_equal. lia.
Qed.

(** [civilFromDays] gives the calendar date of the day. *)
Lemma civilFromDays_calendar (days : Z) :
  exists y m d : Z,
    civilFromDays days = (y, m, d) /\ calendarDate y m d /\ dayNumber y m d = days.
Proof.
  pose proof (civilFromDays_cycle days) as C. cbv zeta in C.
  set (k := (days + 719468) / 146097) in *.
  assert (R : 0 <= days + 719468 - 146097 * k < 146097).
  { pose proof (Z.div_mod (days + 719468) 146097 ltac:(lia)) as Dm. fold k in Dm.
    pose proof (Z.mod_pos_bound (days + 719468) 146097 ltac:(lia)). lia. }
  destruct (civilFromDays_era _ R) as (y & m & d & E & V & N).
  replace (days + 719468 - 146097 * k - 719468) with (days - 146097 * k) in E, N by lia.
  rewrite E in C.
  exists (y + 400 * k), m, d. split; [exact C |]. split.
  - unfold calendarDate in *. rewrite daysInMonth_cycle. exact V.
  - rewrite dayNumber_cycle. lia.
Qed.

Lemma decimalValue_last (l : list ascii) (c : ascii) :
  decimalValue (l ++ [c]) = 10 * decimalValue l + (Z.of_nat (nat_of_ascii c) - 48).
Proof. unfold decimalValue. now rewrite fold_left_app. Qed.

Lemma digitChar_code (z : Z) : nat_of_ascii (digitChar z) = Z.to_nat (48 + z mod 10).
Proof.
  unfold digitChar. apply nat_ascii_embedding.
  pose proof (Z.mod_pos_bound z 10 ltac:(lia)). lia.
Qed.

(** [padded] writes a number that fits in decimal. *)
Lemma padded_numeral (width : nat) : forall z,
  0 <= z < 10 ^ Z.of_nat width ->
  Forall isDigit (padded width z) /\ decimalValue (padded width z) = z.
Proof.
  induction width as [| w IH]; intros z Hz.
  - simpl in *. split; [constructor | unfold decimalValue; simpl; lia].
  - simpl padded.
    assert (Hq : 0 <= z / 10 < 10 ^ Z.of_nat w).
    { rewrite Nat2Z.inj_succ, Z.pow_succ_r in Hz by lia.
      split; [apply Z.div_pos; lia | apply Z.div_lt_upper_bound; lia]. }
    destruct (IH (z / 10) Hq) as [D V].
    pose proof (Z.mod_pos_bound z 10 ltac:(lia)) as Bm.
    split.
    + apply Forall_app. split; [assumption |]. constructor; [| constructor].
      unfold isDigit. rewrite digitChar_code. lia.
    + rewrite decimalValue_last, V, digitChar_code.
      pose proof (Z.div_mod z 10 ltac:(lia)). lia.
Qed.

Lemma padded_isDigit (width : nat) : forall z, Forall isDigit (padded width z).
Proof.
  induction width as [| w IH]; intros z; simpl; [constructor |].
  apply Forall_app. split; [apply IH |]. constructor; [| constructor].
  unfold isDigit. rewrite digitChar_code.
  pose proof (Z.mod_pos_bound z 10 ltac:(lia)). lia.
Qed.

Lemma codeUnits_below_128 (c : ascii) : (nat_of_ascii c < 128)%nat -> codeUnits c = 1%nat.
Proof.
  intros H. unfold codeUnits.
  replace (Nat.leb 128 (nat_of_ascii c)) with false by (symmetry; apply Nat.leb_gt; lia).
  replace (Nat.leb 240 (nat_of_ascii c)) with false by (symmetry; apply Nat.leb_gt; lia).
  reflexivity.
Qed.

(** A text of characters below U+0080 has one code unit a byte. *)
Lemma lengthOf_below_128 (l : list ascii) :
  Forall (fun c => (nat_of_ascii c < 128)%nat) l ->
  lengthOf (string_of_list_ascii l) = List.length l.
Proof.
  unfold lengthOf. rewrite list_ascii_of_string_of_list_ascii.
  induction 1 as [| c l Hc Hl IH]; simpl; [reflexivity |].
  now rewrite (codeUnits_below_128 c Hc), IH.
Qed.

Lemma padded_below_128 (width : nat) (z : Z) :
  Forall (fun c => (nat_of_ascii c < 128)%nat) (padded width z).
Proof.
  eapply Forall_impl; [| apply padded_isDigit]. unfold isDigit. intros c H. lia.
Qed.

Lemma toISOString_below_128 (t : Date) :
  Forall (fun c => (nat_of_ascii c < 128)%nat) (list_ascii_of_string (toISOString t)).
Proof.
  unfold toISOString. destruct (civilFromDays (t / 86400000)) as [[y m] d].
  rewrite list_ascii_of_string_of_list_ascii.
  destruct ((0 <=? y) && (y <=? 9999))%bool; [| destruct (y <? 0)];
    repeat first [ apply padded_below_128
                 | apply Forall_nil
                 | apply Forall_cons; [apply Nat.ltb_lt; reflexivity |]
                 | apply Forall_app; split ].
Qed.

Lemma Forall_firstn_of {A : Type} (P : A -> Prop) (n : nat) : forall l : list A,
  Forall P l -> Forall P (firstn n l).
Proof.
  induction n as [| n IH]; intros l H; simpl; [constructor |].
  destruct H as [| x l Hx Hl]; constructor; auto.
Qed.

Lemma firstn_exact {A : Type} (l r : list A) : firstn (List.length l) (l ++ r) = l.
Proof.
  rewrite firstn_app, Nat.sub_diag, firstn_all. simpl. apply app_nil_r.
Qed.

Lemma numeral_padded (width : nat) (z : Z) :
  0 <= z < 10 ^ Z.of_nat width -> numeral width z (string_of_list_ascii (padded width z)).
Proof.
  intros H. unfold numeral.
  rewrite string_of_list_ascii_length, padded_length, list_ascii_of_string_of_list_ascii.
  split; [reflexivity | now apply padded_numeral].
Qed.

Lemma daysInMonth_range (y m : Z) : 28 <= daysInMonth y m <= 31.
Proof.
  unfold daysInMonth.
  destruct (m =? 2); [destruct (leapYear y); lia |].
  destruct ((m =? 4) || (m =? 6) || (m =? 9) || (m =? 11)); lia.
Qed.

(** X3.  The [date] of an event DTO has 10 characters (code units, one
    byte each), whatever the instant of the event; for the years 0000 to
    9999 it is the day of the instant (in universal time) written
    [YYYY-MM-DD]: the year on four digits, the month and the day of the
    month on two, of the calendar date whose day count from 1 January 1970
    is the number of whole days of the instant. *)
Theorem toEventDTO_date (e : EventDetails.t) :
  exists y m d : Z,
    calendarDate y m d
    /\ dayNumber y m d = EventDetails.eventDate e / 86400000
    /\ lengthOf (EventDTO.date (toEventDTO e)) = 10%nat
    /\ String.length (EventDTO.date (toEventDTO e)) = 10%nat
    /\ (0 <= y <= 9999 ->
        exists yyyy mm dd : string,
          EventDTO.date (toEventDTO e) = yyyy ++ "-" ++ mm ++ "-" ++ dd
          /\ numeral 4 y yyyy /\ numeral 2 m mm /\ numeral 2 d dd).
Proof.
  destruct (civilFromDays_calendar (EventDetails.eventDate e / 86400000))
    as (y & m & d & C & V & N).
  exists y, m, d. split; [exact V |]. split; [exact N |].
  unfold toEventDTO, sliceString. cbn [EventDTO.date].
  change (ofZ 10) with (ofZ (Z.of_nat 10)). rewrite slice0_count.
  pose proof (toISOString_length (EventDetails.eventDate e)) as L.
  split; [| split].
  - rewrite lengthOf_below_128, length_firstn; [lia |].
    apply Forall_firstn_of, toISOString_below_128.
  - rewrite string_of_list_ascii_length, length_firstn. lia.
  - intros Hy. unfold toISOString. rewrite C.
    destruct (Z.leb_spec 0 y); [| lia]. destruct (Z.leb_spec y 9999); [| lia].
    cbn [andb]. rewrite list_ascii_of_string_of_list_ascii.
    exists (string_of_list_ascii (padded 4 y)),
           (string_of_list_ascii (padded 2 m)),
           (string_of_list_ascii (padded 2 d)).
    destruct V as [Vm Vd]. pose proof (daysInMonth_range y m).
    split; [| split; [| split]]; try (apply numeral_padded; simpl; lia).
    set (rest := ("T"%char :: _)%list).
    replace (padded 4 y ++ "-"%char :: padded 2 m ++ "-"%char :: padded 2 d ++ rest)%list
      with ((padded 4 y ++ "-"%char :: padded 2 m ++ "-"%char :: padded 2 d) ++ rest)%list
      by (repeat (rewrite <- app_assoc; cbn [app]); reflexivity).
    replace 10%nat
      with (List.length (padded 4 y ++ "-"%char :: padded 2 m ++ "-"%char :: padded 2 d))
      by (repeat (rewrite length_app || rewrite length_cons || rewrite padded_length);
          reflexivity).
    rewrite firstn_exact.
    rewrite string_of_list_ascii_app'. reflexivity.
Qed.

(** The sample event of 1 March 2024; a leap day; the last millisecond
    before 1970; and the year 10000, whose date is cut after the month. *)
Example toEventDTO_date_sample :
  EventDTO.date (toEventDTO (Sample.event "e1" "Food drive" 1709251200000)) = "2024-03-01"
  /\ EventDTO.date (toEventDTO (Sample.event "e1" "Food drive" 1709164800000))
     = "2024-02-29"
  /\ EventDTO.date (toEventDTO (Sample.event "e1" "Food drive" (-1))) = "1969-12-31"
  /\ EventDTO.date (toEventDTO (Sample.event "e1" "Food drive" 253402300800000))
     = "+010000-01".
Proof. vm_compute. repeat split. Qed.

End Lists.

(* ===================================================================== *)
(** ** More on the ranking                                                *)
(* ===================================================================== *)

Section Ties.

(** Among numbers above 0, two that are tied with a third are tied. *)
Lemma tied_not_gt (c x y : number) :
  gt0 c = true -> gt0 x = true -> gt0 y = true ->
  gt x c = false -> gt c x = false -> gt y c = false -> gt c y = false ->
  gt y x = false.
Proof.
  destruct c, x, y; simpl; try congruence.
  unfold Qltb. rewrite !negb_true_iff, !negb_false_iff, !Qle_bool_iff.
  intros _ _ _ H1 H2 H3 H4.
  apply Qle_trans with q; assumption.
Qed.

Variable score : VolunteerDTO.t -> EventDTO.t -> number.

Lemma insert_tied (c x : Ranked.t) (l : list Ranked.t) :
  matches c = true -> matches x = true -> Forall (fun y => matches y = true) l ->
  filter (tied c) (JS.insert byScoreDesc x l) = filter (tied c) (x :: l).
Proof.
  intros Hc Hx Hl. induction Hl as [| y l Hy Hl IH]; [reflexivity |].
  simpl JS.insert. destruct (gt0 (byScoreDesc x y)) eqn:E; [| reflexivity].
  unfold byScoreDesc in E. rewrite gt0_sub_gt in E.
  change (filter (tied c) (y :: JS.insert byScoreDesc x l))
    with (if tied c y then y :: filter (tied c) (JS.insert byScoreDesc x l)
          else filter (tied c) (JS.insert byScoreDesc x l)).
  rewrite IH. simpl.
  destruct (tied c x) eqn:Tx, (tied c y) eqn:Ty; try reflexivity.
  exfalso. unfold tied in Tx, Ty.
  apply andb_true_iff in Tx, Ty. destruct Tx as [T1 T2], Ty as [T3 T4].
  apply negb_true_iff in T1, T2, T3, T4.
  pose proof (tied_not_gt (Ranked.score c) (Ranked.score x) (Ranked.score y)
                Hc Hx Hy T1 T2 T3 T4).
  congruence.
Qed.

(** X4.  The ranking is stable: the entries with the same score as a
    matching entry [c] come in the order the store listed their events. *)
Theorem ranking_keeps_store_order_of_ties (vDTO : VolunteerDTO.t)
  (events : list EventDetails.t) (c : Ranked.t) :
  matches c = true ->
  filter (tied c) (sort byScoreDesc (filter matches (map (scoreEvent score vDTO) events)))
  = filter (tied c) (filter matches (map (scoreEvent score vDTO) events)).
Proof.
  intros Hc.
  assert (H : Forall (fun y => matches y = true)
                     (filter matches (map (scoreEvent score vDTO) events))).
  { apply Forall_forall. intros x Hx. now apply filter_In in Hx. }
  induction H as [| x l Hx Hl IH]; [reflexivity |].
  simpl JS.sort. rewrite insert_tied.
  - simpl. now rewrite IH.
  - assumption.
  - assumption.
  - now apply (Permutation_Forall (sort_perm byScoreDesc l)).
Qed.

End Ties.

(** Two events with the score of the first sample event: they keep the
    order of the store. *)
Lemma ranking_keeps_store_order_of_ties_witness :
  let c := scoreEvent Sample.score1 (toVolunteerDTO Sample.volunteer)
                      (Sample.event "e1" "Food drive" 1709251200000) in
  filter (tied c)
         (sort byScoreDesc
            (filter matches
               (map (scoreEvent Sample.score1 (toVolunteerDTO Sample.volunteer))
                    Sample.events)))
  = filter (tied c)
           (filter matches
              (map (scoreEvent Sample.score1 (toVolunteerDTO Sample.volunteer))
                   Sample.events)).
Proof.
  apply (ranking_keeps_store_order_of_ties Sample.score1 (toVolunteerDTO Sample.volunteer)
           Sample.events). reflexivity.
Defined.

Section TopN.

Variable score : VolunteerDTO.t -> EventDTO.t -> number.

Lemma slice0_PosInf {A : Type} (l : list A) : slice l (ofZ 0) PosInf = l.
Proof.
  rewrite slice0. unfold relativeIndex. simpl. rewrite Nat2Z.id. apply firstn_all.
Qed.

Lemma slice0_negative {A : Type} (l : list A) (k : nat) :
  (0 < k)%nat ->
  slice l (ofZ 0) (ofZ (- Z.of_nat k)) = firstn (List.length l - k) l.
Proof.
  intros Hk. rewrite slice0. unfold relativeIndex, ofZ, toIntegerOrInfinity.
  rewrite truncate_inject.
  destruct (Z.ltb_spec (- Z.of_nat k) 0); [| lia].
  f_equal. lia.
Qed.

(** X5.  A negative [topN] does not give an empty answer: [topN = -k]
    drops the [k] lowest-ranked entries of the ranking (all of them when
    there are no more than [k]). *)
Theorem rankForVolunteer_negative_topN (w : World) (id : string) (q : option query)
  (v : UserProfile.t) (k : nat) :
  reliable (faults w) = true ->
  storedVolunteer w id = Some v ->
  (0 < k)%nat ->
  topNOf q = ofZ (- Z.of_nat k) ->
  let ranked := fullRanking score (toVolunteerDTO v) (eventDetails (db w)) in
  fst (rankForVolunteer score id q w)
  = Ok {| status := 200;
          body := Ranking (firstn (List.length ranked - k) ranked) |}.
Proof.
  intros Hf Hv Hk Hq ranked.
  rewrite (rankForVolunteer_run score w id q v Hf Hv). simpl fst.
  now rewrite rank_slice, Hq, slice0_negative.
Qed.

(** X6.  A [topN] that [Number] turns into [Infinity] lifts the limit: the
    whole ranking is returned. *)
Theorem rankForVolunteer_infinite_topN (w : World) (id : string) (q : option query)
  (v : UserProfile.t) :
  reliable (faults w) = true ->
  storedVolunteer w id = Some v ->
  topNOf q = PosInf ->
  fst (rankForVolunteer score id q w)
  = Ok {| status := 200;
          body := Ranking (fullRanking score (toVolunteerDTO v) (eventDetails (db w))) |}.
Proof.
  intros Hf Hv Hq.
  rewrite (rankForVolunteer_run score w id q v Hf Hv). simpl fst.
  now rewrite rank_slice, Hq, slice0_PosInf.
Qed.

Lemma trim_empty_chars (s : string) :
  trim s = "" -> trimChars (list_ascii_of_string s) = [].
Proof.
  unfold trim. intros H.
  rewrite <- (list_ascii_of_string_of_list_ascii (trimChars (list_ascii_of_string s))).
  now rewrite H.
Qed.

(** X7.  A [topN] that is present but blank ([?topN=], or white space) is
    not the default: [Number] makes it 0 and the answer is 200 with an
    empty list. *)
Theorem rankForVolunteer_blank_topN (w : World) (id : string) (s : string)
  (v : UserProfile.t) :
  reliable (faults w) = true ->
  storedVolunteer w id = Some v ->
  trim s = "" ->
  fst (rankForVolunteer score id (Some (QString s)) w)
  = Ok {| status := 200; body := Ranking [] |}.
Proof.
  intros Hf Hv Hs.
  rewrite (rankForVolunteer_run score w id (Some (QString s)) v Hf Hv). simpl fst.
  rewrite rank_slice. unfold topNOf, Number, stringToNumber. simpl queryToString.
  rewrite (trim_empty_chars s Hs).
  change (Fin 0) with (ofZ (Z.of_nat 0)). now rewrite slice0_count.
Qed.

End TopN.

Lemma rankForVolunteer_negative_topN_witness :
  let ranked := fullRanking Sample.score (toVolunteerDTO Sample.volunteer)
                            (eventDetails (db Sample.world)) in
  fst (rankForVolunteer Sample.score "v1" (Some (QString "-1")) Sample.world)
  = Ok {| status := 200;
          body := Ranking (firstn (List.length ranked - 1) ranked) |}.
Proof.
  apply (rankForVolunteer_negative_topN Sample.score Sample.world "v1"
           (Some (QString "-1")) Sample.volunteer 1); try reflexivity. lia.
Defined.

(** With the sample scores 5, 9 and 1, [topN=-1] leaves 9 and 5. *)
Example rankForVolunteer_negative_topN_sample :
  exists a b : Ranked.t,
    fst (rankForVolunteer Sample.score "v1" (Some (QString "-1")) Sample.world)
    = Ok {| status := 200; body := Ranking [a; b] |}
    /\ Ranked.score a = ofZ 9 /\ Ranked.score b = ofZ 5.
Proof. eexists; eexists. vm_compute. repeat split. Qed.

Lemma rankForVolunteer_infinite_topN_witness :
  fst (rankForVolunteer Sample.score "v1" (Some (QString "Infinity")) Sample.world)
  = Ok {| status := 200;
          body := Ranking (fullRanking Sample.score (toVolunteerDTO Sample.volunteer)
                                       (eventDetails (db Sample.world))) |}.
Proof.
  apply (rankForVolunteer_infinite_topN Sample.score Sample.world "v1"
           (Some (QString "Infinity")) Sample.volunteer); reflexivity.
Defined.

Lemma rankForVolunteer_blank_topN_witness :
  fst (rankForVolunteer Sample.score "v1" (Some (QString " ")) Sample.world)
  = Ok {| status := 200; body := Ranking [] |}.
Proof.
  apply (rankForVolunteer_blank_topN Sample.score Sample.world "v1" " " Sample.volunteer);
    reflexivity.
Defined.

(* ===================================================================== *)
(** ** More on the assignment                                             *)
(* ===================================================================== *)

Section AssignOutcomes.

Ltac round_trips :=
  repeat match goal with
  | |- context [roundTrip ?w] =>
      let T := fresh "T" in
      pose proof (roundTrip_world w) as T;
      destruct (roundTrip w) as [[[] | ?] ?]; simpl in T; subst; simpl
  end.

(** X8.  Whatever the request and whatever the store does, the route
    answers, and it publishes exactly when it answers 200: then one
    assignment and one notice have been added and one event published;
    with any other status nothing is published and no notice is stored. *)
Theorem assign_publishes_iff_200 (w : World) (reqBody : option value) :
  exists (r : response) (w' : World),
    assign reqBody w = (Ok r, w')
    /\ ((status r = 200
         /\ (exists a, assignment (db w') = (assignment (db w) ++ [a])%list)
         /\ (exists n, notice (db w') = (notice (db w) ++ [n])%list)
         /\ (exists ev, emitted w' = (emitted w ++ [ev])%list))
        \/ (status r <> 200
            /\ notice (db w') = notice (db w)
            /\ emitted w' = emitted w)).
Proof.
  unfold assign.
  destruct (negb _ || negb _)%bool.
  { eexists; eexists. split; [reflexivity |]. right. simpl. repeat split. discriminate. }
  unfold tryCatch, bind, promiseAll, userProfile_findUnique, eventDetails_findUnique,
    bind, stringArg, throw, ret, read, sendStatus, ret.
  destruct (getField (orEmptyObject reqBody) "volunteerId") as [[| | | vid | |] |];
    destruct (getField (orEmptyObject reqBody) "eventId") as [[| | | eid | |] |];
    round_trips;
    try (eexists; eexists; split; [reflexivity |]; right; simpl;
         repeat split; discriminate).
  all: destruct (find _ (userProfile _)) as [v |];
    [destruct (find _ (eventDetails _)) as [e |] |];
    try (eexists; eexists; split; [reflexivity |]; right; simpl;
         repeat split; discriminate).
  all: unfold assignment_create, notice_create, bind, stringArg, ret, freshId, clockMs,
    write, emit, send, ret; round_trips;
    try (eexists; eexists; split; [reflexivity |]; right; simpl;
         repeat split; discriminate).
  all: eexists; eexists; split; [reflexivity |]; left; simpl;
    repeat split; eexists; reflexivity.
Qed.

(** The assignment that went through, with the world it leaves. *)
Lemma assign_run_world (w : World) (reqBody : option value) (vid eid : string)
  (v : UserProfile.t) (e : EventDetails.t) :
  bodyVolunteerId reqBody = Some (JStr vid) ->
  bodyEventId reqBody = Some (JStr eid) ->
  vid <> "" -> eid <> "" ->
  reliable (faults w) = true ->
  storedVolunteer w vid = Some v ->
  storedEvent w eid = Some e ->
  snd (assign reqBody w) = assigned w vid eid e.
Proof.
  unfold bodyVolunteerId, bodyEventId, storedVolunteer, storedEvent.
  intros Hv He Nv Ne Hf Sv Se.
  unfold assign. rewrite Hv, He, (truthy_string vid Nv), (truthy_string eid Ne).
  cbn [negb orb].
  unfold tryCatch, bind, promiseAll, userProfile_findUnique, eventDetails_findUnique,
    bind, stringArg, ret, read.
  store_answers. rewrite !db_tick, Sv, Se.
  unfold assignment_create, notice_create, bind, stringArg, ret, freshId, clockMs,
    write, emit, send, ret.
  store_answers. reflexivity.
Qed.

(** X9.  The two writes are not one unit: when the lookups and the
    creation of the assignment go through and the creation of the notice
    fails, the answer is 500, the assignment stays stored, and there is
    neither a notice nor a published event. *)
Theorem assign_keeps_assignment_when_notice_fails (w : World) (reqBody : option value)
  (vid eid : string) (v : UserProfile.t) (e : EventDetails.t) (f : list bool) :
  bodyVolunteerId reqBody = Some (JStr vid) ->
  bodyEventId reqBody = Some (JStr eid) ->
  vid <> "" -> eid <> "" ->
  faults w = false :: false :: false :: true :: f ->
  storedVolunteer w vid = Some v ->
  storedEvent w eid = Some e ->
  exists w' : World,
    assign reqBody w = (Ok {| status := 500; body := Error "assign_failed" |}, w')
    /\ assignment (db w') = (assignment (db w) ++ [newAssignment w vid eid])%list
    /\ notice (db w') = notice (db w)
    /\ emitted w' = emitted w.
Proof.
  unfold bodyVolunteerId, bodyEventId, storedVolunteer, storedEvent.
  intros Hv He Nv Ne Hf Sv Se.
  unfold assign. rewrite Hv, He, (truthy_string vid Nv), (truthy_string eid Ne).
  cbn [negb orb].
  unfold tryCatch, bind, promiseAll, userProfile_findUnique, eventDetails_findUnique,
    bind, stringArg, ret, read.
  unfold assignment_create, notice_create, bind, stringArg, ret, freshId, clockMs,
    write, emit, send, ret, roundTrip.
  destruct w as [d em fs t ms nid]. simpl in Hf, Sv, Se. subst fs.
  simpl. rewrite Sv, Se. simpl.
  eexists. split; [reflexivity |]. repeat split.
Qed.

(** X10.  Nothing keeps a volunteer from being assigned to the same event
    twice: the same request, sent again, goes through again and stores a
    second assignment of the same volunteer to the same event, under
    another id. *)
Theorem assign_twice_stores_two (w : World) (reqBody : option value)
  (vid eid : string) (v : UserProfile.t) (e : EventDetails.t) :
  bodyVolunteerId reqBody = Some (JStr vid) ->
  bodyEventId reqBody = Some (JStr eid) ->
  vid <> "" -> eid <> "" ->
  reliable (faults w) = true ->
  storedVolunteer w vid = Some v ->
  storedEvent w eid = Some e ->
  let w1 := snd (assign reqBody w) in
  exists (a1 a2 : Assignment.t) (r : response) (w2 : World),
    assign reqBody w1 = (Ok r, w2)
    /\ status r = 200
    /\ assignment (db w2) = (assignment (db w) ++ [a1; a2])%list
    /\ Assignment.volunteerId a1 = vid /\ Assignment.volunteerId a2 = vid
    /\ Assignment.eventId a1 = eid /\ Assignment.eventId a2 = eid
    /\ Assignment.id a1 <> Assignment.id a2.
Proof.
  intros Hv He Nv Ne Hf Sv Se w1.
  assert (W1 : w1 = assigned w vid eid e) by now apply (assign_run_world w reqBody vid eid v e).
  assert (Hf1 : reliable (faults w1) = true).
  { rewrite W1. simpl. now repeat apply reliable_tl. }
  assert (Sv1 : storedVolunteer w1 vid = Some v) by (rewrite W1; exact Sv).
  assert (Se1 : storedEvent w1 eid = Some e) by (rewrite W1; exact Se).
  destruct (assign_run w1 reqBody vid eid v e Hv He Nv Ne Hf1 Sv1 Se1) as (w2 & R & D & _).
  exists (newAssignment w vid eid), (newAssignment w1 vid eid). eexists. exists w2.
  split; [exact R |]. split; [reflexivity |].
  rewrite D, W1. simpl. rewrite <- app_assoc. simpl.
  repeat split. lia.
Qed.

End AssignOutcomes.

Lemma assign_keeps_assignment_when_notice_fails_witness :
  let reqBody := Some (JObj [("volunteerId", JStr "v1"); ("eventId", JStr "e2")]) in
  let w := Sample.worldWith Sample.events [false; false; false; true] in
  exists w' : World,
    assign reqBody w = (Ok {| status := 500; body := Error "assign_failed" |}, w')
    /\ assignment (db w') = (assignment (db w) ++ [newAssignment w "v1" "e2"])%list
    /\ notice (db w') = notice (db w)
    /\ emitted w' = emitted w.
Proof.
  apply (assign_keeps_assignment_when_notice_fails
           (Sample.worldWith Sample.events [false; false; false; true])
           (Some (JObj [("volunteerId", JStr "v1"); ("eventId", JStr "e2")]))
           "v1" "e2" Sample.volunteer (Sample.event "e2" "Shelter shift" 1709337600000) []);
    try reflexivity; discriminate.
Defined.

Lemma assign_twice_stores_two_witness :
  let reqBody := Some (JObj [("volunteerId", JStr "v1"); ("eventId", JStr "e2")]) in
  let w1 := snd (assign reqBody Sample.world) in
  exists (a1 a2 : Assignment.t) (r : response) (w2 : World),
    assign reqBody w1 = (Ok r, w2)
    /\ status r = 200
    /\ assignment (db w2) = (assignment (db Sample.world) ++ [a1; a2])%list
    /\ Assignment.volunteerId a1 = "v1" /\ Assignment.volunteerId a2 = "v1"
    /\ Assignment.eventId a1 = "e2" /\ Assignment.eventId a2 = "e2"
    /\ Assignment.id a1 <> Assignment.id a2.
Proof.
  apply (assign_twice_stores_two Sample.world
           (Some (JObj [("volunteerId", JStr "v1"); ("eventId", JStr "e2")]))
           "v1" "e2" Sample.volunteer (Sample.event "e2" "Shelter shift" 1709337600000));
    try reflexivity; discriminate.
Defined.

(* ===================================================================== *)
(** ** More on the seed script                                            *)
(* ===================================================================== *)

Section Keeps.

Variable Rel : Tables -> Tables -> Prop.
Hypothesis Rel_refl : forall d, Rel d d.
Hypothesis Rel_trans : forall d1 d2 d3, Rel d1 d2 -> Rel d2 d3 -> Rel d1 d3.

Lemma keeps_ret {A : Type} (a : A) : keeps Rel (ret a).
Proof. intros w. apply Rel_refl. Qed.

Lemma keeps_throw {A : Type} (e : exn) : keeps Rel (@throw A e).
Proof. intros w. apply Rel_refl. Qed.

Lemma keeps_roundTrip : keeps Rel roundTrip.
Proof. intros w. rewrite roundTrip_world. apply Rel_refl. Qed.

Lemma keeps_clock : keeps Rel clock.
Proof. intros w. apply Rel_refl. Qed.

Lemma keeps_write (f : Tables -> Tables) : (forall d, Rel d (f d)) -> keeps Rel (write f).
Proof. intros H w. apply H. Qed.

Lemma keeps_bind {A B : Type} (m : M A) (k : A -> M B) :
  keeps Rel m -> (forall a, keeps Rel (k a)) -> keeps Rel (bind m k).
Proof.
  intros Hm Hk w. unfold bind. specialize (Hm w).
  destruct (m w) as [[a | e] w1]; simpl in *; [| exact Hm].
  eapply Rel_trans; [exact Hm | apply Hk].
Qed.

Lemma keeps_bind_result {A B : Type} (m : M A) (k : A -> M B) :
  keeps Rel m -> (forall w a w', m w = (Ok a, w') -> keeps Rel (k a)) ->
  keeps Rel (bind m k).
Proof.
  intros Hm Hk w. unfold bind. specialize (Hm w). specialize (Hk w).
  destruct (m w) as [[a | e] w1]; simpl in *; [| exact Hm].
  eapply Rel_trans; [exact Hm | now apply (Hk a w1)].
Qed.

Lemma keeps_dateArg (d : option Date) : keeps Rel (dateArg d).
Proof.
  intros w. unfold dateArg. destruct d as [t |]; [| apply Rel_refl].
  destruct ((0 <=? getUTCFullYear t) && (getUTCFullYear t <=? 9999)); apply Rel_refl.
Qed.

Lemma keeps_tryCatch {A : Type} (m h : M A) :
  keeps Rel m -> keeps Rel h -> keeps Rel (tryCatch m h).
Proof.
  intros Hm Hh w. unfold tryCatch. specialize (Hm w).
  destruct (m w) as [[a | e] w1]; simpl in *; [exact Hm |].
  eapply Rel_trans; [exact Hm | apply Hh].
Qed.

Lemma keeps_forEach {A : Type} (l : list A) (f : A -> M unit) :
  (forall x, keeps Rel (f x)) -> keeps Rel (Seed.forEach l f).
Proof.
  intros H. induction l as [| x l IH]; simpl.
  - apply keeps_ret.
  - apply keeps_bind; [apply H | intros _; exact IH].
Qed.

(** A transaction counts for what its body does when it returns: what a
    body that throws has written is undone. *)
Lemma keeps_transaction {A : Type} (m : M A) :
  (forall w a w', m w = (Ok a, w') -> Rel (db w) (db w')) ->
  keeps Rel (transaction m).
Proof.
  intros H w. unfold transaction.
  destruct (m w) as [[a | e] w1] eqn:E; [| apply Rel_refl].
  pose proof (roundTrip_world w1) as T.
  destruct (roundTrip w1) as [[[] | e] w2]; simpl in T; subst; simpl.
  - now apply (H w a).
  - apply Rel_refl.
Qed.

End Keeps.

Section SeedFrame.

Variable demoVols : list DemoVol.t.
Variable demoEvents : list DemoEvent.t.
Variable parseDate : string -> option Date.

Lemma extends_refl {A : Type} (l : list A) : extends l l.
Proof. exists []. now rewrite app_nil_r. Qed.

Lemma extends_trans {A : Type} (l1 l2 l3 : list A) :
  extends l1 l2 -> extends l2 l3 -> extends l1 l3.
Proof. intros [a ->] [b ->]. exists (a ++ b)%list. now rewrite app_assoc. Qed.

Lemma seedExtends_refl (d : Tables) : seedExtends d d.
Proof. unfold seedExtends. repeat split; apply extends_refl. Qed.

Lemma seedExtends_trans (d1 d2 d3 : Tables) :
  seedExtends d1 d2 -> seedExtends d2 d3 -> seedExtends d1 d3.
Proof.
  intros (C1 & S1 & P1 & E1 & A1 & N1) (C2 & S2 & P2 & E2 & A2 & N2).
  unfold seedExtends.
  repeat split; try (eapply extends_trans; eassumption); congruence.
Qed.

(** An upsert that updates nothing leaves the rows as they are. *)
Lemma upsertRow_same_extends {A : Type} (h : A -> bool) (c : A) (l : list A) :
  extends l (upsertRow h (fun r => r) c l).
Proof.
  induction l as [| r l [rows IH]]; simpl.
  - now exists [c].
  - destruct (h r); [apply extends_refl |]. exists rows. now rewrite IH.
Qed.

(** An upsert leaves the keys as they are, but for one it may add. *)
Lemma upsertRow_keys_extend {A : Type} (key : A -> string) (h : A -> bool)
  (upd : A -> A) (c : A) (l : list A) :
  (forall r, key (upd r) = key r) ->
  extends (map key l) (map key (upsertRow h upd c l)).
Proof.
  intros K. induction l as [| r l [rows IH]]; simpl.
  - now exists [key c].
  - destruct (h r); simpl.
    + rewrite K. apply extends_refl.
    + exists rows. now rewrite IH.
Qed.

Lemma volunteerUpserts_extends (v : DemoVol.t) (t : Date) (d : Tables) :
  seedExtends d (volunteerUpserts v t d).
Proof.
  unfold seedExtends, volunteerUpserts, upsert1. simpl.
  repeat split; try apply extends_refl.
  - apply upsertRow_same_extends.
  - now apply upsertRow_keys_extend.
Qed.

(** The transaction of a demo volunteer, when it returns, has done both
    upserts. *)
Lemma volunteer_body_ok (v : DemoVol.t) (w w' : World) (a : unit) :
  bind (Seed.userCredentials_upsert v) (fun _ => Seed.userProfile_upsert v) w = (Ok a, w') ->
  db w' = volunteerUpserts v (now w) (db w).
Proof.
  unfold Seed.userCredentials_upsert, Seed.userProfile_upsert, bind, write, clock.
  pose proof (roundTrip_world w) as T.
  destruct (roundTrip w) as [[[] | e] w1]; simpl in T; subst; simpl; [| discriminate].
  match goal with
  | |- context [roundTrip ?x] =>
      pose proof (roundTrip_world x) as T; destruct (roundTrip x) as [[[] | e] w2];
      simpl in T; subst; simpl; [| discriminate]
  end.
  intros H. injection H as _ <-. reflexivity.
Qed.

Lemma main_keeps (Rel : Tables -> Tables -> Prop) :
  (forall d, Rel d d) ->
  (forall d1 d2 d3, Rel d1 d2 -> Rel d2 d3 -> Rel d1 d3) ->
  (forall s d, Rel d (setStates d
       (upsertRow (fun r => String.eqb (States.stateCode r) (States.stateCode s))
                  (fun r => r) s (states d)))) ->
  (forall v t d, Rel d (volunteerUpserts v t d)) ->
  (forall e d, Rel d (eventUpsert parseDate e d)) ->
  keeps Rel (Seed.main demoVols demoEvents parseDate).
Proof.
  intros Hr Ht Hs Hv He.
  unfold Seed.main, Seed.seedDemo, Seed.seedStates.
  apply keeps_tryCatch; auto using keeps_ret.
  apply keeps_bind; auto.
  { apply keeps_forEach; auto. intros s. unfold Seed.states_upsert.
    apply keeps_bind; auto using keeps_roundTrip.
    intros _. now apply keeps_write. }
  intros _. apply keeps_bind; auto using keeps_ret.
  apply keeps_bind; auto.
  { apply keeps_forEach; auto. intros v. apply keeps_transaction; auto.
    intros w a w' H. rewrite (volunteer_body_ok v w w' a H). apply Hv. }
  intros _. apply keeps_forEach; auto. intros e.
  unfold Seed.eventDetails_upsert.
  pose proof (He e) as He'. unfold eventUpsert, upsert1, dateOf in He'.
  apply keeps_bind_result; auto using keeps_dateArg.
  intros w t w' Hd. unfold dateArg in Hd.
  destruct (parseDate (DemoEvent.date e)) as [t' |]; [| discriminate].
  destruct ((0 <=? getUTCFullYear t') && (getUTCFullYear t' <=? 9999)); [| discriminate].
  injection Hd as -> _.
  apply keeps_bind; auto using keeps_roundTrip.
  intros _. now apply keeps_write.
Qed.

(** X11.  Whatever the store does and whatever the demo data is, a run of
    the seed script never removes a row, never changes a stored credential
    or state row (a stored password stays), never moves a profile or an
    event to another key, and leaves the assignments and the notices as
    they are. *)
Theorem seed_only_extends (w : World) :
  seedExtends (db w) (db (snd (Seed.main demoVols demoEvents parseDate w))).
Proof.
  apply (main_keeps seedExtends seedExtends_refl seedExtends_trans).
  - intros s d. unfold seedExtends. simpl.
    repeat split; try apply extends_refl. apply upsertRow_same_extends.
  - apply volunteerUpserts_extends.
  - intros e d. unfold seedExtends, eventUpsert, upsert1. simpl.
    repeat split; try apply extends_refl. now apply upsertRow_keys_extend.
Qed.

Lemma upsert1_key_in {R D : Type} (key : R -> string) (ident : D -> string)
  (upd : D -> R -> R) (mk : D -> R) (d : D) (t : list R) (k : string) :
  (forall d r, key (upd d r) = key r) ->
  (forall d, key (mk d) = ident d) ->
  In k (map key (upsert1 key ident upd mk d t)) <-> In k (map key t) \/ k = ident d.
Proof.
  intros Ku Km. rewrite (upsert1_keys key ident upd Ku mk Km).
  destruct (existsb _ t) eqn:E.
  - split; [now left |]. intros [H | ->]; [assumption |].
    now apply (existsb_key key).
  - rewrite in_app_iff. simpl. intuition.
Qed.

Lemma volunteerUpserts_paired (v : DemoVol.t) (t : Date) (d : Tables) :
  paired d -> paired (volunteerUpserts v t d).
Proof.
  intros P id. unfold volunteerUpserts. simpl.
  rewrite !upsert1_key_in by reflexivity.
  specialize (P id). tauto.
Qed.

(** X12.  A demo volunteer is seeded as a whole or not at all: if the user
    ids with credentials are those with a profile before a run of the
    script, they are after it, whatever call of the store fails. *)
Theorem seed_keeps_credentials_and_profiles_paired (w : World) :
  paired (db w) ->
  paired (db (snd (Seed.main demoVols demoEvents parseDate w))).
Proof.
  apply (main_keeps (fun d d' => paired d -> paired d')).
  - intros d H. exact H.
  - intros d1 d2 d3 H1 H2 H. exact (H2 (H1 H)).
  - intros s d H. exact H.
  - intros v t d. apply volunteerUpserts_paired.
  - intros e d H. exact H.
Qed.

End SeedFrame.

Lemma seed_keeps_credentials_and_profiles_paired_witness :
  paired (db (snd (Seed.main Sample.demoVols Sample.demoEvents Sample.parseDate
                     (Sample.worldWith Sample.events (repeat false 54 ++ [true]))))).
Proof.
  apply (seed_keeps_credentials_and_profiles_paired Sample.demoVols Sample.demoEvents
           Sample.parseDate (Sample.worldWith Sample.events (repeat false 54 ++ [true]))).
  intros id. simpl. tauto.
Defined.

(** In that run the store fails on the profile of the second demo
    volunteer: the script exits with 1 and the credentials it had just
    created for that volunteer are gone again. *)
Example seed_rolls_back_sample :
  let r := Seed.main Sample.demoVols Sample.demoEvents Sample.parseDate
             (Sample.worldWith Sample.events (repeat false 54 ++ [true])) in
  fst r = Ok 1
  /\ map UserCredentials.userId (userCredentials (db (snd r))) = ["v1"]
  /\ map UserProfile.userId (userProfile (db (snd r))) = ["v1"].
Proof. vm_compute. repeat split. Qed.

Section SeededRows.

Context {R D : Type}.
Variable key : R -> string.
Variable ident : D -> string.
Variable upd : D -> R -> R.
Variable mk : D -> R.
Hypothesis key_upd : forall d r, key (upd d r) = key r.
Hypothesis key_mk : forall d, key (mk d) = ident d.

Lemma upsert1_step_in (d : D) (t : list R) (r : R) :
  NoDup (map key t) -> In r t ->
  In (step key ident upd d r) (upsert1 key ident upd mk d t).
Proof.
  unfold upsert1, step. induction t as [| r0 t IH]; simpl; intros Hnd Hin; [contradiction |].
  inversion Hnd as [| ? ? Hr Ht]; subst.
  destruct (String.eqb (key r0) (ident d)) eqn:E0.
  - destruct Hin as [<- | Hin]; [rewrite E0; now left |].
    destruct (String.eqb (key r) (ident d)) eqn:E; [| now right].
    apply String.eqb_eq in E0, E. exfalso. apply Hr. rewrite E0, <- E. now apply in_map.
  - destruct Hin as [<- | Hin]; [rewrite E0; now left |].
    right. now apply IH.
Qed.

(** A row that is there comes out of the upserts as the row-wise steps
    make it. *)
Lemma seedRows_steps_in (ds : list D) : forall (t : list R) (r : R),
  NoDup (map key t) -> In r t ->
  In (steps key ident upd ds r) (seedRows key ident upd mk ds t).
Proof.
  induction ds as [| d ds IH]; intros t r Hnd Hin; simpl; [assumption |].
  apply IH.
  - now apply upsert1_NoDup.
  - now apply upsert1_step_in.
Qed.

End SeededRows.

Section SeedContent.

Variable demoVols : list DemoVol.t.
Variable demoEvents : list DemoEvent.t.
Variable parseDate : string -> option Date.

(** X13.  After a run that went through, a profile that was there before
    has the user id and the creation time it had, and the columns the
    script sets: the name of the last demo volunteer listed under its user
    id as full name, that volunteer's location as first address line and
    as city, "TX" as state, "00000" as zip code, the volunteer's skills,
    no preferences and an empty availability.  A profile whose user id is
    not in the demo data is as it was. *)
Theorem seed_overwrites_profile_keeps_creation_time (w : World) (p : UserProfile.t) :
  uniqueKeys (db w) ->
  reliable (faults w) = true ->
  datesParse demoEvents parseDate ->
  In p (userProfile (db w)) ->
  let after := userProfile (db (snd (Seed.main demoVols demoEvents parseDate w))) in
  match lastWith DemoVol.id (UserProfile.userId p) demoVols with
  | Some v =>
      exists q : UserProfile.t,
        In q after
        /\ UserProfile.userId q = UserProfile.userId p
        /\ UserProfile.createdAt q = UserProfile.createdAt p
        /\ UserProfile.fullName q = DemoVol.name v
        /\ UserProfile.address1 q = DemoVol.location v
        /\ UserProfile.city q = DemoVol.location v
        /\ UserProfile.state q = "TX"
        /\ UserProfile.zipCode q = "00000"
        /\ UserProfile.skills q = DemoVol.skills v
        /\ UserProfile.preferences q = JNull
        /\ UserProfile.availability q = JArr []
  | None => In p after
  end.
Proof.
  intros (_ & Hnd & _ & _) Hf Hp Hin after.
  destruct (main_runs demoVols demoEvents parseDate Hp w Hf) as (w1 & E1 & D1 & _ & _).
  unfold after. rewrite E1. simpl snd. rewrite D1. simpl userProfile.
  unfold seededProfiles.
  pose proof (seedRows_steps_in UserProfile.userId DemoVol.id
                (fun v r => Seed.profileOf v (UserProfile.userId r) (UserProfile.createdAt r))
                (fun v => Seed.profileOf v (DemoVol.id v) (now w))
                (fun _ _ => eq_refl) (fun _ => eq_refl)
                demoVols (userProfile (db w)) p Hnd Hin) as H.
  rewrite steps_last in H by reflexivity.
  destruct (lastWith DemoVol.id (UserProfile.userId p) demoVols) as [v |]; [| exact H].
  eexists. split; [exact H |]. simpl. repeat split.
Qed.

End SeedContent.

Lemma seed_overwrites_profile_keeps_creation_time_witness :
  let after :=
    userProfile
      (db (snd (Seed.main Sample.demoVols Sample.demoEvents Sample.parseDate
                  Sample.world))) in
  match lastWith DemoVol.id (UserProfile.userId Sample.volunteer) Sample.demoVols with
  | Some v =>
      exists q : UserProfile.t,
        In q after
        /\ UserProfile.userId q = UserProfile.userId Sample.volunteer
        /\ UserProfile.createdAt q = UserProfile.createdAt Sample.volunteer
        /\ UserProfile.fullName q = DemoVol.name v
        /\ UserProfile.address1 q = DemoVol.location v
        /\ UserProfile.city q = DemoVol.location v
        /\ UserProfile.state q = "TX"
        /\ UserProfile.zipCode q = "00000"
        /\ UserProfile.skills q = DemoVol.skills v
        /\ UserProfile.preferences q = JNull
        /\ UserProfile.availability q = JArr []
  | None => In Sample.volunteer after
  end.
Proof.
  apply (seed_overwrites_profile_keeps_creation_time Sample.demoVols Sample.demoEvents
           Sample.parseDate Sample.world Sample.volunteer).
  - unfold uniqueKeys. simpl.
    repeat split; repeat constructor; simpl; intuition discriminate.
  - reflexivity.
  - exact sample_dates_taken.
  - simpl. now left.
Defined.

(** In the sample run the stored profile of [v1] (Ada Young of Houston,
    created at 1700000000000) takes the values of the second entry listed
    for [v1] and keeps its creation time. *)
Example seed_overwrites_profile_sample :
  lastWith DemoVol.id "v1" Sample.demoVols
  = Some {| DemoVol.id := "v1"; DemoVol.name := "Ada Y."; DemoVol.location := "Dallas";
            DemoVol.skills := JArr [JStr "Logistics"] |}
  /\ find (fun p => String.eqb (UserProfile.userId p) "v1")
       (userProfile
          (db (snd (Seed.main Sample.demoVols Sample.demoEvents Sample.parseDate
                      Sample.world))))
     = Some {| UserProfile.userId := "v1"; UserProfile.fullName := "Ada Y.";
               UserProfile.address1 := "Dallas"; UserProfile.city := "Dallas";
               UserProfile.state := "TX"; UserProfile.zipCode := "00000";
               UserProfile.skills := JArr [JStr "Logistics"];
               UserProfile.preferences := JNull;
               UserProfile.availability := JArr [];
               UserProfile.createdAt := 1700000000000 |}.
Proof. vm_compute. split; reflexivity. Qed.

Section SeedExit.

Variable demoVols : list DemoVol.t.
Variable demoEvents : list DemoEvent.t.
Variable parseDate : string -> option Date.

Lemma datesParse_dec (l : list DemoEvent.t) :
  {datesParse l parseDate} + {~ datesParse l parseDate}.
Proof.
  apply Forall_dec. intros e. unfold taken.
  destruct (parseDate (DemoEvent.date e)) as [t |].
  - destruct (Z_le_dec 0 (getUTCFullYear t)) as [H1 | H1];
      [destruct (Z_le_dec (getUTCFullYear t) 9999) as [H2 | H2] |].
    + left. exists t. auto.
    + right. intros (t' & E & H). injection E as <-. lia.
    + right. intros (t' & E & H). injection E as <-. lia.
  - right. intros (t' & E & _). discriminate.
Qed.

(** The events: the first date the store does not take stops the
    script. *)
Lemma events_stop_at_invalid_date (l : list DemoEvent.t) : forall w : World,
  reliable (faults w) = true ->
  ~ datesParse l parseDate ->
  exists w' : World,
    Seed.forEach l (Seed.eventDetails_upsert parseDate) w = (Thrown InvalidArgument, w').
Proof.
  induction l as [| e l IH]; intros w Hf Hn.
  - exfalso. apply Hn. constructor.
  - simpl. unfold bind at 1.
    destruct (datesParse_dec [e]) as [Hp | Hp].
    + apply Forall_inv in Hp.
      destruct (eventDetails_upsert_runs parseDate e Hp w Hf) as (w1 & E1 & _ & _ & F1).
      rewrite E1. apply IH; [assumption |].
      intros H. apply Hn. constructor; assumption.
    + unfold Seed.eventDetails_upsert, bind. rewrite dateArg_refuses.
      * eexists. reflexivity.
      * intros H. apply Hp. constructor; [assumption | constructor].
Qed.

(** X14.  The script ends with an exit code, 0 or 1, whatever happens;
    with a store that answers, the code is 0 exactly when every date of
    the demo events is one the store takes: a valid date of a year from
    0000 to 9999. *)
Theorem seed_exit_code (w : World) :
  (fst (Seed.main demoVols demoEvents parseDate w) = Ok 0
   \/ fst (Seed.main demoVols demoEvents parseDate w) = Ok 1)
  /\ (reliable (faults w) = true ->
      (fst (Seed.main demoVols demoEvents parseDate w) = Ok 0
       <-> datesParse demoEvents parseDate)).
Proof.
  split.
  - unfold Seed.main, tryCatch, ret.
    destruct (bind _ _ w) as [[c | e] w1] eqn:E; [| now right].
    left. unfold bind in E.
    destruct (Seed.seedStates w) as [[[] | e1] w2]; [| discriminate].
    destruct (Seed.seedDemo demoVols demoEvents parseDate w2) as [[[] | e2] w3];
      [| discriminate].
    unfold ret in E. now injection E as <- _.
  - intros Hf. split.
    + intros H0. destruct (datesParse_dec demoEvents) as [Hp | Hn]; [assumption |].
      exfalso. revert H0.
      unfold Seed.main, Seed.seedDemo, tryCatch.
      destruct (seedStates_runs w Hf) as (w1 & E1 & _ & _ & F1).
      destruct (runs_forEach demoVols
                  (fun v => transaction (bind (Seed.userCredentials_upsert v)
                                              (fun _ => Seed.userProfile_upsert v)))
                  volunteerUpserts
                  (fun v _ => volunteer_transaction_runs v) w1 F1) as (w2 & E2 & _ & _ & F2).
      destruct (events_stop_at_invalid_date demoEvents w2 F2 Hn) as (w3 & E3).
      unfold bind at 1. rewrite E1.
      unfold bind at 1. unfold bind at 1. rewrite E2, E3. simpl. discriminate.
    + intros Hp.
      destruct (main_runs demoVols demoEvents parseDate Hp w Hf) as (w1 & E1 & _).
      now rewrite E1.
Qed.

End SeedExit.

Lemma seed_exit_code_witness :
  fst (Seed.main Sample.demoVols Sample.demoEvents Sample.parseDate Sample.world) = Ok 0
  <-> datesParse Sample.demoEvents Sample.parseDate.
Proof.
  apply (proj2 (seed_exit_code Sample.demoVols Sample.demoEvents Sample.parseDate
                  Sample.world)).
  reflexivity.
Defined.

(** A date of the year 10000 is a valid date, and stops the script: the
    events before it are stored, the exit code is 1. *)
Example seed_stops_at_the_year_10000 :
  let parse := fun s : string =>
    if String.eqb s "2024-03-02" then Some 253402300800000 else Sample.parseDate s in
  let r := Seed.main Sample.demoVols Sample.demoEvents parse Sample.world in
  getUTCFullYear 253402300800000 = 10000
  /\ getUTCFullYear 253402300799999 = 9999
  /\ fst r = Ok 1
  /\ map EventDetails.id (eventDetails (db (snd r))) = ["e1"; "e2"; "e3"].
Proof. vm_compute. repeat split. Qed.

(** With a date that is no date, the exit code is 1; the states and the
    volunteers have been seeded all the same. *)
Example seed_invalid_date_sample :
  let r := Seed.main Sample.demoVols Sample.demoEvents (fun _ => None) Sample.world in
  fst r = Ok 1
  /\ map UserProfile.userId (userProfile (db (snd r))) = ["v1"; "v2"]
  /\ List.length (states (db (snd r))) = 50%nat
  /\ eventDetails (db (snd r)) = eventDetails (db Sample.world).
Proof. vm_compute. repeat split. Qed.

(* ===================================================================== *)
(** ** More on the form                                                   *)
(* ===================================================================== *)

Section Payload.

Lemma trim_idem (s : string) : trim (trim s) = trim s.
Proof.
  apply strippedOf_trim. destruct (trim_strips s) as (_ & Hb & He).
  split; [| split; assumption].
  exists [], []. simpl. rewrite app_nil_r. repeat split; constructor.
Qed.

(** X15.  What a save sends is in normal form: it is the form with the
    white space at the two ends of the name, the description and the
    location taken off (white space only is taken off, none is left at
    either end), it has a name, of at most 100 characters, trimming it
    again changes nothing, and it passes the validation itself. *)
Theorem payload_is_trimmed_and_valid (form : Form) :
  validate form = None ->
  let payload := trimmed form in
  submitted form payload
  /\ name payload <> ""
  /\ (lengthOf (name payload) <= 100)%nat
  /\ description payload <> ""
  /\ location payload <> ""
  /\ trimmed payload = payload
  /\ validate payload = None.
Proof.
  intros H payload. apply validate_accepts in H.
  assert (A := H). destruct A as (N & L & Ds & Lo & Sk & U & Da).
  assert (T : trimmed payload = payload).
  { unfold payload, trimmed. simpl. now rewrite !trim_idem. }
  split; [apply trimmed_submitted |].
  unfold payload at 1 2 3 4. simpl.
  split; [now rewrite <- blank_trim |].
  split; [apply L, trim_strips |].
  split; [now rewrite <- blank_trim |].
  split; [now rewrite <- blank_trim |].
  split; [assumption |].
  apply validate_accepts. unfold acceptable, payload. simpl.
  rewrite !blank_trim, !trim_idem, <- !blank_trim.
  repeat split; try assumption.
  intros t Ht. apply strippedOf_trim in Ht. rewrite trim_idem in Ht.
  rewrite <- Ht. apply L, trim_strips.
Qed.

End Payload.

Lemma payload_is_trimmed_and_valid_witness :
  let payload := trimmed (Sample.formNamed Sample.spacedName) in
  submitted (Sample.formNamed Sample.spacedName) payload
  /\ name payload <> ""
  /\ (lengthOf (name payload) <= 100)%nat
  /\ description payload <> ""
  /\ location payload <> ""
  /\ trimmed payload = payload
  /\ validate payload = None.
Proof.
  apply (payload_is_trimmed_and_valid (Sample.formNamed Sample.spacedName)).
  reflexivity.
Defined.

(** The payload of that form, spelled out. *)
Example payload_of_the_spaced_name :
  trimmed (Sample.formNamed Sample.spacedName) = Sample.formNamed "Food drive"
  /\ lengthOf Sample.spacedName = 13%nat
  /\ lengthOf (name (trimmed (Sample.formNamed Sample.spacedName))) = 10%nat.
Proof. vm_compute. repeat split. Qed.

Section Toggle.

Import EventPage.

Lemma includes_In (s : string) (l : list string) : includes s l = true <-> In s l.
Proof.
  unfold includes. rewrite existsb_exists. split.
  - intros (x & Hx & E). apply String.eqb_eq in E. now subst.
  - intros H. exists s. split; [assumption | apply String.eqb_refl].
Qed.

Lemma toggled_In (s x : string) (l : list string) :
  In x (toggled s l) <-> (x = s /\ ~ In s l) \/ (x <> s /\ In x l).
Proof.
  unfold toggled. destruct (includes s l) eqn:E.
  - apply includes_In in E. rewrite filter_In, negb_true_iff, String.eqb_neq.
    split.
    + intros [H N]. now right.
    + intros [[-> N] | [N H]]; [contradiction | now split].
  - assert (N : ~ In s l) by (rewrite <- includes_In; congruence).
    rewrite in_app_iff. simpl. split.
    + intros [H | [<- | []]]; [| now left].
      right. split; [| assumption]. intros ->. contradiction.
    + intros [[-> _] | [_ H]]; [right; now left | now left].
Qed.

(** X16.  Toggling a skill flips that skill and no other: it is selected
    afterwards exactly when it was not before, every other skill is
    selected exactly when it was, a selection without repetition stays
    without repetition, and the other fields of the form, and the rest of
    the page, stay as they are. *)
Theorem toggleSkill_flips_one_skill (s : string) (st : State) :
  let before := EventManage.requiredSkills (form st) in
  let after := EventManage.requiredSkills (form (toggleSkill s st)) in
  (In s after <-> ~ In s before)
  /\ (forall x, x <> s -> (In x after <-> In x before))
  /\ (NoDup before -> NoDup after)
  /\ form (toggleSkill s st)
     = withField (form st) (RequiredSkills after)
  /\ setForm (toggleSkill s st) (form st) = setForm st (form st).
Proof.
  intros before after. unfold after, toggleSkill. simpl.
  fold before. split; [| split; [| split; [| split; reflexivity]]].
  - rewrite toggled_In. split.
    + intros [[_ N] | [N _]]; [assumption | congruence].
    + intros N. now left.
  - intros x Hx. rewrite toggled_In. split.
    + intros [[-> _] | [_ H]]; [congruence | assumption].
    + intros H. now right.
  - intros Hnd. unfold toggled. destruct (includes s before) eqn:E.
    + now apply NoDup_filter.
    + apply NoDup_app; [assumption | repeat constructor; intros [] |].
      intros x Hx [<- | []]. apply includes_In in Hx. congruence.
Qed.

Lemma filter_absent (s : string) (l : list string) :
  ~ In s l -> filter (fun x => negb (String.eqb x s)) l = l.
Proof.
  intros N. apply filter_all. intros x Hx.
  apply negb_true_iff, String.eqb_neq. intros ->. contradiction.
Qed.

(** X17.  Toggling a skill twice: a skill that was not selected is not
    selected again and the selection is as it was; a skill that was
    selected is selected again, moved to the end of the selection. *)
Theorem toggleSkill_twice (s : string) (st : State) :
  let before := EventManage.requiredSkills (form st) in
  let after := EventManage.requiredSkills (form (toggleSkill s (toggleSkill s st))) in
  (~ In s before -> after = before)
  /\ (In s before ->
      after = (filter (fun x => negb (String.eqb x s)) before ++ [s])%list).
Proof.
  intros before after. unfold after, toggleSkill. simpl. fold before.
  split; intros H.
  - unfold toggled at 2.
    assert (E : includes s before = false).
    { destruct (includes s before) eqn:E; [| reflexivity].
      apply includes_In in E. contradiction. }
    rewrite E. unfold toggled.
    assert (E' : includes s (before ++ [s]) = true).
    { apply includes_In, in_or_app. right. now left. }
    rewrite E', filter_app. simpl. rewrite String.eqb_refl. simpl.
    rewrite app_nil_r. now apply filter_absent.
  - unfold toggled at 2.
    assert (E : includes s before = true) by now apply includes_In.
    rewrite E. unfold toggled.
    assert (E' : includes s (filter (fun x => negb (String.eqb x s)) before) = false).
    { destruct (includes s (filter (fun x => negb (String.eqb x s)) before)) eqn:E';
        [| reflexivity].
      apply includes_In, filter_In in E'. destruct E' as [_ E'].
      now rewrite String.eqb_refl in E'. }
    now rewrite E'.
Qed.

End Toggle.

Lemma toggleSkill_twice_witness :
  let st := SamplePage.editing in
  EventManage.requiredSkills
    (EventPage.form (EventPage.toggleSkill "Teamwork" (EventPage.toggleSkill "Teamwork" st)))
  = EventManage.requiredSkills (EventPage.form st)
  /\ EventManage.requiredSkills
       (EventPage.form (EventPage.toggleSkill "Lifting" (EventPage.toggleSkill "Lifting" st)))
     = ["Lifting"].
Proof.
  split.
  - apply (proj1 (toggleSkill_twice "Teamwork" SamplePage.editing)).
    simpl. intuition discriminate.
  - apply (proj2 (toggleSkill_twice "Lifting" SamplePage.editing)).
    simpl. now left.
Defined.

(* ===================================================================== *)
(** ** The state of the page                                              *)
(* ===================================================================== *)

Section Page.

Import EventPage.

Lemma coherent_hydrate (e : EventItem.t) (s : State) :
  identified e -> Forall identified (events s) -> coherent (hydrateFormForEdit e s).
Proof.
  intros He Hs. split; [exact Hs |].
  right. split; [reflexivity | now exists (EventItem.id e)].
Qed.

Lemma coherent_resetForm (s : State) :
  Forall identified (events s) -> coherent (resetForm s).
Proof. intros Hs. split; [exact Hs |]. left. split; reflexivity. Qed.

(** X18.  As long as every event the server sends has an id (a non-empty
    one), the page lists events that have an id and is in edit mode
    exactly when one of them is selected: that holds at the start and
    after every handler (the load, a field edit, a skill toggle, a
    selection, a reset, a save and a delete, whether the request went
    through or not). *)
Theorem page_mode_follows_selection :
  coherent initial
  /\ forall s : State,
       coherent s ->
       (forall reply, (forall l, reply = Some l -> Forall identified l) ->
                      coherent (loadEvents reply s))
       /\ (forall c, coherent (set c s))
       /\ (forall k, coherent (toggleSkill k s))
       /\ (forall id, coherent (handleSelectEvent id s))
       /\ coherent (resetForm s)
       /\ (forall reply, (forall e, reply = Some e -> identified e) ->
                         coherent (handleSave reply s))
       /\ (forall deleted, coherent (handleDelete deleted s)).
Proof.
  split; [split; [constructor | left; split; reflexivity] |].
  intros s H. assert (Hs := proj1 H). split; [| split; [| split; [| split; [| split; [| split]]]]].
  - intros [l |] Hl; [| exact H]. split; [now apply Hl | exact (proj2 H)].
  - intros c. exact H.
  - intros k. exact H.
  - intros id. unfold handleSelectEvent.
    destruct (find _ (events s)) as [e |] eqn:F; [| exact H].
    apply coherent_hydrate; [| exact Hs].
    apply find_some in F. destruct F as [F _].
    exact (proj1 (Forall_forall _ _) Hs e F).
  - now apply coherent_resetForm.
  - intros reply Hr. unfold handleSave.
    destruct (EventManage.handleSave (mode s) (selectedId s) (form s));
      try exact H; destruct reply as [e |]; try exact H;
      specialize (Hr e eq_refl); (apply coherent_hydrate; [exact Hr |]); simpl.
    + now constructor.
    + apply Forall_forall. intros x Hx. apply in_map_iff in Hx.
      destruct Hx as (x0 & <- & Hx0).
      destruct (String.eqb (EventItem.id x0) id); [exact Hr |].
      exact (proj1 (Forall_forall _ _) Hs x0 Hx0).
  - intros deleted. unfold handleDelete.
    destruct (selectedId s) as [id |] eqn:E; [| exact H].
    destruct (String.eqb id ""); [exact H |].
    destruct deleted.
    + apply coherent_resetForm. simpl.
      apply Forall_forall. intros x Hx. apply filter_In in Hx.
      exact (proj1 (Forall_forall _ _) Hs x (proj1 Hx)).
    + unfold coherent in *. simpl. exact H.
Qed.

(** X19.  A save of a form that passes the validation, answered by the
    server with an event: in create mode the event is put first in the
    list, in edit mode it takes the place of every event with the selected
    id and the list keeps its length; either way the event becomes the
    selected one, the form shows its fields as the server sent them, and
    the error message that was shown stays. *)
Theorem handleSave_success (s : State) (saved : EventItem.t) :
  validate (form s) = None ->
  (mode s = EventManage.create ->
   events (handleSave (Some saved) s) = saved :: events s)
  /\ (forall id, mode s = EventManage.edit -> selectedId s = Some id -> id <> "" ->
      events (handleSave (Some saved) s)
      = map (fun e => if String.eqb (EventItem.id e) id then saved else e) (events s)
      /\ List.length (events (handleSave (Some saved) s)) = List.length (events s))
  /\ (mode s = EventManage.create
      \/ (mode s = EventManage.edit /\ exists id, selectedId s = Some id /\ id <> "") ->
      selectedId (handleSave (Some saved) s) = Some (EventItem.id saved)
      /\ mode (handleSave (Some saved) s) = EventManage.edit
      /\ form (handleSave (Some saved) s) = rest saved
      /\ saving (handleSave (Some saved) s) = false
      /\ error (handleSave (Some saved) s) = error s).
Proof.
  intros V. unfold handleSave, EventManage.handleSave. rewrite V.
  split; [| split].
  - intros ->. reflexivity.
  - intros id -> -> Hid. apply isEmpty_false in Hid. rewrite Hid. simpl.
    split; [reflexivity | apply length_map].
  - intros [-> | (-> & id & -> & Hid)].
    + repeat split.
    + apply isEmpty_false in Hid. rewrite Hid. repeat split.
Qed.

(** X20.  A save that does not go through loses nothing: when the form is
    rejected, no request is made and only the error message changes,
    whatever the server would have answered; when the request fails, the
    list, the selection, the mode and what was typed stay, and the error
    message is [Failed to save event.]. *)
Theorem handleSave_failure_keeps_the_form (s : State) :
  (forall msg reply, validate (form s) = Some msg ->
     handleSave reply s = setError s (Some msg))
  /\ (validate (form s) = None ->
      let s' := handleSave None s in
      events s' = events s /\ selectedId s' = selectedId s /\ mode s' = mode s
      /\ form s' = form s /\ saving s' = false
      /\ (mode s = EventManage.create
          \/ (exists id, selectedId s = Some id /\ id <> "") ->
          error s' = Some "Failed to save event.")).
Proof.
  unfold handleSave, EventManage.handleSave. split.
  - intros msg reply V. now rewrite V.
  - intros V. rewrite V. simpl.
    destruct (mode s) eqn:M.
    + simpl. repeat split. exact M.
    + destruct (selectedId s) as [id |] eqn:S; [destruct (isEmpty id) eqn:E |];
        simpl; rewrite ?M, ?S; repeat split.
      * intros [H | (i & H & N)]; [discriminate |].
        injection H as <-. apply isEmpty_false in N. congruence.
      * intros [H | (i & H & N)]; discriminate.
Qed.

(** X21.  A delete that goes through removes every event with the selected
    id from the list, and only those, and resets the page: empty form,
    create mode, no selection, no error.  A delete that fails keeps the
    list, the selection and the form, and shows [Failed to delete event.];
    without a selection there is no delete. *)
Theorem handleDelete_outcomes (s : State) :
  (forall id, selectedId s = Some id -> id <> "" ->
     let s' := handleDelete true s in
     (forall e, In e (events s') <-> In e (events s) /\ EventItem.id e <> id)
     /\ form s' = EventManage.emptyForm /\ mode s' = EventManage.create
     /\ selectedId s' = None /\ error s' = None /\ saving s' = false)
  /\ (forall id, selectedId s = Some id -> id <> "" ->
      let s' := handleDelete false s in
      events s' = events s /\ selectedId s' = selectedId s /\ form s' = form s
      /\ mode s' = mode s /\ error s' = Some "Failed to delete event.")
  /\ (selectedId s = None -> forall deleted, handleDelete deleted s = s).
Proof.
  unfold handleDelete. split; [| split].
  - intros id -> Hid. apply String.eqb_neq in Hid. rewrite Hid. simpl.
    repeat split; try reflexivity.
    + now apply filter_In in H.
    + apply filter_In in H. destruct H as [_ H].
      now apply negb_true_iff, String.eqb_neq in H.
    + intros [H N]. apply filter_In. split; [assumption |].
      now apply negb_true_iff, String.eqb_neq.
  - intros id S Hid. rewrite S. apply String.eqb_neq in Hid. rewrite Hid. simpl.
    repeat split. exact S.
  - intros ->. reflexivity.
Qed.

End Page.

Lemma sample_page_coherent : coherent SamplePage.editing.
Proof.
  split.
  - repeat constructor; discriminate.
  - right. split; [reflexivity |]. exists "e1". split; [reflexivity | discriminate].
Qed.

Lemma page_mode_follows_selection_witness :
  coherent (EventPage.loadEvents (Some [SamplePage.item "e3" "Park cleanup"])
              SamplePage.editing)
  /\ coherent (EventPage.handleSave (Some (SamplePage.item "e1" "Food drive, day 2"))
                 SamplePage.editing)
  /\ coherent (EventPage.handleSave None SamplePage.editing)
  /\ coherent (EventPage.handleDelete true SamplePage.editing).
Proof.
  destruct (proj2 page_mode_follows_selection SamplePage.editing sample_page_coherent)
    as (L & _ & _ & _ & _ & S & D).
  split; [| split; [| split]].
  - apply L. intros l E. injection E as <-. repeat constructor. discriminate.
  - apply S. intros e E. injection E as <-. discriminate.
  - apply S. intros e E. discriminate.
  - apply D.
Defined.

(** The page after the save of the sample page, and after its delete. *)
Example page_after_save_and_delete :
  let saved := EventPage.handleSave (Some (SamplePage.item "e1" "Food drive, day 2"))
                 SamplePage.editing in
  let deleted := EventPage.handleDelete true SamplePage.editing in
  EventPage.mode saved = EventManage.edit
  /\ EventPage.selectedId saved = Some "e1"
  /\ map EventItem.id (EventPage.events saved) = ["e1"; "e2"]
  /\ EventPage.mode deleted = EventManage.create
  /\ EventPage.selectedId deleted = None
  /\ map EventItem.id (EventPage.events deleted) = ["e2"].
Proof. vm_compute. repeat split. Qed.

(** The assumption counts: after the creation of an event that comes back
    with an empty id the page is in edit mode, and a save or a delete does
    nothing, as with no selection. *)
Example page_after_an_event_without_id :
  let s := EventPage.setForm EventPage.initial (Sample.form "2024-03-01") in
  let s1 := EventPage.handleSave (Some (SamplePage.item "" "Food drive")) s in
  EventPage.mode s1 = EventManage.edit
  /\ EventPage.selectedId s1 = Some ""
  /\ EventPage.handleDelete true s1 = s1
  /\ EventPage.handleSave (Some (SamplePage.item "e1" "Food drive")) s1 = s1.
Proof. vm_compute. repeat split. Qed.

Lemma handleSave_success_witness :
  let s := SamplePage.editing in
  let saved := SamplePage.item "e1" "Food drive, day 2" in
  EventPage.events (EventPage.handleSave (Some saved) s)
  = [saved; SamplePage.item "e2" "Shelter shift"]
  /\ EventPage.form (EventPage.handleSave (Some saved) s) = EventPage.rest saved.
Proof.
  destruct (handleSave_success SamplePage.editing
              (SamplePage.item "e1" "Food drive, day 2") eq_refl) as (_ & U & F).
  split.
  - apply (U "e1"); try reflexivity. discriminate.
  - apply F. right. split; [reflexivity |]. exists "e1". split; [reflexivity | discriminate].
Defined.

Lemma handleSave_failure_keeps_the_form_witness :
  let s := SamplePage.editing in
  EventPage.events (EventPage.handleSave None s) = EventPage.events s
  /\ EventPage.form (EventPage.handleSave None s) = EventPage.form s
  /\ EventPage.error (EventPage.handleSave None s) = Some "Failed to save event.".
Proof.
  destruct (proj2 (handleSave_failure_keeps_the_form SamplePage.editing) eq_refl)
    as (E & _ & _ & F & _ & R).
  split; [exact E |]. split; [exact F |].
  apply R. right. exists "e1". split; [reflexivity | discriminate].
Defined.

Lemma handleDelete_outcomes_witness :
  let s' := EventPage.handleDelete true SamplePage.editing in
  (forall e, In e (EventPage.events s')
             <-> In e (EventPage.events SamplePage.editing) /\ EventItem.id e <> "e1")
  /\ EventPage.form s' = EventManage.emptyForm
  /\ EventPage.selectedId s' = None.
Proof.
  destruct (proj1 (handleDelete_outcomes SamplePage.editing) "e1" eq_refl)
    as (E & F & _ & S & _); [discriminate |].
  split; [exact E |]. split; [exact F | exact S].
Defined.

(* ===================================================================== *)
(** ** The helpers of the events resource                                 *)
(* ===================================================================== *)

Section Api.

Import EventsApi.

Variable parse : string -> option value.

(** X22.  For an answer that is not ok, [handleResponse] never returns,
    whatever the body is: it throws.  What it throws is an [Error] with the
    message [Request failed.] when the body is empty or an object without
    a truthy [error], and with the body's [error] as its message when that
    is a non-empty string. *)
Theorem handleResponse_throws_when_not_ok (res : Response) :
  ok res = false ->
  (exists e, handleResponse parse res = Threw e)
  /\ (text res = "" -> handleResponse parse res = Threw (Error "Request failed."))
  /\ (forall fields,
        text res <> "" -> parse (text res) = Some (JObj fields) ->
        (truthy (assoc "error" fields) = false ->
         handleResponse parse res = Threw (Error "Request failed."))
        /\ (forall s, assoc "error" fields = Some (JStr s) -> s <> "" ->
            handleResponse parse res = Threw (Error s))).
Proof.
  intros Hok. unfold handleResponse, readJson. rewrite Hok. simpl negb. cbv iota.
  split; [| split].
  - destruct (String.eqb (text res) ""); [eexists; reflexivity |].
    destruct (parse (text res)) as [[| | | | |] |]; eexists; reflexivity.
  - intros ->. reflexivity.
  - intros fields Ht Hp. apply String.eqb_neq in Ht. rewrite Ht, Hp. simpl.
    split.
    + intros F. rewrite F. now rewrite andb_false_r.
    + intros s E Hs. rewrite E. simpl.
      apply String.eqb_neq in Hs. now rewrite Hs.
Qed.

(** X23.  For an answer that is ok, [handleResponse] returns the [data] of
    an object body, and [undefined] when the body is empty, an object
    without [data], or an array; it throws when the body is no JSON, and
    also when it is JSON but neither an object nor an array. *)
Theorem handleResponse_when_ok (res : Response) :
  ok res = true ->
  (text res = "" -> handleResponse parse res = Returned None)
  /\ (text res <> "" ->
      match parse (text res) with
      | None => handleResponse parse res = Threw SyntaxError
      | Some (JObj fields) => handleResponse parse res = Returned (assoc "data" fields)
      | Some (JArr _) => handleResponse parse res = Returned None
      | Some _ => handleResponse parse res = Threw TypeError
      end).
Proof.
  intros Hok. unfold handleResponse, readJson. rewrite Hok. simpl negb. cbv iota.
  split.
  - intros ->. reflexivity.
  - intros Ht. apply String.eqb_neq in Ht. rewrite Ht.
    destruct (parse (text res)) as [[| | | | | fields] |]; try reflexivity.
    simpl. now destruct (assoc "data" fields).
Qed.

(** X24.  [deleteEvent] succeeds on every answer that is ok, without
    reading the body, and throws on every other answer and when the
    request itself fails. *)
Theorem deleteEvent_outcomes (reply : option Response) :
  (forall res, reply = Some res -> ok res = true -> deleteEvent parse reply = Returned tt)
  /\ (forall res, reply = Some res -> ok res = false ->
      exists e, deleteEvent parse reply = Threw e)
  /\ (reply = None -> deleteEvent parse reply = Threw TypeError).
Proof.
  split; [| split].
  - intros res -> Hok. unfold deleteEvent. now rewrite Hok.
  - intros res -> Hok. unfold deleteEvent, readJson. rewrite Hok. simpl negb. cbv iota.
    destruct (String.eqb (text res) ""); [eexists; reflexivity |].
    destruct (parse (text res)) as [body |]; [| eexists; reflexivity].
    destruct (deleteMessage body); eexists; reflexivity.
  - intros ->. reflexivity.
Qed.

End Api.

Lemma handleResponse_throws_when_not_ok_witness :
  EventsApi.handleResponse SamplePage.parse
    {| EventsApi.ok := false; EventsApi.text := "" |}
  = EventsApi.Threw (EventsApi.Error "Request failed.")
  /\ exists e,
       EventsApi.handleResponse SamplePage.parse
         {| EventsApi.ok := false; EventsApi.text := "5" |}
       = EventsApi.Threw e.
Proof.
  split.
  - apply (proj1 (proj2 (handleResponse_throws_when_not_ok SamplePage.parse
                           {| EventsApi.ok := false; EventsApi.text := "" |} eq_refl))).
    reflexivity.
  - apply (proj1 (handleResponse_throws_when_not_ok SamplePage.parse
                    {| EventsApi.ok := false; EventsApi.text := "5" |} eq_refl)).
Defined.

Lemma handleResponse_when_ok_witness :
  EventsApi.handleResponse SamplePage.parse
    {| EventsApi.ok := true; EventsApi.text := "" |}
  = EventsApi.Returned None.
Proof.
  apply (proj1 (handleResponse_when_ok SamplePage.parse
                  {| EventsApi.ok := true; EventsApi.text := "" |} eq_refl)).
  reflexivity.
Defined.

Lemma deleteEvent_outcomes_witness :
  EventsApi.deleteEvent SamplePage.parse
    (Some {| EventsApi.ok := true; EventsApi.text := "not json" |})
  = EventsApi.Returned tt
  /\ exists e,
       EventsApi.deleteEvent SamplePage.parse
         (Some {| EventsApi.ok := false; EventsApi.text := "null" |})
       = EventsApi.Threw e.
Proof.
  split.
  - apply (proj1 (deleteEvent_outcomes SamplePage.parse
                    (Some {| EventsApi.ok := true; EventsApi.text := "not json" |}))
             {| EventsApi.ok := true; EventsApi.text := "not json" |}); reflexivity.
  - apply (proj1 (proj2 (deleteEvent_outcomes SamplePage.parse
                           (Some {| EventsApi.ok := false; EventsApi.text := "null" |})))
             {| EventsApi.ok := false; EventsApi.text := "null" |}); reflexivity.
Defined.

Lemma toggleSkill_flips_one_skill_witness :
  NoDup (EventManage.requiredSkills
           (EventPage.form (EventPage.toggleSkill "Teamwork" SamplePage.editing)))
  /\ In "Teamwork"
        (EventManage.requiredSkills
           (EventPage.form (EventPage.toggleSkill "Teamwork" SamplePage.editing))).
Proof.
  destruct (toggleSkill_flips_one_skill "Teamwork" SamplePage.editing)
    as (F & _ & N & _).
  split.
  - apply N. simpl. repeat constructor. intros [].
  - apply F. simpl. intuition discriminate.
Defined.
